(** * Pixelita: the pixel-art canvas and the theme store of [pixelart.py]

    A shallow embedding of [PixelArtCanvas] and [PixelArtApp].  Python
    integers are [Z]; Python [str] values are lists of code points; a method
    that mutates [self] becomes a function returning the new object, and a
    method that can raise returns an [outcome].  Toolkit and standard-library
    calls ([QImage], [json], [open]) are modelled by the definitions marked
    as such. *)

From Stdlib Require Import ZArith NArith Lia String Ascii DecimalString.
From stdpp Require Import base tactics option list numbers functions.

Local Open Scope Z_scope.

(** ** Python values shared by both classes *)

(** A Python [str]: its code points, each below [0x110000]. *)
Abbreviation pystr := (list N).

(** A literal of the source, as a [pystr]. *)
Definition py (s : string) : pystr := map N_of_ascii (list_ascii_of_string s).
Arguments py : simpl never.

(** The exceptions the modelled code can raise. *)
Inductive exn :=
  | OSError
  | JSONDecodeError
  | KeyError
  | TypeError
  | AttributeError
  | ZeroDivisionError
  | ValueError
  | RecursionError.

Inductive outcome (A : Type) :=
  | Ok (a : A)
  | Raise (e : exn).
Arguments Ok {A} a.
Arguments Raise {A} e.

#[global] Instance outcome_ret : MRet outcome := fun A a => Ok a.
#[global] Instance outcome_bind : MBind outcome := fun A B f m =>
  match m with
  | Ok a => f a
  | Raise e => Raise e
  end.

(** ** Python floats, as far as the canvas uses them

    [a / b] on two [int]s is the quotient correctly rounded to binary64
    (round to nearest, ties to even), and [int(f)] truncates towards zero.
    A float is kept as the exact dyadic number [mant * 2 ^ expo].  Every
    operand in the canvas is a C [int] of Qt, so quotients and products stay
    between [2 ^ -31] and [2 ^ 62] in magnitude and the exponent range of
    binary64 is never left: the exponent is unbounded here. *)
Module PyFloat.

Record float := Float { mant : Z; expo : Z }.

(** [n * 2 ^ s / d] as a fraction of integers, for either sign of [s]. *)
Definition scaled (n d s : Z) : Z * Z :=
  if 0 <=? s then (n * 2 ^ s, d) else (n, d * 2 ^ (- s)).

(** The shift that brings [n / d] into [[2 ^ 52, 2 ^ 53)]. *)
Definition shift53 (n d : Z) : Z :=
  let s0 := 52 - (Z.log2 n - Z.log2 d) in
  let '(a, b) := scaled n d s0 in
  if a / b <? 2 ^ 52 then s0 + 1 else s0.

(** Nearest binary64 value of [n / d] for [0 < n] and [0 < d]. *)
Definition round_pos (n d : Z) : float :=
  let s := shift53 n d in
  let '(a, b) := scaled n d s in
  let q := a / b in
  let r := a mod b in
  let up := (b <? 2 * r) || ((b =? 2 * r) && Z.odd q) in
  Float (if up then q + 1 else q) (- s).

(** Nearest binary64 value of [n / d] for [d <> 0]. *)
Definition round_ratio (n d : Z) : float :=
  if n =? 0 then Float 0 0
  else
    let f := round_pos (Z.abs n) (Z.abs d) in
    Float (Z.sgn n * Z.sgn d * mant f) (expo f).

(** [a / b] on Python ints. *)
Definition int_truediv (a b : Z) : outcome float :=
  if b =? 0 then Raise ZeroDivisionError else Ok (round_ratio a b).

(** [float(i)], the conversion Python applies to the int in [i * step]. *)
Definition float_of_int (i : Z) : float := round_ratio i 1.

(** [x * y] on floats. *)
Definition float_mul (x y : float) : float :=
  let m := mant x * mant y in
  let e := expo x + expo y in
  if 0 <=? e then round_ratio (m * 2 ^ e) 1 else round_ratio m (2 ^ (- e)).

(** [int(x)]: truncation towards zero. *)
Definition int_of_float (x : float) : Z :=
  if 0 <=? expo x then mant x * 2 ^ expo x
  else mant x ÷ 2 ^ (- expo x).

End PyFloat.
Import PyFloat.

(** ** Qt values *)

(** A colour of an RGB32 image, [0xRRGGBB]. *)
Definition QColor := Z.

Definition white : QColor := 0xffffff.

(** [QPoint] *)
Record QPoint := { qx : Z; qy : Z }.

(** A [QImage] of format RGB32: its scan lines, top to bottom.  The null
    image has none. *)
Abbreviation QImage := (list (list QColor)).

Definition img_height (img : QImage) : Z := Z.of_nat (length img).

Definition img_width (img : QImage) : Z :=
  match img with
  | [] => 0
  | row :: _ => Z.of_nat (length row)
  end.

(** [QImage(width, height, Format_RGB32)] followed by [fill(color)]: a
    null image unless both sizes are positive. *)
Definition QImage_filled (width height : Z) (c : QColor) : QImage :=
  if (0 <? width) && (0 <? height)
  then replicate (Z.to_nat height) (replicate (Z.to_nat width) c)
  else [].

(** [QImage.pixelColor(x, y)]; [None] outside the image. *)
Definition pixelColor (img : QImage) (x y : Z) : option QColor :=
  if (0 <=? x) && (0 <=? y)
  then row ← img !! Z.to_nat y; row !! Z.to_nat x
  else None.

(** [QImage.setPixelColor(x, y, c)]: Qt warns and leaves the image alone
    when the coordinate is outside it. *)
Definition setPixelColor (img : QImage) (x y : Z) (c : QColor) : QImage :=
  if (0 <=? x) && (x <? img_width img) && (0 <=? y) && (y <? img_height img)
  then alter (fun row => <[Z.to_nat x := c]> row) (Z.to_nat y) img
  else img.

(** [range(n)] *)
Definition range (n : Z) : list Z := Z.of_nat <$> seq 0 (Z.to_nat n).

(** Modelled from the spec: [QImage.scaled(w, h, IgnoreAspectRatio,
    FastTransformation)] is Qt code, outside the repository.  The spec gives
    it as nearest-neighbour scaling without smoothing, every source cell
    becoming one contiguous block: output pixel [(X, Y)] takes the source
    cell [(X * width / w, Y * height / h)], by floor division.  A null
    source or an empty target size gives the null image. *)
Definition QImage_scaled (img : QImage) (w h : Z) : QImage :=
  if (0 <? w) && (0 <? h) && (0 <? img_width img)
  then
    (fun Y =>
       (fun X =>
          default white (pixelColor img (X * img_width img / w)
                                        (Y * img_height img / h)))
       <$> range w)
    <$> range h
  else [].

(** What [update_display] hands to [setPixmap]: the scaled image, the pen
    colour, and the [drawLine(x1, y1, x2, y2)] calls made on it, in order. *)
Record QPixmap := {
  base : QImage;
  pen : QColor;
  lines : list (Z * Z * Z * Z)
}.

(** Whether [drawLine(x1, y1, x2, y2)] covers the pixel [(X, Y)], with the
    pen one pixel wide that [setPen(QColor)] gives and no antialiasing: a
    vertical or horizontal line covers the pixels from one end to the other.
    [update_display] draws no other line, and a slanted one is not
    modelled. *)
Definition on_line (l : Z * Z * Z * Z) (X Y : Z) : bool :=
  let '(x1, y1, x2, y2) := l in
  ((x1 =? x2) && (X =? x1) && (Z.min y1 y2 <=? Y) && (Y <=? Z.max y1 y2))
  || ((y1 =? y2) && (Y =? y1) && (Z.min x1 x2 <=? X) && (X <=? Z.max x1 x2)).

(** The colour the pixmap shows at [(X, Y)]: the pen's where a line was
    drawn, the scaled image's elsewhere; [None] outside the pixmap. *)
Definition QPixmap_pixelColor (p : QPixmap) (X Y : Z) : option QColor :=
  c ← pixelColor (base p) X Y;
  Some (if existsb (fun l => on_line l X Y) (lines p) then pen p else c).

(** ** [PixelArtCanvas] *)

Record PixelArtCanvas := {
  width_px : Z;
  height_px : Z;
  display_size : Z;
  image : QImage;
  drawing : bool;
  brush_color : QColor;
  (* state of the QLabel base class *)
  pixmap : option QPixmap;
  width : Z;     (* self.width(), decided by the layout *)
  height : Z     (* self.height() *)
}.

Definition set_image (img : QImage) (self : PixelArtCanvas) : PixelArtCanvas :=
  {| width_px := width_px self; height_px := height_px self;
     display_size := display_size self; image := img;
     drawing := drawing self; brush_color := brush_color self;
     pixmap := pixmap self; width := width self; height := height self |}.

Definition set_pixmap (p : QPixmap) (self : PixelArtCanvas) : PixelArtCanvas :=
  {| width_px := width_px self; height_px := height_px self;
     display_size := display_size self; image := image self;
     drawing := drawing self; brush_color := brush_color self;
     pixmap := Some p; width := width self; height := height self |}.

Definition set_brush_color (c : QColor) (self : PixelArtCanvas) : PixelArtCanvas :=
  {| width_px := width_px self; height_px := height_px self;
     display_size := display_size self; image := image self;
     drawing := drawing self; brush_color := c;
     pixmap := pixmap self; width := width self; height := height self |}.

(** The image [update_display] and [save_image] build with
    [self.image.scaled(size, size, ...)]: the canvas without its grid. *)
Definition rasterize (self : PixelArtCanvas) (size : Z) : QImage :=
  QImage_scaled (image self) size size.

(** [update_display]: scale the image, draw the grid on it, show it.  The
    horizontal lines use the same [step] as the vertical ones. *)
Definition update_display (self : PixelArtCanvas) : outcome PixelArtCanvas :=
  let scaled := rasterize self (display_size self) in
  step ← int_truediv (display_size self) (width_px self);
  let at_ (i : Z) := int_of_float (float_mul (float_of_int i) step) in
  let vertical :=
    (fun i => (at_ i, 0, at_ i, display_size self)) <$> range (width_px self + 1) in
  let horizontal :=
    (fun j => (0, at_ j, display_size self, at_ j)) <$> range (height_px self + 1) in
  Ok (set_pixmap {| base := scaled; pen := 0xd8b0ff;
                    lines := vertical ++ horizontal |} self).


(** Lines 62-63 and 72-73: the cell under a pointer position. *)
Definition mapPointerToCell (self : PixelArtCanvas) (pos : QPoint)
    : outcome (Z * Z) :=
  fx ← int_truediv (qx pos * width_px self) (width self);
  fy ← int_truediv (qy pos * height_px self) (height self);
  Ok (int_of_float fx, int_of_float fy).

(** Lines 64-66: the guarded write of [paint_pixel], for a colour [c]. *)
Definition paint (x y : Z) (c : QColor) (self : PixelArtCanvas)
    : outcome PixelArtCanvas :=
  if (0 <=? x) && (x <? width_px self) && (0 <=? y) && (y <? height_px self)
  then update_display (set_image (setPixelColor (image self) x y c) self)
  else Ok self.

(** Lines 74-76: the guarded write of [reset_pixel]. *)
Definition erase (x y : Z) (self : PixelArtCanvas) : outcome PixelArtCanvas :=
  if (0 <=? x) && (x <? width_px self) && (0 <=? y) && (y <? height_px self)
  then update_display (set_image (setPixelColor (image self) x y 0xffffff) self)
  else Ok self.

Definition paint_pixel (pos : QPoint) (self : PixelArtCanvas)
    : outcome PixelArtCanvas :=
  '(x, y) ← mapPointerToCell self pos;
  paint x y (brush_color self) self.

Definition reset_pixel (pos : QPoint) (self : PixelArtCanvas)
    : outcome PixelArtCanvas :=
  '(x, y) ← mapPointerToCell self pos;
  erase x y self.

(** [change_color]; [picked] is the colour the dialog returned, if it is
    valid. *)
Definition change_color (picked : option QColor) (self : PixelArtCanvas)
    : PixelArtCanvas :=
  match picked with
  | Some color => set_brush_color color self
  | None => self
  end.

(** ** The mouse events of the canvas *)

(** [Qt.MouseButton], a flag. *)
Definition LeftButton : Z := 1.
Definition RightButton : Z := 2.
Definition MiddleButton : Z := 4.

(** [QMouseEvent]: the button that caused the event, the buttons held
    while it happened, and the pointer position. *)
Record QMouseEvent := { button : Z; buttons : Z; pos : QPoint }.

Definition set_drawing (b : bool) (self : PixelArtCanvas) : PixelArtCanvas :=
  {| width_px := width_px self; height_px := height_px self;
     display_size := display_size self; image := image self;
     drawing := b; brush_color := brush_color self;
     pixmap := pixmap self; width := width self; height := height self |}.

(** A call of [paint_pixel] or [reset_pixel] from an event handler: its
    outcome and the canvas after it.  Either method raises in the pointer
    mapping only, before it has changed anything ([paint_never_raises]), so
    the canvas after an exception is the one before the call. *)
Definition call (m : PixelArtCanvas -> outcome PixelArtCanvas)
    (self : PixelArtCanvas) : outcome unit * PixelArtCanvas :=
  match m self with
  | Ok self' => (Ok (), self')
  | Raise e => (Raise e, self)
  end.

Definition mousePressEvent (event : QMouseEvent) (self : PixelArtCanvas)
    : outcome unit * PixelArtCanvas :=
  if button event =? LeftButton then
    call (paint_pixel (pos event)) (set_drawing true self)
  else if button event =? RightButton then
    call (reset_pixel (pos event)) self
  else (Ok (), self).

Definition mouseDoubleClickEvent (event : QMouseEvent) (self : PixelArtCanvas)
    : outcome unit * PixelArtCanvas :=
  call (reset_pixel (pos event)) self.

Definition mouseMoveEvent (event : QMouseEvent) (self : PixelArtCanvas)
    : outcome unit * PixelArtCanvas :=
  if drawing self && negb (Z.land (buttons event) LeftButton =? 0) then
    call (paint_pixel (pos event)) self
  else (Ok (), self).

Definition mouseReleaseEvent (event : QMouseEvent) (self : PixelArtCanvas)
    : outcome unit * PixelArtCanvas :=
  (Ok (), set_drawing false self).

(** The cell under a pixel of the display surface. *)
Definition cell_of (self : PixelArtCanvas) (pos : QPoint) : Z * Z :=
  (qx pos * width_px self / width self, qy pos * height_px self / height self).

(** The pointer is on the display surface, and the products of the mapping
    are below [2 ^ 53], where the float quotient is exact. *)
Definition inside (self : PixelArtCanvas) (pos : QPoint) : Prop :=
  0 <= qx pos < width self /\ 0 <= qy pos < height self /\
  qx pos * width_px self < 2 ^ 53 /\ qy pos * height_px self < 2 ^ 53.

(** The shape [__init__] gives the canvas and every method keeps: positive
    sizes, and an image of [height_px] scan lines of [width_px] cells. *)
Definition image_wf (w h : Z) (img : QImage) : Prop :=
  length img = Z.to_nat h /\ Forall (fun row => length row = Z.to_nat w) img.

Definition canvas_wf (self : PixelArtCanvas) : Prop :=
  0 < width_px self /\ 0 < height_px self /\
  image_wf (width_px self) (height_px self) (image self).

(** ** Files *)

(** What a file holds: text, or the picture [img] in the format the name
    of the file gives. *)
Inductive content :=
  | Text (s : pystr)
  | Picture (img : QImage).

Record file := { readable : bool; writable : bool; data : content }.

(** What a path names: nothing (and whether a file may be created there),
    or a file. *)
Inductive node :=
  | Missing (creatable : bool)
  | File (f : file).

Abbreviation filesystem := (pystr -> node).

(** [open(path, 'w')], one write of [c], and the close. *)
Definition write_file (path : pystr) (c : content) (fs : filesystem)
    : outcome filesystem :=
  match fs path with
  | Missing true =>
      Ok (<[path := File {| readable := true; writable := true; data := c |}]> fs)
  | Missing false => Raise OSError
  | File f =>
      if writable f
      then Ok (<[path := File {| readable := readable f; writable := true;
                                 data := c |}]> fs)
      else Raise OSError
  end.

(** [QFileInfo(fileName).suffix()]: what follows the last dot of the last
    component of the path, and nothing when that component has no dot. *)
Fixpoint QFileInfo_suffix (fileName : pystr) : pystr :=
  match fileName with
  | [] => []
  | c :: rest =>
      if ((c =? 46)
          && forallb (fun c' => negb ((c' =? 46) || (c' =? 47))) rest)%N
      then rest
      else QFileInfo_suffix rest
  end.

(** [toLower()], on the letters of ASCII *)
Definition toLower (s : pystr) : pystr :=
  (fun c => if ((65 <=? c) && (c <=? 90))%N then (c + 32)%N else c) <$> s.

(** The formats Qt writes by default, after the table in the documentation
    of [QImage]; a build with more image plugins writes more. *)
Definition image_formats : list pystr :=
  [py "bmp"; py "jpg"; py "jpeg"; py "png"; py "ppm"; py "xbm"; py "xpm"].

(** [QImage.save(fileName)] with no format given: Qt takes the format from
    the suffix of the name, and reports failure through the [bool] it
    returns, raising nothing.  A null image, a name whose suffix names no
    format Qt writes, and a file that cannot be opened all fail, and then
    the files are left as they were. *)
Definition QImage_save (img : QImage) (fileName : pystr) (fs : filesystem)
    : bool * filesystem :=
  match img with
  | [] => (false, fs)
  | _ =>
      if bool_decide (toLower (QFileInfo_suffix fileName) ∈ image_formats)
      then
        match write_file fileName (Picture img) fs with
        | Ok fs' => (true, fs')
        | Raise _ => (false, fs)
        end
      else (false, fs)
  end.

(** [save_image]; [filename] is what [getSaveFileName] returned, empty when
    the dialog was cancelled.  The result of [scaled.save] is dropped. *)
Definition save_image (filename : pystr) (self : PixelArtCanvas)
    (fs : filesystem) : outcome unit * (PixelArtCanvas * filesystem) :=
  match filename with
  | [] => (Ok (), (self, fs))
  | _ =>
      let scaled := rasterize self 1080 in
      let '(_, fs') := QImage_save scaled filename fs in
      (Ok (), (self, fs'))
  end.

(** ** Python values of the theme, and the [json] module

    [json.load] and [json.dump] are the standard library's; they are
    modelled here as CPython's [json.decoder], [json.scanner] and
    [json.encoder] work with their default arguments ([strict] decoding,
    [ensure_ascii] encoding, a comma and a space between items, a colon
    and a space after a key).  The recursion limit of the interpreter is
    not modelled. *)

#[warnings="-register-all"]
Inductive value :=
  | JNull
  | JBool (b : bool)
  | JInt (z : Z)
  | JFloat (literal : pystr)   (* the float Python reads from this literal *)
  | JStr (s : pystr)
  | JList (l : list value)
  | JDict (d : list (pystr * value)).   (* in insertion order, keys distinct *)

(** [d[k]] and [d[k] = v] on a [dict]: a new key goes last, an old one keeps
    its place. *)
Fixpoint dict_get (k : pystr) (d : list (pystr * value)) : option value :=
  match d with
  | [] => None
  | (k', v) :: rest => if bool_decide (k' = k) then Some v else dict_get k rest
  end.

Fixpoint dict_set (k : pystr) (v : value) (d : list (pystr * value))
    : list (pystr * value) :=
  match d with
  | [] => [(k, v)]
  | (k', v') :: rest =>
      if bool_decide (k' = k) then (k', v) :: rest
      else (k', v') :: dict_set k v rest
  end.

Module Json.

Local Open Scope N_scope.

(** *** Encoding *)

Definition hex_digit (n : N) : N := if n <? 10 then 48 + n else 87 + n.

(** ['%04x' % n] for [n < 0x10000] *)
Definition hex4 (n : N) : pystr :=
  [hex_digit (n / 4096 mod 16); hex_digit (n / 256 mod 16);
   hex_digit (n / 16 mod 16); hex_digit (n mod 16)].

(** The replacement [encode_basestring_ascii] makes for one character. *)
Definition encode_char (c : N) : pystr :=
  if c =? 34 then [92; 34]
  else if c =? 92 then [92; 92]
  else if c =? 10 then [92; 110]
  else if c =? 13 then [92; 114]
  else if c =? 9 then [92; 116]
  else if c =? 8 then [92; 98]
  else if c =? 12 then [92; 102]
  else if (32 <=? c) && (c <=? 126) then [c]
  else if c <? 0x10000 then 92 :: 117 :: hex4 c
  else
    let n := c - 0x10000 in
    let s1 := N.lor 0xd800 (N.land (N.shiftr n 10) 0x3ff) in
    let s2 := N.lor 0xdc00 (N.land n 0x3ff) in
    (92 :: 117 :: hex4 s1) ++ (92 :: 117 :: hex4 s2).

Definition encode_basestring_ascii (s : pystr) : pystr :=
  34 :: (s ≫= encode_char) ++ [34].

(** [', '.join(parts)] *)
Fixpoint join (parts : list pystr) : pystr :=
  match parts with
  | [] => []
  | [p] => p
  | p :: rest => p ++ 44 :: 32 :: join rest
  end.

(** [str(z)] for an int *)
Definition decimal (z : Z) : pystr :=
  py (DecimalString.NilZero.string_of_int (Z.to_int z)).

Section dumps.

(** [float.__repr__] of the float Python reads from a literal: floats
    are outside this model, and no theme of the program holds one. *)
Variable float_repr : pystr -> pystr.

Fixpoint dumps (v : value) : pystr :=
  match v with
  | JNull => py "null"
  | JBool true => py "true"
  | JBool false => py "false"
  | JInt z => decimal z
  | JFloat literal => float_repr literal
  | JStr s => encode_basestring_ascii s
  | JList l => 91 :: join (dumps <$> l) ++ [93]
  | JDict d =>
      123 :: join ((fun kv => encode_basestring_ascii (fst kv)
                              ++ 58 :: 32 :: dumps (snd kv)) <$> d)
          ++ [125]
  end.

End dumps.

(** *** Decoding *)

(** What a scanner returns: a value and the text after it, or the
    exception it raises. *)
Inductive scan (A : Type) :=
  | Found (a : A) (rest : pystr)
  | Invalid (e : exn)
  | Exhausted.   (* the fuel of the model ran out; see [loads_total] *)
Arguments Found {A} a rest.
Arguments Invalid {A} e.
Arguments Exhausted {A}.

Definition is_ws (c : N) : bool :=
  (c =? 32) || (c =? 9) || (c =? 10) || (c =? 13).

(** [WHITESPACE.match(s, idx).end()] *)
Fixpoint skip_ws (s : pystr) : pystr :=
  match s with
  | c :: rest => if is_ws c then skip_ws rest else s
  | [] => []
  end.

Definition hex_value (c : N) : option N :=
  if (48 <=? c) && (c <=? 57) then Some (c - 48)
  else if (97 <=? c) && (c <=? 102) then Some (c - 87)
  else if (65 <=? c) && (c <=? 70) then Some (c - 55)
  else None.

(** [_decode_uXXXX] on the four characters after [\u] *)
Definition decode_uXXXX (a b c d : N) : option N :=
  a ← hex_value a; b ← hex_value b; c ← hex_value c; d ← hex_value d;
  Some (a * 4096 + b * 256 + c * 16 + d).

(** The [BACKSLASH] table *)
Definition backslash (e : N) : option N :=
  if e =? 34 then Some 34
  else if e =? 92 then Some 92
  else if e =? 47 then Some 47
  else if e =? 98 then Some 8
  else if e =? 102 then Some 12
  else if e =? 110 then Some 10
  else if e =? 114 then Some 13
  else if e =? 116 then Some 9
  else None.

Definition is_high (u : N) : bool := (0xd800 <=? u) && (u <=? 0xdbff).
Definition is_low (u : N) : bool := (0xdc00 <=? u) && (u <=? 0xdfff).

Definition add_char (c : N) (r : option (pystr * pystr))
    : option (pystr * pystr) :=
  '(str, rest) ← r; Some (c :: str, rest).

(** [scanstring(s, end, strict=True)], from the character after the
    opening quote: the decoded string and the text after the closing
    quote.  [None] is a [JSONDecodeError]. *)
Fixpoint scanstring (s : pystr) : option (pystr * pystr) :=
  match s with
  | [] => None
  | c :: rest =>
      if c =? 34 then Some ([], rest)
      else if c =? 92 then
        match rest with
        | [] => None
        | e :: rest1 =>
            if e =? 117 then
              match rest1 with
              | a :: b :: c :: d :: rest2 =>
                  match decode_uXXXX a b c d with
                  | None => None
                  | Some uni =>
                      match rest2 with
                      | bs :: u :: a2 :: b2 :: c2 :: d2 :: rest3 =>
                          if is_high uni && (bs =? 92) && (u =? 117) then
                            match decode_uXXXX a2 b2 c2 d2 with
                            | None => None
                            | Some uni2 =>
                                if is_low uni2 then
                                  add_char
                                    (0x10000
                                     + N.lor (N.shiftl (uni - 0xd800) 10)
                                             (uni2 - 0xdc00))
                                    (scanstring rest3)
                                else add_char uni (scanstring rest2)
                            end
                          else add_char uni (scanstring rest2)
                      | _ => add_char uni (scanstring rest2)
                      end
                  end
              | _ => None
              end
            else
              match backslash e with
              | Some ch => add_char ch (scanstring rest1)
              | None => None
              end
        end
      else if c <? 32 then None
      else add_char c (scanstring rest)
  end.

Definition is_digit (c : N) : bool := (48 <=? c) && (c <=? 57).

(** The digits [s] starts with, and the text after them. *)
Fixpoint digits (s : pystr) : pystr * pystr :=
  match s with
  | c :: rest =>
      if is_digit c then let '(ds, r) := digits rest in (c :: ds, r)
      else ([], s)
  | [] => ([], [])
  end.

(** [int(text)] for an optional sign and decimal digits *)
Definition int_of_digits (ds : pystr) : Z :=
  fold_left (fun acc c => (10 * acc + Z.of_N (c - 48))%Z) ds 0%Z.

(** The first group of [NUMBER_RE], an optional minus and then either a
    single zero or digits that start with a non-zero one: its sign, its
    digits and the text after it. *)
Definition match_integer (s : pystr) : option (bool * pystr * pystr) :=
  let '(neg, s1) :=
    match s with
    | c :: rest => if c =? 45 then (true, rest) else (false, s)
    | [] => (false, s)
    end in
  match s1 with
  | c :: rest =>
      if c =? 48 then Some (neg, [48], rest)
      else if is_digit c then
        let '(ds, r) := digits rest in Some (neg, c :: ds, r)
      else None
  | [] => None
  end.

(** The second group, [(\.[0-9]+)?] *)
Definition match_frac (s : pystr) : pystr * pystr :=
  match s with
  | c :: rest =>
      if c =? 46 then
        match digits rest with
        | ([], _) => ([], s)
        | (ds, r) => (c :: ds, r)
        end
      else ([], s)
  | [] => ([], s)
  end.

(** The third group, [([eE][-+]?[0-9]+)?] *)
Definition match_exp (s : pystr) : pystr * pystr :=
  match s with
  | e :: rest =>
      if (e =? 101) || (e =? 69) then
        let '(sign, rest1) :=
          match rest with
          | c :: rest1 =>
              if (c =? 45) || (c =? 43) then ([c], rest1) else ([], rest)
          | [] => ([], rest)
          end in
        match digits rest1 with
        | ([], _) => ([], s)
        | (ds, r) => (e :: sign ++ ds, r)
        end
      else ([], s)
  | [] => ([], s)
  end.

(** [s] starts with the literal [lit]: the text after it. *)
Fixpoint after (lit s : pystr) : option pystr :=
  match lit, s with
  | [], _ => Some s
  | c :: lit', c' :: s' => if c =? c' then after lit' s' else None
  | _ :: _, [] => None
  end.

(** A number at the start of [s], as [_scan_once] reads it.  An integer
    of more than 4300 digits is refused by [int()]. *)
Definition scan_number (s : pystr) : option (scan value) :=
  match match_integer s with
  | None => None
  | Some (neg, ds, r1) =>
      let '(frac, r2) := match_frac r1 in
      let '(exp, r3) := match_exp r2 in
      let sign : pystr := if neg then [45] else [] in
      match frac, exp with
      | [], [] =>
          if (4300 <? length ds)%nat then Some (Invalid ValueError)
          else
            let z := int_of_digits ds in
            Some (Found (JInt (if neg then - z else z)%Z) r3)
      | _, _ => Some (Found (JFloat (sign ++ ds ++ frac ++ exp)) r3)
      end
  end.

(** [_scan_once], with [JSONObject] and [JSONArray] and their loops.
[fuel] bounds the calls: each level of nesting takes two, and each item
of a loop one, while consuming input, so twice the length of the text
is enough ([scan_fuel]). *)
Fixpoint scan_once (fuel : nat) (s : pystr) : scan value :=
  match fuel with
  | O => Exhausted
  | S fuel =>
      match s with
      | [] => Invalid JSONDecodeError
      | c :: rest =>
          if c =? 34 then
            match scanstring rest with
            | Some (str, r) => Found (JStr str) r
            | None => Invalid JSONDecodeError
            end
          else if c =? 123 then
            match skip_ws rest with
            | c1 :: r1 =>
                if c1 =? 125 then Found (JDict []) r1
                else if c1 =? 34 then object_items fuel [] r1
                else Invalid JSONDecodeError
            | [] => Invalid JSONDecodeError
            end
          else if c =? 91 then
            match skip_ws rest with
            | c1 :: r1 =>
                if c1 =? 93 then Found (JList []) r1
                else array_items fuel [] (c1 :: r1)
            | [] => Invalid JSONDecodeError
            end
          else
            match after (py "null") s, after (py "true") s,
                  after (py "false") s with
            | Some r, _, _ => Found JNull r
            | _, Some r, _ => Found (JBool true) r
            | _, _, Some r => Found (JBool false) r
            | None, None, None =>
                match scan_number s with
                | Some res => res
                | None =>
                    match after (py "NaN") s, after (py "Infinity") s,
                          after (py "-Infinity") s with
                    | Some r, _, _ => Found (JFloat (py "NaN")) r
                    | _, Some r, _ => Found (JFloat (py "Infinity")) r
                    | _, _, Some r => Found (JFloat (py "-Infinity")) r
                    | None, None, None => Invalid JSONDecodeError
                    end
                end
            end
      end
  end

(** the loop of [JSONObject], from the character after the quote that
    opens a key *)
with object_items (fuel : nat) (acc : list (pystr * value)) (s : pystr)
    : scan value :=
  match fuel with
  | O => Exhausted
  | S fuel =>
      match scanstring s with
      | None => Invalid JSONDecodeError
      | Some (key, r) =>
          match skip_ws r with
          | colon :: r1 =>
              if colon =? 58 then
                match scan_once fuel (skip_ws r1) with
                | Found v r2 =>
                    let acc := dict_set key v acc in
                    match skip_ws r2 with
                    | c :: r3 =>
                        if c =? 125 then Found (JDict acc) r3
                        else if c =? 44 then
                          match skip_ws r3 with
                          | q :: r4 =>
                              if q =? 34 then object_items fuel acc r4
                              else Invalid JSONDecodeError
                          | [] => Invalid JSONDecodeError
                          end
                        else Invalid JSONDecodeError
                    | [] => Invalid JSONDecodeError
                    end
                | Invalid e => Invalid e
                | Exhausted => Exhausted
                end
              else Invalid JSONDecodeError
          | [] => Invalid JSONDecodeError
          end
      end
  end

(** the loop of [JSONArray], from the first character of an item *)
with array_items (fuel : nat) (acc : list value) (s : pystr) : scan value :=
  match fuel with
  | O => Exhausted
  | S fuel =>
      match scan_once fuel s with
      | Found v r =>
          match skip_ws r with
          | c :: r1 =>
              if c =? 93 then Found (JList (acc ++ [v])) r1
              else if c =? 44 then array_items fuel (acc ++ [v]) (skip_ws r1)
              else Invalid JSONDecodeError
          | [] => Invalid JSONDecodeError
          end
      | Invalid e => Invalid e
      | Exhausted => Exhausted
      end
  end.

(** [json.loads(s)]: no byte order mark, one value, nothing but white
    space around it. *)
Definition loads (s : pystr) : outcome value :=
  match s with
  | 0xfeff :: _ => Raise JSONDecodeError
  | _ =>
      match scan_once (S (2 * length s)) (skip_ws s) with
      | Found v rest =>
          match skip_ws rest with
          | [] => Ok v
          | _ :: _ => Raise JSONDecodeError
          end
      | Invalid e => Raise e
      | Exhausted => Raise RecursionError
      end
  end.

End Json.

(** A text written with apostrophes where the file has double quotes. *)
Definition quoted (s : string) : pystr :=
  (fun c => if (c =? 39)%N then 34%N else c) <$> py s.

(** ** [PixelArtApp]: the theme

    The widgets are left out; what the theme methods touch is the files,
    the [dict] objects, the two attributes that refer to them, and the
    style sheets [apply_style] sets.  A method is a function from the state
    before the call to its result, or the exception it raises, and the
    state after: what a method changed before raising stays changed. *)

Definition CONFIG_FILE : pystr := py "config.json".
Arguments CONFIG_FILE : simpl never.

(** The literal of lines 140-144. *)
Definition default_theme : value :=
  JDict [ (py "window_color", JStr (py "#f3e6ff"));
          (py "button_color", JStr (py "#b57edc"));
          (py "font", JStr (py "Comic Sans MS")) ].

Record state := {
  fs : filesystem;
  heap : list value;                 (* the objects, by address *)
  default_style : option nat;        (* self.default_style, once assigned *)
  current_style : option nat;        (* self.current_style, once assigned *)
  window_style : option (value * value);   (* window_color and font shown *)
  button_style : option (value * value)    (* button_color and font shown *)
}.

Definition M (A : Type) : Type := state -> outcome A * state.

#[global] Instance M_ret : MRet M := fun A a st => (Ok a, st).
#[global] Instance M_bind : MBind M := fun A B f m st =>
  match m st with
  | (Ok a, st') => f a st'
  | (Raise e, st') => (Raise e, st')
  end.

Definition raise {A} (e : exn) : M A := fun st => (Raise e, st).

Definition lift {A} (r : outcome A) : M A := fun st => (r, st).

Definition set_fs (fs' : filesystem) (st : state) : state :=
  {| fs := fs'; heap := heap st; default_style := default_style st;
     current_style := current_style st; window_style := window_style st;
     button_style := button_style st |}.

Definition set_heap (h : list value) (st : state) : state :=
  {| fs := fs st; heap := h; default_style := default_style st;
     current_style := current_style st; window_style := window_style st;
     button_style := button_style st |}.

(** A new object. *)
Definition alloc (v : value) : M nat := fun st =>
  (Ok (length (heap st)), set_heap (heap st ++ [v]) st).

Definition deref (r : nat) : M value := fun st =>
  match heap st !! r with
  | Some v => (Ok v, st)
  | None => (Raise AttributeError, st)
  end.

Definition get_default_style : M nat := fun st =>
  match default_style st with
  | Some r => (Ok r, st)
  | None => (Raise AttributeError, st)
  end.

Definition get_current_style : M nat := fun st =>
  match current_style st with
  | Some r => (Ok r, st)
  | None => (Raise AttributeError, st)
  end.

Definition set_default_style (r : nat) : M unit := fun st =>
  (Ok (), {| fs := fs st; heap := heap st; default_style := Some r;
             current_style := current_style st;
             window_style := window_style st;
             button_style := button_style st |}).

Definition set_current_style (r : nat) : M unit := fun st =>
  (Ok (), {| fs := fs st; heap := heap st; default_style := default_style st;
             current_style := Some r; window_style := window_style st;
             button_style := button_style st |}).

Definition setStyleSheet_window (wc font : value) : M unit := fun st =>
  (Ok (), {| fs := fs st; heap := heap st; default_style := default_style st;
             current_style := current_style st;
             window_style := Some (wc, font);
             button_style := button_style st |}).

Definition setStyleSheet_buttons (bc font : value) : M unit := fun st =>
  (Ok (), {| fs := fs st; heap := heap st; default_style := default_style st;
             current_style := current_style st;
             window_style := window_style st;
             button_style := Some (bc, font) |}).

(** [os.path.exists(path)] *)
Definition path_exists (path : pystr) : M bool := fun st =>
  match fs st path with
  | Missing _ => (Ok false, st)
  | File _ => (Ok true, st)
  end.

(** [open(path, 'r')] and [f.read()]: a file that holds a picture is not
    text, and decoding it fails with a [ValueError]. *)
Definition read_text (path : pystr) : M pystr := fun st =>
  match fs st path with
  | Missing _ => (Raise OSError, st)
  | File f =>
      if readable f then
        match data f with
        | Text t => (Ok t, st)
        | Picture _ => (Raise ValueError, st)
        end
      else (Raise OSError, st)
  end.

(** [open(path, 'w')], which empties the file, and a later [f.write(t)]. *)
Definition write_text (path : pystr) (t : pystr) : M unit := fun st =>
  match write_file path (Text t) (fs st) with
  | Ok fs' => (Ok (), set_fs fs' st)
  | Raise e => (Raise e, st)
  end.

(** [v[k]] *)
Definition getitem (v : value) (k : pystr) : M value :=
  match v with
  | JDict d =>
      match dict_get k d with
      | Some x => mret x
      | None => raise KeyError
      end
  | _ => raise TypeError
  end.

(** [obj[k] = x] on the object at [r] *)
Definition setitem (r : nat) (k : pystr) (x : value) : M unit :=
  v ← deref r;
  match v with
  | JDict d => fun st => (Ok (), set_heap (<[r := JDict (dict_set k x d)]> (heap st)) st)
  | _ => raise TypeError
  end.

(** [obj.copy()]: a new object with the same items *)
Definition copy (r : nat) : M nat :=
  v ← deref r;
  match v with
  | JDict _ | JList _ => alloc v
  | _ => raise AttributeError
  end.

(** [QColor(x)] and [QFont(x)] on a value of the theme.  A [str] gives a
    colour, valid or not, or a font.  For any other object PyQt gives one
    where the object converts and raises [TypeError] where it does not (a
    list, [None] or a float for a colour): [converts] says which. *)
Definition construct (converts : value -> bool) (x : value) : M unit :=
  match x with
  | JStr _ => mret ()
  | _ => if converts x then mret () else raise TypeError
  end.

Section theme.

Variable float_repr : pystr -> pystr.

(** The objects other than [str] that PyQt converts to a [QColor], and to
    a [QFont]. *)
Variables QColor_converts QFont_converts : value -> bool.

Definition load_config : M nat :=
  found ← path_exists CONFIG_FILE;
  if found : bool then
    t ← read_text CONFIG_FILE;
    v ← lift (Json.loads t);
    alloc v
  else
    d ← get_default_style;
    copy d.

Definition save_config : M unit :=
  _ ← write_text CONFIG_FILE [];
  c ← get_current_style;
  v ← deref c;
  write_text CONFIG_FILE (Json.dumps float_repr v).

Definition apply_style : M unit :=
  c ← get_current_style;
  style ← deref c;
  wc ← getitem style (py "window_color");
  font ← getitem style (py "font");
  _ ← setStyleSheet_window wc font;
  bc ← getitem style (py "button_color");
  font ← getitem style (py "font");
  setStyleSheet_buttons bc font.

(** [change_theme]; the arguments are what the three dialogs returned:
    the name of a valid colour, the family of an accepted font, or
    nothing.  Each dialog is opened on [QColor(...)] or [QFont(...)] of the
    current value of its field, lines 179-181, before anything is
    assigned. *)
Definition change_theme (window_color button_color font : option pystr)
    : M unit :=
  c ← get_current_style;
  style ← deref c;
  x ← getitem style (py "window_color");
  _ ← construct QColor_converts x;
  x ← getitem style (py "button_color");
  _ ← construct QColor_converts x;
  x ← getitem style (py "font");
  _ ← construct QFont_converts x;
  _ ← match window_color with
      | Some name => setitem c (py "window_color") (JStr name)
      | None => mret ()
      end;
  _ ← match button_color with
      | Some name => setitem c (py "button_color") (JStr name)
      | None => mret ()
      end;
  _ ← match font with
      | Some family => setitem c (py "font") (JStr family)
      | None => mret ()
      end;
  _ ← apply_style;
  save_config.

Definition reset_theme : M unit :=
  d ← get_default_style;
  c ← copy d;
  _ ← set_current_style c;
  _ ← apply_style;
  save_config.

(** The part of [PixelArtApp.__init__] that concerns the theme. *)
Definition PixelArtApp_init : M unit :=
  d ← alloc default_theme;
  _ ← set_default_style d;
  c ← load_config;
  _ ← set_current_style c;
  apply_style.

(** The state [__init__] starts from, given the files. *)
Definition blank (files : filesystem) : state :=
  {| fs := files; heap := []; default_style := None; current_style := None;
     window_style := None; button_style := None |}.

(** What happens to a running application: the two theme buttons, and
    anything else changing the files in between. *)
Inductive event :=
  | ChangeTheme (window_color button_color font : option pystr)
  | ResetTheme
  | Outside (files : filesystem).

Definition handle (e : event) : M unit :=
  match e with
  | ChangeTheme w b f => change_theme w b f
  | ResetTheme => reset_theme
  | Outside files => fun st => (Ok (), set_fs files st)
  end.

(** The states of an application whose [__init__] returned, after any
    events; an event that raised leaves the state it reached. *)
Inductive reachable : state -> Prop :=
  | reach_init files st :
      PixelArtApp_init (blank files) = (Ok (), st) -> reachable st
  | reach_event st e r st' :
      reachable st -> handle e st = (r, st') -> reachable st'.

End theme.

(** The three fields of a theme are there. *)
Definition fully_populated (v : value) : Prop :=
  match v with
  | JDict d =>
      is_Some (dict_get (py "window_color") d) /\
      is_Some (dict_get (py "button_color") d) /\
      is_Some (dict_get (py "font") d)
  | _ => False
  end.

(** A Unicode scalar value: a code point that is no surrogate.  The text
    of a file and the strings of Qt are made of these. *)
Definition scalar (c : N) : bool :=
  (c <? 0x110000)%N && negb (Json.is_high c) && negb (Json.is_low c).

(** Text that [json] writes and reads back unchanged: code points, and no
    high surrogate directly before a low one (such a pair reads back as one
    character).  All text of scalar values is such ([text_ok_scalar]), and
    so is every string the decoder reads from a file, lone surrogates
    included ([scanstring_text_ok]). *)
Fixpoint text_ok (s : pystr) : bool :=
  match s with
  | [] => true
  | c :: rest =>
      (c <? 0x110000)%N
      && negb (Json.is_high c
               && match rest with c' :: _ => Json.is_low c' | [] => false end)
      && text_ok rest
  end.

(** A [dict] of strings to strings, as the program's own assignments
    build the theme. *)
Definition theme_ok (d : list (pystr * value)) : Prop :=
  NoDup d.*1 /\
  Forall (fun kv => text_ok kv.1 = true /\
                    exists s, kv.2 = JStr s /\ text_ok s = true) d.

(** Files used as examples: nothing but a configuration file with the given
    text, which may be written or not; elsewhere files can be created. *)
Definition files_with (t : pystr) (can_write : bool) : filesystem :=
  <[CONFIG_FILE := File {| readable := true; writable := can_write;
                           data := Text t |}]> (fun _ => Missing true).

(** Whether [open(path, 'w')] succeeds. *)
Definition can_write (path : pystr) (files : filesystem) : bool :=
  match files path with
  | Missing creatable => creatable
  | File f => writable f
  end.

(** The state of [__init__] once it has assigned [default_style]. *)
Definition with_defaults (files : filesystem) : state :=
  {| fs := files; heap := [default_theme]; default_style := Some 0%nat;
     current_style := None; window_style := None; button_style := None |}.

(** What every event keeps true of a running application: [default_style]
    is the object at [d], that object is still the literal of [__init__],
    and [current_style] is another object. *)
Definition theme_inv (d : nat) (st : state) : Prop :=
  default_style st = Some d /\ heap st !! d = Some default_theme /\
  exists c, current_style st = Some c /\ c <> d.

(** A method keeps [P]: it holds of the state the method leaves, whether
    it returned or raised. *)
Definition preserves {A} (P : state -> Prop) (m : M A) : Prop :=
  forall st, P st -> P (m st).2.

(** [P] looks at the objects and the two attributes only. *)
Definition theme_only (P : state -> Prop) : Prop :=
  forall st st',
    heap st' = heap st -> default_style st' = default_style st ->
    current_style st' = current_style st -> P st -> P st'.

(** Whether the file at [path] can be read once [open(path, 'w')] has
    succeeded: a new file can, an old one keeps its permission. *)
Definition readable_after (path : pystr) (files : filesystem) : bool :=
  match files path with
  | File f => readable f
  | Missing _ => true
  end.

(** The state [reset_theme] has reached when it calls [save_config]. *)
Definition reset_before_save (st : state) : state :=
  {| fs := fs st; heap := heap st ++ [default_theme];
     default_style := default_style st;
     current_style := Some (length (heap st));
     window_style := Some (JStr (py "#f3e6ff"), JStr (py "Comic Sans MS"));
     button_style := Some (JStr (py "#b57edc"), JStr (py "Comic Sans MS")) |}.

(** Files in which the picture [art.png] may not be written. *)
Definition files_locked : filesystem :=
  <[py "art.png" := File {| readable := true; writable := false;
                            data := Picture [] |}]> (fun _ => Missing true).

(** A configuration file that may be read by nobody. *)
Definition files_unreadable : filesystem :=
  <[CONFIG_FILE := File {| readable := false; writable := true;
                           data := Text (py "{}") |}]> (fun _ => Missing true).

(** No files at all. *)
Definition files_none : filesystem := fun _ => Missing true.

(** A configuration file with a theme of the user's. *)
Definition files_custom : filesystem :=
  files_with
    (quoted "{'window_color': '#000000', 'button_color': '#111111', 'font': 'Arial'}")
    true.

(** An application started on it. *)
Definition app_custom : state := (PixelArtApp_init (blank files_custom)).2.

(** An application started without a configuration file. *)
Definition app_fresh : state := (PixelArtApp_init (blank files_none)).2.

(** What one dialog of [change_theme] does to the theme: a choice is
    assigned, a cancelled dialog leaves the key alone. *)
Definition pick (k : pystr) (choice : option pystr)
    (d : list (pystr * value)) : list (pystr * value) :=
  match choice with
  | Some s => dict_set k (JStr s) d
  | None => d
  end.

(** The theme after the three dialogs of [change_theme]. *)
Definition chosen_theme (window_color button_color font : option pystr)
    (d : list (pystr * value)) : list (pystr * value) :=
  pick (py "font") font
    (pick (py "button_color") button_color
       (pick (py "window_color") window_color d)).

(** What a dialog returned can be written and read back. *)
Definition choice_ok (choice : option pystr) : Prop :=
  match choice with
  | Some s => text_ok s = true
  | None => True
  end.

(** The style sheets [apply_style] sets from the theme [d]. *)
Definition shown_window (d : list (pystr * value)) : option (value * value) :=
  wc ← dict_get (py "window_color") d;
  font ← dict_get (py "font") d;
  Some (wc, font).

Definition shown_buttons (d : list (pystr * value)) : option (value * value) :=
  bc ← dict_get (py "button_color") d;
  font ← dict_get (py "font") d;
  Some (bc, font).

(** The current theme is a [dict] with the three fields. *)
Definition theme_complete (st : state) : Prop :=
  exists c d,
    current_style st = Some c /\ heap st !! c = Some (JDict d) /\
    fully_populated (JDict d).

(** The three fields of the theme [d] are there and hold strings, as every
    theme the program itself builds does. *)
Definition theme_of_strings (d : list (pystr * value)) : Prop :=
  exists wc bc font,
    dict_get (py "window_color") d = Some (JStr wc) /\
    dict_get (py "button_color") d = Some (JStr bc) /\
    dict_get (py "font") d = Some (JStr font).

(** The current theme is such a [dict]. *)
Definition theme_strings (st : state) : Prop :=
  exists c d,
    current_style st = Some c /\ heap st !! c = Some (JDict d) /\
    theme_of_strings d.

(** A state whose current theme holds a list for [window_color], as
    [__init__] accepts it from a configuration file. *)
Definition theme_with_a_list : state :=
  {| fs := files_none;
     heap := [ default_theme;
               JDict [ (py "window_color", JList []);
                       (py "button_color", JStr (py "#111111"));
                       (py "font", JStr (py "Arial")) ] ];
     default_style := Some 0%nat; current_style := Some 1%nat;
     window_style := Some (JList [], JStr (py "Arial"));
     button_style := Some (JStr (py "#111111"), JStr (py "Arial")) |}.

(** A printable ASCII character. *)
Definition printable (c : N) : Prop := (32 <= c < 127)%N.

(** A state whose current theme lacks [button_color]. *)
Definition theme_without_button_color : state :=
  {| fs := files_none;
     heap := [ default_theme;
               JDict [ (py "window_color", JStr (py "#000000"));
                       (py "font", JStr (py "Arial")) ] ];
     default_style := Some 0%nat; current_style := Some 1%nat;
     window_style := None; button_style := None |}.

(** An application whose theme was changed in memory and not saved yet:
    the configuration file still holds an older theme. *)
Definition app_unsaved : state :=
  {| fs := files_with (quoted "{'window_color': '#ffffff', 'button_color': '#eeeeee', 'font': 'Courier'}") true;
     heap := [ default_theme;
               JDict [ (py "window_color", JStr (py "#000000"));
                       (py "button_color", JStr (py "#111111"));
                       (py "font", JStr (py "Arial")) ] ];
     default_style := Some 0%nat; current_style := Some 1%nat;
     window_style := Some (JStr (py "#000000"), JStr (py "Arial"));
     button_style := Some (JStr (py "#111111"), JStr (py "Arial")) |}.

(** ** Canvases used as examples *)

(** The canvas of the application, 60 by 60 cells in a widget of 600 by 600
    pixels, before its first [update_display]. *)
Definition canvas_60_600 : PixelArtCanvas :=
  {| width_px := 60; height_px := 60; display_size := 600;
     image := QImage_filled 60 60 white; drawing := false;
     brush_color := 0xff69b4; pixmap := None; width := 600; height := 600 |}.

(** The same canvas in a widget only 30 pixels wide. *)
Definition canvas_60_30 : PixelArtCanvas :=
  {| width_px := 60; height_px := 60; display_size := 30;
     image := QImage_filled 60 60 white; drawing := false;
     brush_color := 0xff69b4; pixmap := None; width := 30; height := 30 |}.

(** Sizes at the top of the C [int] range; only the numbers matter to the
    pointer mapping, so the image is left out. *)
Definition canvas_int_max : PixelArtCanvas :=
  {| width_px := 2 ^ 31 - 3; height_px := 1; display_size := 2 ^ 31 - 1;
     image := []; drawing := false; brush_color := 0xff69b4; pixmap := None;
     width := 2 ^ 31 - 1; height := 1 |}.

(** The 4 by 4 canvas of the spec's scenarios. *)
Definition canvas_4 : PixelArtCanvas :=
  {| width_px := 4; height_px := 4; display_size := 8;
     image := QImage_filled 4 4 white; drawing := false;
     brush_color := 0xff0000; pixmap := None; width := 8; height := 8 |}.

(** * Proofs *)

(** ** Exactness of the float path of the pointer mapping *)

Section float_exact.

Lemma scaled_pos n d s :
  0 < n -> 0 < d -> 0 < fst (scaled n d s) /\ 0 < snd (scaled n d s).
Proof.
  intros Hn Hd. unfold scaled.
  destruct (Z.leb_spec 0 s); simpl.
  - assert (0 < 2 ^ s) by (apply Z.pow_pos_nonneg; lia). nia.
  - assert (0 < 2 ^ (- s)) by (apply Z.pow_pos_nonneg; lia). nia.
Qed.

Lemma scaled_low n d :
  0 < n -> 0 < d ->
  2 ^ 51 * snd (scaled n d (52 - (Z.log2 n - Z.log2 d)))
  <= fst (scaled n d (52 - (Z.log2 n - Z.log2 d))).
Proof.
  intros Hn Hd.
  destruct (Z.log2_spec n Hn) as [Hn1 _].
  destruct (Z.log2_spec d Hd) as [_ Hd2].
  pose proof (Z.log2_nonneg n) as Hln. pose proof (Z.log2_nonneg d) as Hld.
  set (s0 := 52 - (Z.log2 n - Z.log2 d)).
  unfold scaled. destruct (Z.leb_spec 0 s0); simpl.
  - assert (E : 2 ^ Z.log2 n * 2 ^ s0 = 2 ^ 51 * 2 ^ Z.succ (Z.log2 d)).
    { rewrite <- !Z.pow_add_r by lia. f_equal. lia. }
    assert (0 < 2 ^ s0) by (apply Z.pow_pos_nonneg; lia).
    assert (0 < 2 ^ 51) by lia.
    generalize dependent (2 ^ 51). intros P E HP.
    apply Z.le_trans with (P * 2 ^ Z.succ (Z.log2 d)); [nia |].
    rewrite <- E. nia.
  - assert (E : 2 ^ 51 * (2 ^ Z.succ (Z.log2 d) * 2 ^ (- s0)) = 2 ^ Z.log2 n).
    { rewrite <- !Z.pow_add_r by lia. f_equal. lia. }
    assert (0 < 2 ^ (- s0)) by (apply Z.pow_pos_nonneg; lia).
    assert (0 < 2 ^ 51) by lia.
    generalize dependent (2 ^ 51). intros P E HP.
    apply Z.le_trans with (2 ^ Z.log2 n); [| lia].
    rewrite <- E. nia.
Qed.

Lemma scaled_succ n d s :
  fst (scaled n d (s + 1)) * snd (scaled n d s)
  = 2 * fst (scaled n d s) * snd (scaled n d (s + 1)).
Proof.
  unfold scaled.
  destruct (Z.leb_spec 0 s), (Z.leb_spec 0 (s + 1)); cbn [fst snd]; try lia.
  - rewrite Z.pow_add_r by lia. change (2 ^ 1) with 2. ring.
  - assert (s = -1) as -> by lia. change (2 ^ (-1 + 1)) with 1.
    change (2 ^ (- -1)) with 2. ring.
  - assert (E : 2 ^ (- s) = 2 ^ (- (s + 1)) * 2).
    { replace (- s) with (- (s + 1) + 1) by lia.
      rewrite Z.pow_add_r by lia. reflexivity. }
    rewrite E. ring.
Qed.

Lemma shift53_spec n d :
  0 < n -> 0 < d ->
  2 ^ 52 * snd (scaled n d (shift53 n d)) <= fst (scaled n d (shift53 n d)).
Proof.
  intros Hn Hd. unfold shift53.
  set (s0 := 52 - (Z.log2 n - Z.log2 d)).
  pose proof (scaled_low n d Hn Hd) as Hlow. fold s0 in Hlow.
  pose proof (scaled_succ n d s0) as Hsucc.
  destruct (scaled_pos n d s0 Hn Hd) as [Ha0 Hb0].
  destruct (scaled_pos n d (s0 + 1) Hn Hd) as [Ha1 Hb1].
  destruct (scaled n d s0) as [a0 b0] eqn:E0. simpl in *.
  destruct (Z.ltb_spec (a0 / b0) (2 ^ 52)) as [Hlt | Hge].
  - destruct (scaled n d (s0 + 1)) as [a1 b1]. simpl in *.
    change (2 ^ 52) with (2 * 2 ^ 51). clear Hlt.
    generalize dependent (2 ^ 51). intros P Hlow.
    assert (P * b0 * b1 <= a0 * b1) by nia.
    apply Z.mul_le_mono_pos_r with b0; [lia | nia].
  - rewrite E0. simpl.
    pose proof (Z.mul_div_le a0 b0 Hb0).
    generalize dependent (2 ^ 52). intros P HP. nia.
Qed.

(** Below [2 ^ 53] the rounding of the quotient never reaches the next
    integer, so truncating the float gives the floor of the quotient. *)
Lemma int_of_round_pos n d :
  0 < n < 2 ^ 53 -> 0 < d -> int_of_float (round_pos n d) = n / d.
Proof.
  intros [Hn Hn53] Hd. unfold round_pos.
  pose proof (shift53_spec n d Hn Hd) as Hs.
  destruct (scaled_pos n d (shift53 n d) Hn Hd) as [Ha Hb].
  revert Hs Ha Hb. generalize (shift53 n d). intros s.
  unfold scaled. destruct (Z.leb_spec 0 s) as [Hs0 | Hs0]; cbn [fst snd].
  - intros Hs Ha Hb.
    destruct (Z.eq_dec s 0) as [-> | Hne].
    + (* the quotient is already an integer of 53 bits *)
      change (2 ^ 0) with 1 in *. rewrite Z.mul_1_r in *.
      assert (d = 1) as -> by (change (2 ^ 53) with (2 * 2 ^ 52) in Hn53;
                               generalize dependent (2 ^ 52); intros; nia).
      rewrite Z.mod_1_r, Z.div_1_r. simpl.
      unfold int_of_float. simpl. lia.
    + assert (HP : 2 <= 2 ^ s).
      { change 2 with (2 ^ 1) at 1. apply Z.pow_le_mono_r; lia. }
      pose proof (Z.div_mod (n * 2 ^ s) d ltac:(lia)) as Hqr.
      pose proof (Z.mod_pos_bound (n * 2 ^ s) d Hd) as Hr.
      pose proof (Z.div_mod n d ltac:(lia)) as Htu.
      pose proof (Z.mod_pos_bound n d Hd) as Hu.
      assert (Hq0 : 0 <= n * 2 ^ s / d) by (apply Z.div_pos; lia).
      set (q := n * 2 ^ s / d) in *. set (r := (n * 2 ^ s) mod d) in *.
      set (t := n / d) in *. set (u := n mod d) in *.
      assert (Hexp : (0 <=? - s) = false) by (apply Z.leb_gt; lia).
      assert (Hlo : 2 ^ s * t <= q).
      { apply Z.div_le_lower_bound; [lia | nia]. }
      assert (Hhi : q < 2 ^ s * t + 2 ^ s).
      { apply Z.div_lt_upper_bound; [lia | nia]. }
      destruct (_ || _) eqn:Hup; unfold int_of_float; cbn [mant expo];
        rewrite Hexp, Z.opp_involutive, Z.quot_div_nonneg by lia;
        symmetry;
        [apply Z.div_unique with (r := q + 1 - 2 ^ s * t)
        | apply Z.div_unique with (r := q - 2 ^ s * t)]; try lia.
      (* rounding up must not reach the next multiple of 2 ^ s *)
      left. split; [lia |].
      destruct (Z.eq_dec (q + 1) (2 ^ s * t + 2 ^ s)) as [Heq | ?]; [| lia].
      exfalso.
      assert (Hd2 : d <= 2 * r).
      { apply orb_true_iff in Hup as [H | H];
          [apply Z.ltb_lt in H | apply andb_true_iff in H as [H _];
                                 apply Z.eqb_eq in H]; lia. }
      assert (Hr' : r = d - (d - u) * 2 ^ s) by nia.
      assert (Hbig : 2 * 2 ^ s <= d) by nia.
      change (2 ^ 53) with (2 * 2 ^ 52) in Hn53.
      generalize dependent (2 ^ 52). intros Q. intros.
      assert (Q * (2 * 2 ^ s) <= n * 2 ^ s) by nia.
      nia.
  - intros Hs Ha Hb. exfalso.
    assert (HP : 2 <= 2 ^ (- s)).
    { change 2 with (2 ^ 1) at 1. apply Z.pow_le_mono_r; lia. }
    change (2 ^ 53) with (2 * 2 ^ 52) in Hn53.
    generalize dependent (2 ^ 52). intros Q. intros. nia.
Qed.

Lemma int_of_float_opp m e :
  int_of_float (Float (- m) e) = - int_of_float (Float m e).
Proof.
  unfold int_of_float. cbn [mant expo].
  destruct (Z.leb_spec 0 e).
  - ring.
  - apply Z.quot_opp_l.
    assert (0 < 2 ^ (- e)) by (apply Z.pow_pos_nonneg; lia). lia.
Qed.

(** [int(a / b)] is the quotient truncated towards zero. *)
Lemma int_of_round_ratio a b :
  Z.abs a < 2 ^ 53 -> 0 < b -> int_of_float (round_ratio a b) = a ÷ b.
Proof.
  intros Ha Hb. unfold round_ratio.
  destruct (Z.eqb_spec a 0) as [-> | Hne].
  - rewrite Z.quot_0_l by lia. reflexivity.
  - rewrite (Z.abs_eq b), (Z.sgn_pos b), Z.mul_1_r by lia.
    pose proof (int_of_round_pos (Z.abs a) b ltac:(lia) Hb) as H.
    destruct (round_pos (Z.abs a) b) as [m e]. cbn [mant expo].
    destruct (Z.lt_total a 0) as [Hneg | [? | Hpos]]; [| lia |].
    + rewrite (Z.sgn_neg a) by lia.
      replace (-1 * m) with (- m) by ring.
      rewrite int_of_float_opp, H, Z.abs_neq by lia.
      rewrite <- Z.quot_div_nonneg by lia.
      rewrite Z.quot_opp_l by lia. lia.
    + rewrite (Z.sgn_pos a) by lia. rewrite Z.mul_1_l, H, Z.abs_eq by lia.
      symmetry. apply Z.quot_div_nonneg; lia.
Qed.

End float_exact.

(** ** The image under [setPixelColor] *)

Section image.

Context (w h : Z) (img : QImage).
Hypothesis (Hw : 0 < w) (Hh : 0 < h) (Himg : image_wf w h img).

Lemma image_wf_sizes : img_width img = w /\ img_height img = h.
Proof.
  destruct Himg as [Hlen Hrows]. unfold img_width, img_height.
  split; [| lia].
  destruct img as [| row rest]; [simpl in Hlen; lia |].
  inversion Hrows; subst. lia.
Qed.

Lemma image_wf_row (y : Z) :
  0 <= y < h ->
  exists row, img !! Z.to_nat y = Some row /\ length row = Z.to_nat w.
Proof.
  intros Hy. destruct Himg as [Hlen Hrows].
  destruct (lookup_lt_is_Some_2 img (Z.to_nat y)) as [row Hrow]; [lia |].
  exists row. split; [done |].
  eapply Forall_lookup_1 in Hrows; eauto.
Qed.

Lemma pixelColor_in_range (x y : Z) :
  0 <= x < w -> 0 <= y < h -> is_Some (pixelColor img x y).
Proof.
  intros Hx Hy. unfold pixelColor.
  destruct (image_wf_row y Hy) as (row & Hrow & Hlen).
  rewrite (proj2 (Z.leb_le 0 x)), (proj2 (Z.leb_le 0 y)) by lia.
  cbn [andb]. rewrite Hrow. cbn. apply lookup_lt_is_Some_2. lia.
Qed.

Lemma setPixelColor_in_range (x y : Z) (c : QColor) :
  0 <= x < w -> 0 <= y < h ->
  setPixelColor img x y c
  = alter (fun row => <[Z.to_nat x := c]> row) (Z.to_nat y) img.
Proof.
  intros Hx Hy. unfold setPixelColor.
  destruct image_wf_sizes as [-> ->].
  rewrite (proj2 (Z.leb_le 0 x)), (proj2 (Z.leb_le 0 y)) by lia.
  rewrite (proj2 (Z.ltb_lt x w)), (proj2 (Z.ltb_lt y h)) by lia.
  reflexivity.
Qed.

Lemma pixelColor_setPixelColor (x y : Z) (c : QColor) :
  0 <= x < w -> 0 <= y < h ->
  pixelColor (setPixelColor img x y c) x y = Some c.
Proof.
  intros Hx Hy. rewrite setPixelColor_in_range by done.
  destruct (image_wf_row y Hy) as (row & Hrow & Hlen).
  unfold pixelColor.
  rewrite (proj2 (Z.leb_le 0 x)), (proj2 (Z.leb_le 0 y)) by lia.
  cbn [andb]. rewrite list_lookup_alter_eq, Hrow. cbn.
  apply list_lookup_insert_eq. lia.
Qed.

Lemma pixelColor_setPixelColor_other (x y x' y' : Z) (c : QColor) :
  0 <= x' -> 0 <= y' -> (x', y') <> (x, y) ->
  pixelColor (setPixelColor img x y c) x' y' = pixelColor img x' y'.
Proof.
  intros Hx' Hy' Hne. unfold setPixelColor.
  destruct (_ && _) eqn:Hin; [| done].
  repeat (apply andb_true_iff in Hin as [Hin ?]).
  unfold pixelColor. destruct (_ && _); [| done].
  destruct (Z.eq_dec y' y) as [-> | Hy].
  - rewrite list_lookup_alter_eq.
    destruct (img !! Z.to_nat y) as [row |]; [| done]. cbn.
    apply list_lookup_insert_ne. intros E.
    apply Hne. f_equal. lia.
  - rewrite list_lookup_alter_ne by lia. done.
Qed.

Lemma image_wf_setPixelColor (x y : Z) (c : QColor) :
  image_wf w h (setPixelColor img x y c).
Proof.
  unfold setPixelColor. destruct (_ && _); [| done].
  destruct Himg as [Hlen Hrows]. split.
  - by rewrite length_alter.
  - apply Forall_alter; [done |]. intros row _. by rewrite length_insert.
Qed.

End image.

(** ** The canvas *)

Lemma update_display_ok self :
  width_px self <> 0 ->
  exists p, update_display self = Ok (set_pixmap p self).
Proof.
  intros Hw. unfold update_display, int_truediv.
  destruct (Z.eqb_spec (width_px self) 0); [done |]. cbn. eauto.
Qed.

Lemma paint_in_range self x y c :
  0 <= x < width_px self -> 0 <= y < height_px self ->
  exists p,
    paint x y c self
    = Ok (set_pixmap p (set_image (setPixelColor (image self) x y c) self)).
Proof.
  intros Hx Hy. unfold paint.
  rewrite (proj2 (Z.leb_le 0 x)), (proj2 (Z.leb_le 0 y)) by lia.
  rewrite (proj2 (Z.ltb_lt x _)), (proj2 (Z.ltb_lt y _)) by lia.
  cbn [andb]. apply update_display_ok. cbn. lia.
Qed.


Lemma paint_wf self x y c self' :
  canvas_wf self -> paint x y c self = Ok self' -> canvas_wf self'.
Proof.
  intros (Hw & Hh & Himg). unfold paint.
  destruct (_ && _); [| by intros [= <-]].
  match goal with |- update_display ?s = _ -> _ =>
    destruct (update_display_ok s) as [p ->]; [cbn; lia |] end.
  intros [= <-]. split; [| split]; cbn; try lia.
  by apply image_wf_setPixelColor.
Qed.

Lemma mapPointerToCell_quot self pos :
  0 < width self -> 0 < height self ->
  Z.abs (qx pos * width_px self) < 2 ^ 53 ->
  Z.abs (qy pos * height_px self) < 2 ^ 53 ->
  mapPointerToCell self pos
  = Ok ((qx pos * width_px self) ÷ width self,
        (qy pos * height_px self) ÷ height self).
Proof.
  intros HW HH Hx Hy. unfold mapPointerToCell, int_truediv.
  destruct (Z.eqb_spec (width self) 0); [lia |].
  destruct (Z.eqb_spec (height self) 0); [lia |].
  cbn. by rewrite !int_of_round_ratio.
Qed.

(** C2, as amended: inside the display surface, and with products below
    [2 ^ 53], where the float quotient that [int()] truncates is exact,
    [mapPointerToCell] returns the floor of [px * width_px / displayWidth]
    and of [py * height_px / displayHeight]; the last display column
    [px = displayWidth - 1] maps to the last cell column [width_px - 1]
    whenever the display is at least as wide as the canvas has cells. *)
Theorem mapPointerToCell_floor self pos :
  0 < width_px self -> 0 < height_px self ->
  0 <= qx pos < width self -> 0 <= qy pos < height self ->
  qx pos * width_px self < 2 ^ 53 -> qy pos * height_px self < 2 ^ 53 ->
  mapPointerToCell self pos
  = Ok (qx pos * width_px self / width self,
        qy pos * height_px self / height self)
  /\ (width_px self <= width self -> qx pos = width self - 1 ->
      qx pos * width_px self / width self = width_px self - 1).
Proof.
  intros Hw Hh Hx Hy Hbx Hby. split.
  - rewrite mapPointerToCell_quot by nia.
    by rewrite !Z.quot_div_nonneg by nia.
  - intros Hle ->. symmetry.
    apply Z.div_unique with (r := width self - width_px self); nia.
Qed.

Lemma mapPointerToCell_floor_witness :
  mapPointerToCell canvas_60_600 {| qx := 599; qy := 17 |} = Ok (59, 1).
Proof.
  pose proof (mapPointerToCell_floor canvas_60_600 {| qx := 599; qy := 17 |})
    as H.
  cbn in H. apply H; lia.
Defined.

(** C2 as stated fails twice: on a display narrower than the canvas has
    cells the last display column does not reach the last cell column, and
    for products past [2 ^ 53] the rounded float quotient is an integer the
    exact quotient stays below. *)
Lemma mapPointerToCell_counterexample :
  (0 <= 29 < width canvas_60_30 /\ 29 = width canvas_60_30 - 1 /\
   mapPointerToCell canvas_60_30 {| qx := 29; qy := 0 |} = Ok (58, 0) /\
   58 <> width_px canvas_60_30 - 1)
  /\
  (0 <= 2 ^ 30 < width canvas_int_max /\
   mapPointerToCell canvas_int_max {| qx := 2 ^ 30; qy := 0 |}
   = Ok (1073741823, 0) /\
   2 ^ 30 * width_px canvas_int_max / width canvas_int_max = 1073741822).
Proof. vm_compute. repeat split; congruence. Qed.

Lemma QImage_filled_wf w h c : 0 < w -> 0 < h -> image_wf w h (QImage_filled w h c).
Proof.
  intros Hw Hh. unfold QImage_filled.
  rewrite (proj2 (Z.ltb_lt 0 w)), (proj2 (Z.ltb_lt 0 h)) by lia. cbn. split.
  - by rewrite length_replicate.
  - apply Forall_replicate. by rewrite length_replicate.
Qed.

Lemma canvas_60_600_wf : canvas_wf canvas_60_600.
Proof.
  split; [cbn; lia | split; [cbn; lia | apply (QImage_filled_wf 60 60); lia]].
Qed.

Lemma canvas_4_wf : canvas_wf canvas_4.
Proof.
  split; [cbn; lia | split; [cbn; lia | apply (QImage_filled_wf 4 4); lia]].
Qed.

(** C6: on a canvas of the shape [__init__] builds, painting the colour [c]
    at a coordinate inside the grid returns normally, and reading that cell
    afterwards gives [c]. *)
Theorem paint_then_read self x y c :
  canvas_wf self ->
  0 <= x < width_px self -> 0 <= y < height_px self ->
  exists self',
    paint x y c self = Ok self' /\ pixelColor (image self') x y = Some c.
Proof.
  intros (Hw & Hh & Himg) Hx Hy.
  destruct (paint_in_range self x y c Hx Hy) as [p ->].
  eexists. split; [done |]. cbn.
  by apply (pixelColor_setPixelColor (width_px self) (height_px self)).
Qed.

Lemma paint_then_read_witness :
  exists self',
    paint 3 2 0x00ff00 canvas_4 = Ok self' /\
    pixelColor (image self') 3 2 = Some 0x00ff00.
Proof.
  apply (paint_then_read canvas_4 3 2 0x00ff00);
    [exact canvas_4_wf | cbn; lia | cbn; lia].
Defined.

(** Painting touches no other cell. *)
Lemma paint_other_cells self x y c self' x' y' :
  paint x y c self = Ok self' ->
  0 <= x' -> 0 <= y' -> (x', y') <> (x, y) ->
  pixelColor (image self') x' y' = pixelColor (image self) x' y'.
Proof.
  unfold paint. destruct (_ && _) eqn:Hin; [| by intros [= <-]].
  assert (width_px self <> 0).
  { repeat (apply andb_true_iff in Hin as [Hin ?]). lia. }
  match goal with |- update_display ?s = _ -> _ =>
    destruct (update_display_ok s) as [p ->]; [done |] end.
  intros [= <-] ? ? ?. cbn. by apply pixelColor_setPixelColor_other.
Qed.

(** C7: painting at a coordinate outside the grid raises nothing and
    returns the canvas as it was, every cell included. *)
Theorem paint_out_of_range self x y c :
  ~ (0 <= x < width_px self /\ 0 <= y < height_px self) ->
  paint x y c self = Ok self.
Proof.
  intros Hout. unfold paint.
  destruct (_ && _) eqn:Hin; [| done].
  exfalso. apply Hout.
  repeat (apply andb_true_iff in Hin as [Hin ?]). lia.
Qed.

Lemma paint_out_of_range_witness : paint 5 5 0xff0000 canvas_4 = Ok canvas_4.
Proof. apply paint_out_of_range. cbn. lia. Defined.

(** C8: [erase] is [paint] with white, at every coordinate and on every
    canvas, in range or not; and so [reset_pixel] is the pointer mapping
    followed by painting white. *)
Theorem erase_is_paint_white self x y pos :
  erase x y self = paint x y white self
  /\ reset_pixel pos self
     = ('(x, y) ← mapPointerToCell self pos; paint x y white self).
Proof. split; reflexivity. Qed.

(** C10: a pointer just left of the display surface, [- displayWidth /
    width_px < px < 0], with [py] inside it, is not ignored: [int()]
    truncates the negative quotient to column 0, the guard on the cell
    passes, and [paint_pixel] writes the brush colour to cell [(0, y)]. *)
Theorem paint_pixel_left_of_display self pos :
  canvas_wf self ->
  0 < width self < 2 ^ 53 -> 0 < height self ->
  qx pos < 0 -> - width self < qx pos * width_px self ->
  0 <= qy pos < height self -> qy pos * height_px self < 2 ^ 53 ->
  let y := qy pos * height_px self / height self in
  mapPointerToCell self pos = Ok (0, y) /\
  exists self',
    paint_pixel pos self = Ok self' /\
    image self' = setPixelColor (image self) 0 y (brush_color self) /\
    pixelColor (image self') 0 y = Some (brush_color self).
Proof.
  intros Hwf HW HH Hneg Hnear Hy Hby y.
  pose proof Hwf as (Hw & Hh & Himg).
  assert (Hmap : mapPointerToCell self pos = Ok (0, y)).
  { rewrite mapPointerToCell_quot by nia. f_equal. f_equal.
    - replace (qx pos * width_px self) with (- - (qx pos * width_px self))
        by ring.
      rewrite Z.quot_opp_l, Z.quot_small by nia. done.
    - apply Z.quot_div_nonneg; nia. }
  split; [done |].
  assert (Hy' : 0 <= y < height_px self).
  { subst y. split; [apply Z.div_pos; nia |].
    apply Z.div_lt_upper_bound; nia. }
  unfold paint_pixel. rewrite Hmap. cbn.
  destruct (paint_in_range self 0 y (brush_color self)) as [p ->];
    [lia | done |].
  eexists. split; [done |]. cbn. split; [done |].
  apply (pixelColor_setPixelColor (width_px self) (height_px self)); auto; lia.
Qed.

Lemma paint_pixel_left_of_display_witness :
  mapPointerToCell canvas_60_600 {| qx := -1; qy := 300 |} = Ok (0, 30) /\
  exists self',
    paint_pixel {| qx := -1; qy := 300 |} canvas_60_600 = Ok self' /\
    image self' = setPixelColor (image canvas_60_600) 0 30 0xff69b4 /\
    pixelColor (image self') 0 30 = Some 0xff69b4.
Proof.
  apply (paint_pixel_left_of_display canvas_60_600 {| qx := -1; qy := 300 |});
    [exact canvas_60_600_wf | cbn; lia ..].
Defined.

(** ** Rasterizing *)

Lemma range_lookup n i : 0 <= i < n -> range n !! Z.to_nat i = Some i.
Proof.
  intros Hi. unfold range.
  rewrite list_lookup_fmap, lookup_seq_lt by lia. cbn. f_equal. lia.
Qed.

Lemma pixelColor_scaled img w h X Y :
  0 < img_width img -> 0 <= X < w -> 0 <= Y < h ->
  pixelColor (QImage_scaled img w h) X Y
  = Some (default white (pixelColor img (X * img_width img / w)
                                        (Y * img_height img / h))).
Proof.
  intros Hi HX HY. unfold QImage_scaled.
  rewrite (proj2 (Z.ltb_lt 0 w)), (proj2 (Z.ltb_lt 0 h)) by lia.
  rewrite (proj2 (Z.ltb_lt 0 _) Hi). cbn [andb].
  unfold pixelColor at 1.
  rewrite (proj2 (Z.leb_le 0 X)), (proj2 (Z.leb_le 0 Y)) by lia. cbn [andb].
  rewrite list_lookup_fmap, range_lookup by lia. cbn.
  by rewrite list_lookup_fmap, range_lookup by lia.
Qed.

Lemma block_index X x k n :
  0 < k -> 0 < n -> x * k <= X < (x + 1) * k -> X * n / (k * n) = x.
Proof.
  intros Hk Hn HX. rewrite Z.div_mul_cancel_r by lia.
  symmetry. apply Z.div_unique with (r := X - k * x); lia.
Qed.

(** C5: for a target size that is a positive multiple of both [width_px]
    and [height_px], every pixel of [rasterize] inside the block of cell
    [(x, y)] has exactly the colour of that cell; and neither [save_image]
    nor [update_display], the two callers, changes the image of the
    canvas. *)
Theorem rasterize_block self size x y X Y :
  canvas_wf self ->
  0 < size -> (width_px self | size) -> (height_px self | size) ->
  0 <= x < width_px self -> 0 <= y < height_px self ->
  x * (size / width_px self) <= X < (x + 1) * (size / width_px self) ->
  y * (size / height_px self) <= Y < (y + 1) * (size / height_px self) ->
  (exists c, pixelColor (image self) x y = Some c /\
             pixelColor (rasterize self size) X Y = Some c)
  /\ (forall filename fs, fst (snd (save_image filename self fs)) = self)
  /\ (forall self', update_display self = Ok self' ->
                    image self' = image self).
Proof.
  intros (Hw & Hh & Himg) Hsize [k Hk] [k' Hk'] Hx Hy HX HY.
  split; [| split].
  - assert (img_width (image self) = width_px self /\
            img_height (image self) = height_px self) as [Ewidth Eheight]
      by (apply (image_wf_sizes (width_px self) (height_px self)); auto).
    rewrite Hk, Z.div_mul in HX by lia.
    rewrite Hk', Z.div_mul in HY by lia.
    assert (0 < k) by nia. assert (0 < k') by nia.
    assert (is_Some (pixelColor (image self) x y)) as [c Hc]
      by (apply (pixelColor_in_range (width_px self) (height_px self));
          auto).
    exists c. split; [done |].
    unfold rasterize. rewrite pixelColor_scaled by nia.
    rewrite Ewidth, Eheight.
    replace (X * width_px self / size) with x
      by (rewrite Hk; symmetry; apply block_index; lia).
    replace (Y * height_px self / size) with y
      by (rewrite Hk'; symmetry; apply block_index; lia).
    by rewrite Hc.
  - intros filename fs. unfold save_image.
    destruct filename; [done |]. by destruct (QImage_save _ _ _).
  - intros self'. unfold update_display.
    destruct (int_truediv _ _); [| done]. cbn. by intros [= <-].
Qed.

Lemma rasterize_block_witness :
  (exists c, pixelColor (image canvas_60_600) 59 0 = Some c /\
             pixelColor (rasterize canvas_60_600 1080) 1062 17 = Some c)
  /\ (forall filename fs, fst (snd (save_image filename canvas_60_600 fs))
                          = canvas_60_600)
  /\ (forall self', update_display canvas_60_600 = Ok self' ->
                    image self' = image canvas_60_600).
Proof.
  apply (rasterize_block canvas_60_600 1080 59 0 1062 17);
    [exact canvas_60_600_wf | lia | by exists 18 | by exists 18
    | unfold canvas_60_600; cbn [width_px height_px];
      change (1080 / 60) with 18; lia ..].
Defined.

(** The spec's scenario: a 4 by 4 canvas with cell [(0, 0)] painted red,
    rasterized at 8: the four pixels of that block are red and all the
    others white. *)
Example rasterize_scenario :
  exists self',
    paint 0 0 0xff0000 canvas_4 = Ok self' /\
    rasterize self' 8
    = [ [0xff0000; 0xff0000; white; white; white; white; white; white];
        [0xff0000; 0xff0000; white; white; white; white; white; white];
        replicate 8 white; replicate 8 white; replicate 8 white;
        replicate 8 white; replicate 8 white; replicate 8 white ].
Proof. eexists. split; vm_compute; reflexivity. Qed.

(** ** Strings through [json]: written, then read back *)

Section json_strings.

Import Json.
Local Open Scope N_scope.

Lemma hex_value_digit k : k < 16 -> hex_value (hex_digit k) = Some k.
Proof.
  intros Hk. unfold hex_digit, hex_value.
  destruct (N.ltb_spec k 10).
  - rewrite (proj2 (N.leb_le 48 (48 + k))) by lia.
    rewrite (proj2 (N.leb_le (48 + k) 57)) by lia. cbn. f_equal. lia.
  - rewrite (proj2 (N.leb_gt (87 + k) 57)) by lia.
    rewrite andb_false_r.
    rewrite (proj2 (N.leb_le 97 (87 + k))) by lia.
    rewrite (proj2 (N.leb_le (87 + k) 102)) by lia. cbn. f_equal. lia.
Qed.

Lemma decode_hex4 n a b c d :
  n < 0x10000 -> hex4 n = [a; b; c; d] -> decode_uXXXX a b c d = Some n.
Proof.
  intros Hn [= <- <- <- <-]. unfold decode_uXXXX.
  rewrite !hex_value_digit by (apply N.mod_lt; lia). cbn. f_equal.
  zify. Z.to_euclidean_division_equations. lia.
Qed.

Lemma lor_shifted h m : m < 2 ^ 10 -> N.lor (N.shiftl h 10) m = h * 2 ^ 10 + m.
Proof.
  intros Hm. rewrite N.shiftl_mul_pow2.
  assert (Hland : N.land (h * 2 ^ 10) m = 0).
  { apply N.bits_inj. intros i. rewrite N.land_spec, N.bits_0.
    destruct (N.lt_ge_cases i 10) as [Hi | Hi].
    - by rewrite N.mul_pow2_bits_low.
    - destruct (N.eq_dec m 0) as [-> | Hne];
        [by rewrite N.bits_0, andb_false_r |].
      rewrite (N.bits_above_log2 m i), andb_false_r; [done |].
      apply N.log2_lt_pow2 in Hm; lia. }
  by rewrite N.add_nocarry_lxor, N.lxor_lor.
Qed.

(** The surrogate pair [encode_char] writes for a character outside the
    basic plane, and what [scanstring] makes of it. *)
Lemma surrogate_pair c :
  0x10000 <= c < 0x110000 ->
  let n := c - 0x10000 in
  let s1 := N.lor 0xd800 (N.land (N.shiftr n 10) 0x3ff) in
  let s2 := N.lor 0xdc00 (N.land n 0x3ff) in
  is_high s1 = true /\ is_low s2 = true /\
  0x10000 + N.lor (N.shiftl (s1 - 0xd800) 10) (s2 - 0xdc00) = c.
Proof.
  intros Hc n s1 s2.
  assert (Hn : n < 2 ^ 20) by (subst n; change (2 ^ 20) with 0x100000; lia).
  assert (Hhi : N.land (N.shiftr n 10) 0x3ff = n / 2 ^ 10).
  { change 0x3ff with (N.ones 10).
    rewrite N.land_ones, N.shiftr_div_pow2. apply N.mod_small.
    apply N.Div0.div_lt_upper_bound. by rewrite <- N.pow_add_r. }
  assert (Hlo : N.land n 0x3ff = n mod 2 ^ 10).
  { change 0x3ff with (N.ones 10). apply N.land_ones. }
  assert (Hhi' : n / 2 ^ 10 < 2 ^ 10).
  { apply N.Div0.div_lt_upper_bound. by rewrite <- N.pow_add_r. }
  assert (Hlo' : n mod 2 ^ 10 < 2 ^ 10) by (apply N.mod_lt; lia).
  assert (E1 : s1 = 0xd800 + n / 2 ^ 10).
  { subst s1. rewrite Hhi. change 0xd800 with (N.shiftl 54 10) at 1.
    by rewrite lor_shifted. }
  assert (E2 : s2 = 0xdc00 + n mod 2 ^ 10).
  { subst s2. rewrite Hlo. change 0xdc00 with (N.shiftl 55 10) at 1.
    by rewrite lor_shifted. }
  change (2 ^ 10) with 1024 in *.
  split; [| split].
  - unfold is_high. apply andb_true_iff.
    split; apply N.leb_le; lia.
  - unfold is_low. apply andb_true_iff.
    split; apply N.leb_le; lia.
  - rewrite E1, E2.
    replace (0xd800 + n / 1024 - 0xd800) with (n / 1024) by lia.
    replace (0xdc00 + n mod 1024 - 0xdc00) with (n mod 1024) by lia.
    rewrite lor_shifted by (change (2 ^ 10) with 1024; lia).
    change (2 ^ 10) with 1024.
    pose proof (N.div_mod n 1024 ltac:(lia)). lia.
Qed.

(** The shapes [encode_char] gives a character. *)
Lemma encode_char_cases c :
  c < 0x110000 ->
  (exists e, encode_char c = [92; e] /\ backslash e = Some c /\ e <> 117)
  \/ (encode_char c = [c] /\ 32 <= c /\ c <> 34 /\ c <> 92)
  \/ (encode_char c = 92 :: 117 :: hex4 c /\ c < 0x10000)
  \/ (exists s1 s2,
        encode_char c = (92 :: 117 :: hex4 s1) ++ (92 :: 117 :: hex4 s2) /\
        is_high s1 = true /\ is_low s2 = true /\
        0x10000 + N.lor (N.shiftl (s1 - 0xd800) 10) (s2 - 0xdc00) = c).
Proof.
  intros Hc. unfold encode_char.
  repeat (match goal with
          | |- context [if ?x =? ?k then _ else _] =>
              destruct (N.eqb_spec x k) as [-> | ?];
              [left; eexists; split; [reflexivity | done] |]
          end).
  destruct (_ && _) eqn:Hp.
  - right. left. apply andb_true_iff in Hp as [H1 H2].
    apply N.leb_le in H1. done.
  - destruct (N.ltb_spec c 0x10000).
    + right. right. left. done.
    + right. right. right. eexists _, _. split; [reflexivity |].
      apply surrogate_pair. lia.
Qed.

Lemma backslash_not_quote e ch :
  backslash e = Some ch -> e <> 117 ->
  forall R, scanstring (92 :: e :: R) = add_char ch (scanstring R).
Proof.
  intros He Hu R. cbn [scanstring]. change (92 =? 34) with false.
  change (92 =? 92) with true. cbv iota.
  destruct (N.eqb_spec e 117); [done |]. by rewrite He.
Qed.

Lemma scanstring_plain c R :
  32 <= c -> c <> 34 -> c <> 92 ->
  scanstring (c :: R) = add_char c (scanstring R).
Proof.
  intros H32 H34 H92. cbn [scanstring].
  destruct (N.eqb_spec c 34); [done |].
  destruct (N.eqb_spec c 92); [done |].
  by rewrite (proj2 (N.ltb_ge c 32)).
Qed.

(** An escape that is not the first half of a pair is one character. *)
Lemma scanstring_escape a b c d uni R :
  decode_uXXXX a b c d = Some uni ->
  (is_high uni = true ->
   forall a2 b2 c2 d2 r3,
     R = 92 :: 117 :: a2 :: b2 :: c2 :: d2 :: r3 ->
     exists uni2, decode_uXXXX a2 b2 c2 d2 = Some uni2 /\
                  is_low uni2 = false) ->
  scanstring (92 :: 117 :: a :: b :: c :: d :: R)
  = add_char uni (scanstring R).
Proof.
  intros Hdec Hnext. cbn [scanstring]. change (92 =? 34) with false.
  change (92 =? 92) with true. change (117 =? 117) with true. cbv iota.
  rewrite Hdec.
  destruct R as [| bs [| u [| a2 [| b2 [| c2 [| d2 r3]]]]]]; try done.
  destruct (is_high uni); [| done].
  destruct (bs =? 92) eqn:E1; [apply N.eqb_eq in E1 | done].
  destruct (u =? 117) eqn:E2; [apply N.eqb_eq in E2 | done].
  subst bs u. cbn [andb].
  destruct (Hnext eq_refl a2 b2 c2 d2 r3 eq_refl) as (uni2 & -> & ->).
  done.
Qed.

Lemma scanstring_pair s1 s2 R :
  s1 < 0x10000 -> s2 < 0x10000 ->
  is_high s1 = true -> is_low s2 = true ->
  scanstring ((92 :: 117 :: hex4 s1) ++ (92 :: 117 :: hex4 s2) ++ R)
  = add_char (0x10000 + N.lor (N.shiftl (s1 - 0xd800) 10) (s2 - 0xdc00))
             (scanstring R).
Proof.
  intros H1 H2 Hhigh Hlow.
  pose proof (decode_hex4 s1 _ _ _ _ H1 eq_refl) as D1.
  pose proof (decode_hex4 s2 _ _ _ _ H2 eq_refl) as D2.
  unfold hex4 in *. cbn [app scanstring].
  change (92 =? 34) with false.
  change (92 =? 92) with true. change (117 =? 117) with true. cbv iota.
  rewrite D1, Hhigh. cbn [andb]. by rewrite D2, Hlow.
Qed.

Lemma is_high_bound u : is_high u = true -> u < 0x10000.
Proof.
  unfold is_high. intros [_ H]%andb_true_iff. apply N.leb_le in H. lia.
Qed.

Lemma is_low_bound u : is_low u = true -> u < 0x10000.
Proof.
  unfold is_low. intros [_ H]%andb_true_iff. apply N.leb_le in H. lia.
Qed.

Lemma is_high_not_low u : is_high u = true -> is_low u = false.
Proof.
  unfold is_high, is_low. intros [_ H]%andb_true_iff. apply N.leb_le in H.
  apply andb_false_iff. left. apply N.leb_gt. lia.
Qed.

(** After a written string, an escape that could pair up with a high
    surrogate before it is the escape of the next character itself, or
    the first half of that character's own pair. *)
Lemma escape_after s tail a2 b2 c2 d2 r3 :
  text_ok s = true ->
  (s ≫= encode_char) ++ 34 :: tail = 92 :: 117 :: a2 :: b2 :: c2 :: d2 :: r3 ->
  exists uni2,
    decode_uXXXX a2 b2 c2 d2 = Some uni2 /\
    (is_low uni2 = true -> exists c s', s = c :: s' /\ is_low c = true).
Proof.
  destruct s as [| c s']; [done |].
  cbn [text_ok]. intros [[Hc _]%andb_true_iff _]%andb_true_iff.
  apply N.ltb_lt in Hc. rewrite bind_cons.
  destruct (encode_char_cases c Hc)
    as [(e & -> & _ & He)
       | [(-> & _ & _ & H92)
         | [(-> & Hc16) | (s1 & s2 & -> & Hs1 & Hs2 & _)]]].
  - cbn [app]. intros [= E _]. done.
  - cbn [app]. intros [= E _]. done.
  - pose proof (decode_hex4 c _ _ _ _ Hc16 eq_refl) as D.
    unfold hex4 in *. cbn [app]. intros [= <- <- <- <- _].
    exists c. split; [done |]. eauto.
  - pose proof (decode_hex4 s1 _ _ _ _ (is_high_bound _ Hs1) eq_refl) as D.
    unfold hex4 in *. cbn [app]. intros [= <- <- <- <- _].
    exists s1. split; [done |].
    by rewrite (is_high_not_low _ Hs1).
Qed.

(** What [encode_basestring_ascii] writes between the quotes,
    [scanstring] reads back as the string it was. *)
Lemma scanstring_encode s tail :
  text_ok s = true ->
  scanstring ((s ≫= encode_char) ++ 34 :: tail) = Some (s, tail).
Proof.
  induction s as [| c s IH]; [done |].
  intros Hok. pose proof Hok as Hok'. cbn [text_ok] in Hok.
  apply andb_true_iff in Hok as [[Hc Hpair]%andb_true_iff Hs].
  apply N.ltb_lt in Hc. apply negb_true_iff in Hpair.
  specialize (IH Hs). rewrite bind_cons, <- app_assoc.
  destruct (encode_char_cases c Hc)
    as [(e & -> & Hb & He)
       | [(-> & H32 & H34 & H92)
         | [(-> & Hc16) | (s1 & s2 & -> & Hs1 & Hs2 & <-)]]].
  - cbn [app]. by rewrite (backslash_not_quote e c), IH.
  - cbn [app]. by rewrite scanstring_plain, IH.
  - pose proof (decode_hex4 c _ _ _ _ Hc16 eq_refl) as D.
    unfold hex4 in *. cbn [app].
    rewrite (scanstring_escape _ _ _ _ c), IH; [done | done |].
    intros Hhigh a2 b2 c2 d2 r3 HR.
    destruct (escape_after s tail a2 b2 c2 d2 r3 Hs HR) as (uni2 & D2 & Hlow).
    exists uni2. split; [done |].
    destruct (is_low uni2) eqn:E; [| done].
    destruct (Hlow eq_refl) as (c' & s' & -> & Hc').
    by rewrite Hhigh, Hc' in Hpair.
  - rewrite <- app_assoc.
    rewrite scanstring_pair, IH;
      auto using is_high_bound, is_low_bound.
Qed.

End json_strings.

(** ** A theme through [json]: written, then read back *)

Section json_theme.

Import Json.
Local Open Scope N_scope.

Variable float_repr : pystr -> pystr.

Local Abbreviation member :=
  (fun kv : pystr * value =>
     encode_basestring_ascii kv.1 ++ 58 :: 32 :: dumps float_repr kv.2).

Local Abbreviation items_ok :=
  (Forall (fun kv : pystr * value =>
             text_ok kv.1 = true /\
             exists s, kv.2 = JStr s /\ text_ok s = true)).

Lemma dumps_dict d :
  dumps float_repr (JDict d) = 123 :: join (member <$> d) ++ [125].
Proof. reflexivity. Qed.

Lemma join_cons_cons p q rest :
  join (p :: q :: rest) = p ++ 44 :: 32 :: join (q :: rest).
Proof. reflexivity. Qed.

Lemma join_cons p rest :
  rest <> [] -> join (p :: rest) = p ++ 44 :: 32 :: join rest.
Proof. by destruct rest. Qed.

Lemma members_head d :
  d <> [] -> exists r, join (member <$> d) = 34 :: r.
Proof.
  destruct d as [| kv [| kv' d]]; [done | |]; intros _.
  - cbn. eauto.
  - rewrite !fmap_cons, join_cons_cons. cbn. eauto.
Qed.

Lemma members_length d : (length d <= length (join (member <$> d)))%nat.
Proof.
  induction d as [| kv [| kv' d] IH]; [cbn; lia | cbn; lia |].
  rewrite !fmap_cons. rewrite fmap_cons in IH.
  rewrite join_cons_cons, length_app.
  cbn [length] in *. lia.
Qed.

Lemma dict_set_fresh k v (d : list (pystr * value)) :
  k ∉ d.*1 -> dict_set k v d = d ++ [(k, v)].
Proof.
  induction d as [| [k' v'] d IH]; [done |].
  cbn. intros Hk. apply not_elem_of_cons in Hk as [Hne Hk].
  rewrite bool_decide_eq_false_2 by done. by rewrite IH.
Qed.

Lemma dict_of_pairs (acc d : list (pystr * value)) :
  NoDup (acc ++ d).*1 ->
  foldl (fun a kv => dict_set kv.1 kv.2 a) acc d = acc ++ d.
Proof.
  revert acc. induction d as [| [k v] d IH]; intros acc Hnd.
  - by rewrite app_nil_r.
  - cbn [foldl fst snd]. rewrite dict_set_fresh.
    + rewrite IH; rewrite <- app_assoc; done.
    + rewrite fmap_app, fmap_cons in Hnd.
      apply list.NoDup_app in Hnd as (_ & Hdisj & _).
      intros Hin. apply (Hdisj k Hin). cbn. left.
Qed.

(** The loop of [JSONObject] over the members [dumps] wrote. *)
Lemma object_items_members d :
  forall acc fuel r tail,
    d <> [] -> items_ok d -> (length d < fuel)%nat ->
    34 :: r = join (member <$> d) ++ 125 :: tail ->
    object_items fuel acc r
    = Found (JDict (foldl (fun a kv => dict_set kv.1 kv.2 a) acc d)) tail.
Proof.
  induction d as [| [k v] d IH]; [done |].
  intros acc fuel r tail _ Hok Hfuel Hr.
  apply Forall_cons_1 in Hok as [(Hk & s & Hv & Hs) Hok].
  cbn [fst snd] in Hk, Hv. subst v.
  destruct fuel as [| [| fuel]]; [cbn in Hfuel; lia .. |].
  cbn [length] in Hfuel.
  assert (Hstep : forall T,
    34 :: r = member (k, JStr s) ++ T ->
    object_items (S (S fuel)) acc r
    = match skip_ws T with
      | c :: r3 =>
          if c =? 125 then Found (JDict (dict_set k (JStr s) acc)) r3
          else if c =? 44 then
            match skip_ws r3 with
            | q :: r4 =>
                if q =? 34
                then object_items (S fuel) (dict_set k (JStr s) acc) r4
                else Invalid JSONDecodeError
            | [] => Invalid JSONDecodeError
            end
          else Invalid JSONDecodeError
      | [] => Invalid JSONDecodeError
      end).
  { intros T. cbn [fst snd dumps]. unfold encode_basestring_ascii.
    cbn [app]. rewrite <- !app_assoc. cbn [app]. intros [= ->].
    cbn [object_items]. rewrite scanstring_encode by done.
    cbn [skip_ws is_ws N.eqb Pos.eqb orb]. cbn [scan_once].
    change (34 =? 34) with true. cbv iota.
    rewrite <- app_assoc. cbn [app].
    by rewrite scanstring_encode by done. }
  destruct d as [| kv' d].
  - rewrite (Hstep (125 :: tail)) by done. done.
  - rewrite fmap_cons, join_cons, <- app_assoc in Hr by done.
    destruct (members_head (kv' :: d)) as [r' Hr']; [done |].
    rewrite (Hstep _ Hr). cbn [app]. rewrite Hr'.
    cbn [app skip_ws is_ws N.eqb Pos.eqb orb].
    apply IH; [done | done | lia |]. by rewrite Hr'.
Qed.

(** [json.loads(json.dumps(d))] is [d], for a theme [d]. *)
Lemma loads_dumps_theme d :
  theme_ok d -> loads (dumps float_repr (JDict d)) = Ok (JDict d).
Proof.
  intros [Hnd Hok]. destruct d as [| kv d]; [done |].
  rewrite dumps_dict.
  destruct (members_head (kv :: d)) as [r Hr]; [done |].
  pose proof (members_length (kv :: d)) as Hlen.
  rewrite Hr in *. unfold loads.
  cbn [app skip_ws is_ws N.eqb Pos.eqb orb].
  cbn [scan_once]. change (123 =? 34) with false.
  change (123 =? 123) with true. cbv iota.
  cbn [skip_ws is_ws N.eqb Pos.eqb orb].
  change (34 =? 125) with false. change (34 =? 34) with true. cbv iota.
  rewrite (object_items_members (kv :: d) [] _ (r ++ [125]) []);
    try done.
  - by rewrite dict_of_pairs.
  - cbn [length] in *. rewrite length_app. cbn [length]. lia.
  - by rewrite Hr.
Qed.

End json_theme.

(** ** The decoder never runs out of fuel *)

Section json_total.

Import Json.

Lemma skip_ws_length s : (length (skip_ws s) <= length s)%nat.
Proof.
  induction s as [| c s IH]; [done |].
  cbn [skip_ws]. destruct (is_ws c); cbn [length]; lia.
Qed.

Lemma add_char_Some c o str r :
  add_char c o = Some (str, r) -> exists str', o = Some (str', r).
Proof.
  destruct o as [[str' r'] |]; [| done]. cbn. intros [= _ ->]. eauto.
Qed.

Lemma scanstring_length s :
  forall str r, scanstring s = Some (str, r) -> (length r < length s)%nat.
Proof.
  remember (length s) as n eqn:Hn. revert s Hn.
  induction n as [n IH] using lt_wf_ind. intros s -> str r H.
  assert (Hrec : forall c (s' : pystr) str',
            (length s' < length s)%nat ->
            add_char c (scanstring s') = Some (str', r) ->
            (length r < length s)%nat).
  { intros c s' str' Hlen Hadd.
    apply add_char_Some in Hadd as [str'' Hs'].
    specialize (IH _ Hlen s' eq_refl _ _ Hs'). lia. }
  destruct s as [| c rest]; [done |]. cbn [scanstring] in H.
  repeat case_match; try done;
    try (injection H as <- <-; cbn [length]; lia);
    (eapply Hrec; [| exact H]); subst; cbn [length]; lia.
Qed.

Lemma digits_length s : (length (digits s).2 <= length s)%nat.
Proof.
  induction s as [| c s IH]; [done |]. cbn [digits].
  destruct (is_digit c); [| done].
  destruct (digits s) as [ds r]. cbn [snd length] in *. lia.
Qed.

Lemma after_length lit s r :
  after lit s = Some r -> (length r + length lit = length s)%nat.
Proof.
  revert s. induction lit as [| c lit IH]; intros s; cbn [after].
  - intros [= ->]. cbn. lia.
  - destruct s as [| c' s]; [done |].
    destruct (c =? c')%N; [| done]. intros H%IH. cbn [length]. lia.
Qed.

Lemma match_integer_length s neg ds r :
  match_integer s = Some (neg, ds, r) -> (length r < length s)%nat.
Proof.
  unfold match_integer. intros H.
  repeat case_match; simplify_eq; cbn [length];
    repeat match goal with
           | H : digits ?x = _ |- _ =>
               pose proof (digits_length x); rewrite H in *; clear H
           end; cbn [snd length] in *; lia.
Qed.

Lemma match_frac_length s : (length (match_frac s).2 <= length s)%nat.
Proof.
  unfold match_frac.
  repeat case_match; simplify_eq; cbn [snd length]; try lia;
    repeat match goal with
           | H : digits ?x = _ |- _ =>
               pose proof (digits_length x); rewrite H in *; clear H
           end; cbn [snd length] in *; lia.
Qed.

Lemma match_exp_length s : (length (match_exp s).2 <= length s)%nat.
Proof.
  unfold match_exp.
  repeat case_match; simplify_eq; cbn [snd length]; try lia;
    repeat match goal with
           | H : digits ?x = _ |- _ =>
               pose proof (digits_length x); rewrite H in *; clear H
           end; cbn [snd length] in *; lia.
Qed.

Lemma scan_number_length s res :
  scan_number s = Some res ->
  res <> Exhausted /\
  forall v r, res = Found v r -> (length r < length s)%nat.
Proof.
  unfold scan_number. intros H.
  destruct (match_integer s) as [[[neg ds] r1] |] eqn:Hint; [| done].
  apply match_integer_length in Hint.
  pose proof (match_frac_length r1) as Hfrac.
  destruct (match_frac r1) as [frac r2].
  pose proof (match_exp_length r2) as Hexp.
  destruct (match_exp r2) as [exp r3]. cbn [snd] in *.
  repeat case_match; simplify_eq; (split; [done |]);
    intros v r [= _ <-]; lia.
Qed.

Lemma after_shorter lit s r :
  lit <> [] -> after lit s = Some r -> (length r < length s)%nat.
Proof.
  intros Hlit H%after_length. destruct lit; [done |]. cbn [length] in H. lia.
Qed.

Ltac skipped :=
  repeat match goal with
         | H : context [length (skip_ws ?x)] |- _ =>
             lazymatch goal with
             | _ : (length (skip_ws x) <= length x)%nat |- _ => fail
             | _ => pose proof (skip_ws_length x)
             end
         end.

Ltac scanned :=
  repeat match goal with
         | H : skip_ws ?x = _ |- _ =>
             let L := fresh "L" in
             pose proof (skip_ws_length x) as L; rewrite H in L; clear H
         | H : scanstring _ = Some _ |- _ => apply scanstring_length in H
         | H : after _ _ = Some _ |- _ =>
             apply after_shorter in H; [| by vm_compute]
         | H : scan_number _ = Some _ |- _ =>
             apply scan_number_length in H as [? ?]
         end;
  cbn [length] in *.

(** Every scanner consumes input when it finds a value, and with fuel
    beyond twice the length of its text none runs out of it. *)
Lemma scan_fuel fuel :
  (forall s,
     (forall v r, scan_once fuel s = Found v r ->
                  (length r < length s)%nat) /\
     ((2 * length s < fuel)%nat -> scan_once fuel s <> Exhausted))
  /\ (forall acc s,
        (forall v r, object_items fuel acc s = Found v r ->
                     (length r < length s)%nat) /\
        ((2 * length s + 1 < fuel)%nat ->
         object_items fuel acc s <> Exhausted))
  /\ (forall acc s,
        (forall v r, array_items fuel acc s = Found v r ->
                     (length r < length s)%nat) /\
        ((2 * length s + 1 < fuel)%nat ->
         array_items fuel acc s <> Exhausted)).
Proof.
  induction fuel as [| fuel (IHscan & IHobject & IHarray)].
  { repeat split; try done; cbn; lia. }
  assert (Hscan : forall s v r, scan_once fuel s = Found v r ->
                                (length r < length s)%nat)
    by (intros s; apply IHscan).
  assert (Hobject : forall acc s v r, object_items fuel acc s = Found v r ->
                                      (length r < length s)%nat)
    by (intros acc s; apply IHobject).
  assert (Harray : forall acc s v r, array_items fuel acc s = Found v r ->
                                     (length r < length s)%nat)
    by (intros acc s; apply IHarray).
  assert (Escan : forall s, scan_once fuel s = Exhausted ->
                            (fuel <= 2 * length s)%nat).
  { intros s H. destruct (IHscan s) as [_ Hne].
    destruct (decide (2 * length s < fuel)%nat); [by apply Hne in H | lia]. }
  assert (Eobject : forall acc s, object_items fuel acc s = Exhausted ->
                                  (fuel <= 2 * length s + 1)%nat).
  { intros acc s H. destruct (IHobject acc s) as [_ Hne].
    destruct (decide (2 * length s + 1 < fuel)%nat);
      [by apply Hne in H | lia]. }
  assert (Earray : forall acc s, array_items fuel acc s = Exhausted ->
                                 (fuel <= 2 * length s + 1)%nat).
  { intros acc s H. destruct (IHarray acc s) as [_ Hne].
    destruct (decide (2 * length s + 1 < fuel)%nat);
      [by apply Hne in H | lia]. }
  clear IHscan IHobject IHarray.
  split; [| split].
  - intros s. cbn [scan_once].
    repeat case_match; scanned; subst; (split; [intros v r Hv | intros Hf Hx]);
      simplify_eq;
      repeat match goal with
             | H : scan_once fuel _ = Found _ _ |- _ => apply Hscan in H
             | H : object_items fuel _ _ = Found _ _ |- _ => apply Hobject in H
             | H : array_items fuel _ _ = Found _ _ |- _ => apply Harray in H
             | H : scan_once fuel _ = Exhausted |- _ => apply Escan in H
             | H : object_items fuel _ _ = Exhausted |- _ => apply Eobject in H
             | H : array_items fuel _ _ = Exhausted |- _ => apply Earray in H
             | H : forall v r, Found _ _ = Found v r -> _ |- _ =>
                 specialize (H _ _ eq_refl)
             end;
      cbn [length] in *; skipped; try done; try lia.
  - intros acc s. cbn [object_items].
    repeat case_match; scanned; subst; (split; [intros v r Hv | intros Hf Hx]);
      simplify_eq;
      repeat match goal with
             | H : scan_once fuel _ = Found _ _ |- _ => apply Hscan in H
             | H : object_items fuel _ _ = Found _ _ |- _ => apply Hobject in H
             | H : scan_once fuel _ = Exhausted |- _ => apply Escan in H
             | H : object_items fuel _ _ = Exhausted |- _ => apply Eobject in H
             end;
      cbn [length] in *; skipped; try done; try lia.
  - intros acc s. cbn [array_items].
    repeat case_match; scanned; subst; (split; [intros v r Hv | intros Hf Hx]);
      simplify_eq;
      repeat match goal with
             | H : scan_once fuel _ = Found _ _ |- _ => apply Hscan in H
             | H : array_items fuel _ _ = Found _ _ |- _ => apply Harray in H
             | H : scan_once fuel _ = Exhausted |- _ => apply Escan in H
             | H : array_items fuel _ _ = Exhausted |- _ => apply Earray in H
             end;
      cbn [length] in *; skipped; try done; try lia.
Qed.

Lemma scan_number_invalid s e :
  scan_number s = Some (Invalid e) -> e = ValueError.
Proof.
  unfold scan_number. intros H. repeat case_match; by simplify_eq.
Qed.

Lemma scan_invalid fuel :
  (forall s e, scan_once fuel s = Invalid e -> e <> RecursionError)
  /\ (forall acc s e, object_items fuel acc s = Invalid e ->
                      e <> RecursionError)
  /\ (forall acc s e, array_items fuel acc s = Invalid e ->
                      e <> RecursionError).
Proof.
  induction fuel as [| fuel (IHscan & IHobject & IHarray)]; [done |].
  split; [| split].
  - intros s e. cbn [scan_once].
    repeat case_match; intros Hi; simplify_eq; try done;
      try (by eapply IHobject); try (by eapply IHarray).
    match goal with
    | H : scan_number _ = Some _ |- _ =>
        by apply scan_number_invalid in H as ->
    end.
  - intros acc s e. cbn [object_items].
    repeat case_match; intros Hi; simplify_eq; try done;
      try (by eapply IHobject); by eapply IHscan.
  - intros acc s e. cbn [array_items].
    repeat case_match; intros Hi; simplify_eq; try done;
      try (by eapply IHarray); by eapply IHscan.
Qed.

(** [loads] raises [RecursionError] on no text: the fuel it gives the
    scanner is enough, so that branch of the model is never taken. *)
Lemma loads_total s : loads s <> Raise RecursionError.
Proof.
  unfold loads.
  assert (H : scan_once (S (2 * length s)) (skip_ws s) <> Exhausted).
  { apply scan_fuel. pose proof (skip_ws_length s). lia. }
  pose proof (proj1 (scan_invalid (S (2 * length s))) (skip_ws s)) as Hv.
  repeat case_match; try done; subst; intros [= ->]; by eapply Hv.
Qed.

End json_total.

(** ** The strings [json] reads are text it writes back unchanged *)

Section json_reads_text.

Import Json.
Local Open Scope N_scope.

Lemma hex_value_bound c v : hex_value c = Some v -> v < 16.
Proof.
  unfold hex_value. repeat case_match; intros [= <-];
    repeat match goal with
           | H : (_ && _) = true |- _ => apply andb_true_iff in H as [? ?]
           | H : (_ <=? _) = true |- _ => apply N.leb_le in H
           end; lia.
Qed.

Lemma decode_uXXXX_bound a b c d u :
  decode_uXXXX a b c d = Some u -> u < 0x10000.
Proof.
  unfold decode_uXXXX. intros H.
  destruct (hex_value a) as [va |] eqn:Ha; [| done].
  destruct (hex_value b) as [vb |] eqn:Hb; [| done].
  destruct (hex_value c) as [vc |] eqn:Hc; [| done].
  destruct (hex_value d) as [vd |] eqn:Hd; [| done].
  cbn in H. injection H as <-.
  apply hex_value_bound in Ha, Hb, Hc, Hd. lia.
Qed.

Lemma backslash_plain e ch :
  backslash e = Some ch -> ch < 0x110000 /\ is_high ch = false /\ is_low ch = false.
Proof.
  unfold backslash. repeat case_match; intros [= <-]; by vm_compute.
Qed.

Lemma combined_plain u1 u2 :
  is_high u1 = true -> is_low u2 = true ->
  let c := 0x10000 + N.lor (N.shiftl (u1 - 0xd800) 10) (u2 - 0xdc00) in
  c < 0x110000 /\ is_high c = false /\ is_low c = false.
Proof.
  unfold is_high, is_low.
  intros [H1 H2]%andb_true_iff [H3 H4]%andb_true_iff.
  apply N.leb_le in H1, H2, H3, H4.
  rewrite lor_shifted by (change (2 ^ 10) with 1024; lia).
  change (2 ^ 10) with 1024. cbv zeta.
  split; [lia |]. split; apply andb_false_iff; right; apply N.leb_gt; lia.
Qed.

Lemma add_char_cons ch o c' str r :
  add_char ch o = Some (c' :: str, r) -> ch = c' /\ o = Some (str, r).
Proof. destruct o as [[str' r'] |]; [| done]. cbn. by intros [= -> -> ->]. Qed.

Lemma scalar_cons c s :
  forallb scalar (c :: s) = true ->
  c < 0x110000 /\ is_high c = false /\ is_low c = false /\
  forallb scalar s = true.
Proof.
  cbn [forallb]. unfold scalar.
  intros [[[H1 H2]%andb_true_iff H3]%andb_true_iff H4]%andb_true_iff.
  apply N.ltb_lt in H1. apply negb_true_iff in H2, H3. done.
Qed.

Ltac booleans :=
  repeat match goal with
         | H : (_ && _) = true |- _ => apply andb_true_iff in H as [? ?]
         | H : (_ =? _) = true |- _ => apply N.eqb_eq in H; subst
         | H : add_char _ _ = Some (_ :: _, _) |- _ =>
             apply add_char_cons in H as [? ?]; subst
         | H : backslash _ = Some _ |- _ =>
             apply backslash_plain in H as (? & ? & ?)
         end.

(** A string that starts with a low surrogate was read from its escape. *)
Lemma scanstring_head s str r c' :
  forallb scalar s = true ->
  scanstring s = Some (c' :: str, r) -> is_low c' = true ->
  exists a b c d rest,
    s = 92 :: 117 :: a :: b :: c :: d :: rest /\
    decode_uXXXX a b c d = Some c'.
Proof.
  intros Hs H Hlow. destruct s as [| c0 rest]; [done |].
  apply scalar_cons in Hs as (_ & _ & Hc0 & _).
  cbn [scanstring] in H.
  repeat case_match; try done; booleans; try congruence;
    try (by eauto 10).
  all: match goal with
       | H1 : is_high ?u = true, H2 : is_low ?v = true |- _ =>
           destruct (combined_plain u v H1 H2) as (_ & _ & ?); congruence
       end.
Qed.

Lemma add_char_result ch o str r :
  add_char ch o = Some (str, r) ->
  exists str', str = ch :: str' /\ o = Some (str', r).
Proof.
  destruct o as [[str' r'] |]; [| done]. cbn. intros [= <- <-]. eauto.
Qed.

Lemma text_ok_cons ch str :
  ch < 0x110000 ->
  (is_high ch = true ->
   forall c' str', str = c' :: str' -> is_low c' = false) ->
  text_ok str = true -> text_ok (ch :: str) = true.
Proof.
  intros Hch Hhead Hstr. cbn [text_ok].
  rewrite Hstr, (proj2 (N.ltb_lt _ _) Hch), andb_true_r. cbn [andb].
  apply negb_true_iff. destruct (is_high ch); [| done].
  destruct str as [| c' str']; [done |]. by apply (Hhead eq_refl c' str').
Qed.

(** Text without surrogates is text [json] writes back unchanged. *)
Lemma text_ok_scalar s : forallb scalar s = true -> text_ok s = true.
Proof.
  induction s as [| c s IH]; [done |].
  intros (Hc & Hhigh & _ & Hs)%scalar_cons.
  apply text_ok_cons; [done | by rewrite Hhigh | by apply IH].
Qed.

Lemma scalar_drop k s :
  forallb scalar s = true -> forallb scalar (drop k s) = true.
Proof.
  revert k. induction s as [| c s IH]; intros [| k]; try done.
  cbn [forallb drop]. intros [_ H]%andb_true_iff. by apply IH.
Qed.

Ltac suffix Hs :=
  first [ exact (scalar_drop 1 _ Hs) | exact (scalar_drop 2 _ Hs)
        | exact (scalar_drop 6 _ Hs) | exact (scalar_drop 12 _ Hs) ].

(** Every string the decoder reads from text without surrogates is text
    that is written back unchanged: a high and a low escape in a row are
    read as one character, never as two. *)
Lemma scanstring_text_ok s :
  forall str r,
    forallb scalar s = true -> scanstring s = Some (str, r) ->
    text_ok str = true.
Proof.
  remember (length s) as n eqn:Hn. revert s Hn.
  induction n as [n IH] using lt_wf_ind. intros s -> str r Hs H.
  assert (Hrec : forall (s' : pystr) str',
            (length s' < length s)%nat -> forallb scalar s' = true ->
            scanstring s' = Some (str', r) -> text_ok str' = true).
  { intros s' str' Hlen Hs' H'. exact (IH _ Hlen s' eq_refl _ _ Hs' H'). }
  clear IH. destruct s as [| c0 rest]; [done |]. cbn [scanstring] in H.
  repeat case_match; try done; subst;
    try (injection H as <- <-; done);
    apply add_char_result in H as (str' & -> & H);
    booleans;
    repeat match goal with
           | H : decode_uXXXX _ _ _ _ = Some _ |- _ =>
               pose proof (decode_uXXXX_bound _ _ _ _ _ H); revert H
           end; intros.
  all: apply text_ok_cons;
    [ | | eapply Hrec; [| | exact H]; [cbn [length]; lia | suffix Hs] ].
  all: try lia.
  all: try match goal with
           | H1 : is_high ?u = true, H2 : is_low ?v = true |- _ =>
               destruct (combined_plain u v H1 H2) as (? & ? & ?);
               first [ lia | intros; congruence ]
           end.
  all: try (intros; congruence).
  all: try (apply scalar_cons in Hs as (? & ? & ? & ?);
            first [ lia | intros; congruence ]).
  all: intros Hhigh c' str'' ->;
    destruct (is_low c') eqn:Hlow; [exfalso | done];
    eapply scanstring_head in H as (? & ? & ? & ? & ? & E & D);
    [| suffix Hs | done]; simplify_eq.
  all: try congruence.
  match goal with
  | H : is_high _ && _ && _ = false |- _ => by rewrite Hhigh in H
  end.
Qed.

End json_reads_text.

(** ** Files *)

Lemma write_file_result path c files :
  write_file path c files
  = if can_write path files
    then Ok (<[path := File {| readable := readable_after path files;
                               writable := true; data := c |}]> files)
    else Raise OSError.
Proof.
  unfold write_file, can_write, readable_after.
  by destruct (files path) as [[] | f].
Qed.

Lemma can_write_written path (files : filesystem) f :
  writable f = true -> can_write path (<[path := File f]> files) = true.
Proof. intros Hf. unfold can_write. by rewrite fn_lookup_insert. Qed.

(** ** [save_image] *)

Lemma save_image_returns filename self files :
  fst (save_image filename self files) = Ok ().
Proof.
  unfold save_image. destruct filename; [done |].
  by destruct (QImage_save _ _ _).
Qed.

Lemma save_image_unwritable filename self files :
  can_write filename files = false ->
  snd (save_image filename self files) = (self, files).
Proof.
  intros Hw. unfold save_image. destruct filename as [| c name]; [done |].
  unfold QImage_save. rewrite write_file_result, Hw.
  destruct (rasterize self 1080); [done |]. by destruct (bool_decide _).
Qed.

(** C3, as amended: [save_image] raises nothing on any path; when the
    path cannot be written, [QImage.save] reports that in the [bool] it
    returns, which [save_image] drops, so the caller sees a normal return
    and no file has changed. *)
Theorem save_image_silent filename self files :
  fst (save_image filename self files) = Ok ()
  /\ (can_write filename files = false ->
      snd (save_image filename self files) = (self, files)).
Proof.
  split; [apply save_image_returns | apply save_image_unwritable].
Qed.

Lemma save_image_silent_witness :
  fst (save_image (py "art.png") canvas_4 files_locked) = Ok () /\
  snd (save_image (py "art.png") canvas_4 files_locked)
  = (canvas_4, files_locked).
Proof.
  destruct (save_image_silent (py "art.png") canvas_4 files_locked)
    as [H1 H2].
  split; [exact H1 | apply H2; reflexivity].
Defined.

(** C3 as stated fails: the path cannot be written, and the call returns
    normally instead of raising. *)
Lemma save_image_counterexample :
  can_write (py "art.png") files_locked = false /\
  fst (save_image (py "art.png") canvas_4 files_locked) = Ok () /\
  fst (save_image (py "art.png") canvas_4 files_locked) <> Raise OSError.
Proof.
  split; [reflexivity |].
  rewrite save_image_returns. by split.
Qed.

(** ** The theme store *)

Ltac run := unfold mbind, mret, M_bind, M_ret, lift, raise in *.

Lemma load_config_unfold st :
  load_config st
  = match fs st CONFIG_FILE with
    | Missing _ =>
        match default_style st with
        | Some d =>
            match heap st !! d with
            | Some (JDict _ as v) | Some (JList _ as v) =>
                (Ok (length (heap st)), set_heap (heap st ++ [v]) st)
            | _ => (Raise AttributeError, st)
            end
        | None => (Raise AttributeError, st)
        end
    | File f =>
        if readable f then
          match data f with
          | Text t =>
              match Json.loads t with
              | Ok v => (Ok (length (heap st)), set_heap (heap st ++ [v]) st)
              | Raise e => (Raise e, st)
              end
          | Picture _ => (Raise ValueError, st)
          end
        else (Raise OSError, st)
    end.
Proof.
  unfold load_config, path_exists, read_text, get_default_style, copy,
    deref, alloc. run.
  destruct (fs st CONFIG_FILE) as [b | f] eqn:E; cbn; rewrite ?E.
  - destruct (default_style st) as [d |]; [| done].
    destruct (heap st !! d) as [[] |]; done.
  - destruct (readable f); [| done].
    destruct (data f) as [t |]; [| done]. by destruct (Json.loads t).
Qed.

Lemma fully_populated_default : fully_populated default_theme.
Proof. cbn. repeat split; eauto. Qed.

(** C1, as amended: [load_config] gives a fresh, fully populated copy of
    the defaults when no file is there; a file of well-formed JSON gives
    the parsed value as it is, with nothing filled in from the defaults;
    malformed text raises the decoder's error, and a file that cannot be
    read raises [OSError]. *)
Theorem load_config_cases st d :
  default_style st = Some d -> heap st !! d = Some default_theme ->
  (forall b, fs st CONFIG_FILE = Missing b ->
     exists c st',
       load_config st = (Ok c, st') /\ c <> d /\
       heap st' !! c = Some default_theme /\ fully_populated default_theme)
  /\ (forall f t v,
        fs st CONFIG_FILE = File f -> readable f = true -> data f = Text t ->
        Json.loads t = Ok v ->
        exists c st', load_config st = (Ok c, st') /\ heap st' !! c = Some v)
  /\ (forall f t e,
        fs st CONFIG_FILE = File f -> readable f = true -> data f = Text t ->
        Json.loads t = Raise e ->
        load_config st = (Raise e, st))
  /\ (forall f,
        fs st CONFIG_FILE = File f -> readable f = false ->
        load_config st = (Raise OSError, st)).
Proof.
  intros Hd Hheap. rewrite load_config_unfold.
  split; [| split; [| split]].
  - intros b ->. rewrite Hd, Hheap. cbn.
    eexists _, _. split; [done |].
    apply lookup_lt_Some in Hheap as Hlt.
    split; [lia |]. split; [| apply fully_populated_default].
    cbn. by rewrite lookup_app_r, Nat.sub_diag.
  - intros f t v -> -> -> ->. eexists _, _. split; [done |].
    cbn. by rewrite lookup_app_r, Nat.sub_diag.
  - by intros f t e -> -> -> ->.
  - by intros f -> ->.
Qed.

Lemma load_config_cases_witness :
  exists c st',
    load_config (with_defaults files_none) = (Ok c, st') /\ c <> 0%nat /\
    heap st' !! c = Some default_theme /\ fully_populated default_theme.
Proof.
  destruct (load_config_cases (with_defaults files_none) 0 eq_refl eq_refl)
    as [H _].
  exact (H true eq_refl).
Defined.

(** C1 as stated fails three times: malformed text raises, well-formed
    JSON without some field comes back without it, and a file that cannot
    be read raises. *)
Lemma load_config_counterexample :
  fst (load_config
         (with_defaults (files_with (quoted "{'window_color': ") true)))
  = Raise JSONDecodeError
  /\ (exists c st',
        load_config
          (with_defaults (files_with (quoted "{'font': 'Arial'}") true))
        = (Ok c, st') /\
        heap st' !! c = Some (JDict [(py "font", JStr (py "Arial"))]) /\
        ~ fully_populated (JDict [(py "font", JStr (py "Arial"))]))
  /\ fst (load_config (with_defaults files_unreadable)) = Raise OSError.
Proof.
  split; [by vm_compute | split; [| by vm_compute]].
  eexists _, _. split; [by vm_compute |]. split; [by vm_compute |].
  intros [[v Hv] _]. vm_compute in Hv. discriminate.
Qed.

Lemma save_config_unfold float_repr st :
  save_config float_repr st
  = if can_write CONFIG_FILE (fs st) then
      let r := readable_after CONFIG_FILE (fs st) in
      let st1 :=
        set_fs (<[CONFIG_FILE := File {| readable := r; writable := true;
                                         data := Text [] |}]> (fs st)) st in
      match current_style st with
      | Some c =>
          match heap st !! c with
          | Some v =>
              (Ok (),
               set_fs (<[CONFIG_FILE :=
                           File {| readable := r; writable := true;
                                   data := Text (Json.dumps float_repr v) |}]>
                         (fs st1)) st1)
          | None => (Raise AttributeError, st1)
          end
      | None => (Raise AttributeError, st1)
      end
    else (Raise OSError, st).
Proof.
  unfold save_config, write_text, get_current_style, deref. run.
  rewrite write_file_result.
  destruct (can_write CONFIG_FILE (fs st)) eqn:Hw; [| done].
  unfold set_fs. cbn.
  destruct (current_style st) as [c |]; [| done]. cbn.
  destruct (heap st !! c) as [v |]; [| done]. cbn.
  rewrite write_file_result.
  unfold can_write, readable_after. by rewrite fn_lookup_insert.
Qed.

(** C9: for every theme, a [dict] of strings whose text holds no split
    surrogate pair (as no text of Unicode scalar values does), once
    [save_config] has written it, [load_config] on the same path returns a
    [dict] equal to it, provided the file can be read; and it does so from
    the files alone, in whatever state it is called on them, a new start of
    the application with no object of the old one included. *)
Theorem save_then_load float_repr st st1 c d :
  current_style st = Some c -> heap st !! c = Some (JDict d) -> theme_ok d ->
  save_config float_repr st = (Ok (), st1) ->
  (forall f, fs st1 CONFIG_FILE = File f -> readable f = true) ->
  (exists c' st2,
     load_config (blank (fs st1)) = (Ok c', st2) /\
     heap st2 !! c' = Some (JDict d))
  /\ forall st0, fs st0 = fs st1 ->
       exists c' st2,
         load_config st0 = (Ok c', st2) /\ heap st2 !! c' = Some (JDict d).
Proof.
  intros Hc Hd Hok Hsave Hread.
  rewrite save_config_unfold, Hc, Hd in Hsave.
  destruct (can_write CONFIG_FILE (fs st)); [| done].
  cbv zeta in Hsave. apply (f_equal snd) in Hsave. cbn [snd] in Hsave.
  subst st1. unfold set_fs in *. cbn [fs] in *.
  rewrite fn_lookup_insert in Hread. specialize (Hread _ eq_refl).
  cbn [readable] in Hread.
  assert (Hload : forall st0,
            fs st0 = <[CONFIG_FILE :=
                         File {| readable :=
                                   readable_after CONFIG_FILE (fs st);
                                 writable := true;
                                 data := Text (Json.dumps float_repr
                                                 (JDict d)) |}]>
                       (<[CONFIG_FILE :=
                            File {| readable :=
                                      readable_after CONFIG_FILE (fs st);
                                    writable := true; data := Text [] |}]>
                          (fs st)) ->
            exists c' st2,
              load_config st0 = (Ok c', st2) /\
              heap st2 !! c' = Some (JDict d)).
  { intros st0 Hfs. rewrite load_config_unfold, Hfs, fn_lookup_insert.
    cbn [readable data]. rewrite Hread, loads_dumps_theme by done.
    eexists _, _. split; [done |].
    cbn. by rewrite lookup_app_r, Nat.sub_diag. }
  split; [by apply Hload | exact Hload].
Qed.

Lemma default_theme_ok :
  theme_ok [ (py "window_color", JStr (py "#f3e6ff"));
             (py "button_color", JStr (py "#b57edc"));
             (py "font", JStr (py "Comic Sans MS")) ].
Proof.
  split.
  - refine (bool_decide_unpack _ _). by vm_compute.
  - repeat constructor; cbn; eauto.
Qed.

Lemma theme_unsaved_ok :
  theme_ok [ (py "window_color", JStr (py "#000000"));
             (py "button_color", JStr (py "#111111"));
             (py "font", JStr (py "Arial")) ].
Proof.
  split.
  - refine (bool_decide_unpack _ _). by vm_compute.
  - repeat constructor; cbn; eauto.
Qed.

Lemma save_then_load_witness :
  (exists c' st2,
     load_config (blank (fs (save_config (fun l => l) app_unsaved).2))
     = (Ok c', st2) /\
     heap st2 !! c'
     = Some (JDict [ (py "window_color", JStr (py "#000000"));
                     (py "button_color", JStr (py "#111111"));
                     (py "font", JStr (py "Arial")) ]))
  /\ forall st0, fs st0 = fs (save_config (fun l => l) app_unsaved).2 ->
       exists c' st2,
         load_config st0 = (Ok c', st2) /\
         heap st2 !! c'
         = Some (JDict [ (py "window_color", JStr (py "#000000"));
                         (py "button_color", JStr (py "#111111"));
                         (py "font", JStr (py "Arial")) ]).
Proof.
  apply (save_then_load (fun l => l) app_unsaved
           (save_config (fun l => l) app_unsaved).2 1);
    [reflexivity | reflexivity | exact theme_unsaved_ok | reflexivity |].
  intros f Hf. vm_compute in Hf. by injection Hf as <-.
Defined.

(** ** What the events of a running application keep *)

Section theme_invariant.

Variable float_repr : pystr -> pystr.
Variables QColor_converts QFont_converts : value -> bool.

Lemma preserves_bind {A B} P (m : M A) (k : A -> M B) :
  preserves P m -> (forall a, preserves P (k a)) -> preserves P (m ≫= k).
Proof.
  intros Hm Hk st HP. run. specialize (Hm st HP).
  destruct (m st) as [[a | e] st']; cbn in *; [by apply Hk | done].
Qed.

Lemma preserves_mret {A} P (a : A) : preserves P (mret a).
Proof. by intros st HP. Qed.

Lemma preserves_raise {A} P e : preserves P (@raise A e).
Proof. by intros st HP. Qed.

Lemma preserves_deref P r : preserves P (deref r).
Proof. intros st HP. unfold deref. by destruct (heap st !! r). Qed.

Lemma preserves_get_current_style P : preserves P get_current_style.
Proof.
  intros st HP. unfold get_current_style. by destruct (current_style st).
Qed.

Lemma preserves_getitem P v k : preserves P (getitem v k).
Proof.
  intros st HP. unfold getitem.
  destruct v; try exact HP. destruct (dict_get k d); exact HP.
Qed.

Lemma preserves_construct P converts x : preserves P (construct converts x).
Proof.
  intros st HP. unfold construct.
  destruct x; try exact HP; by destruct (converts _).
Qed.

Lemma preserves_write_text P path t :
  theme_only P -> preserves P (write_text path t).
Proof.
  intros HP st Hst. unfold write_text.
  destruct (write_file _ _ _); [| done]. cbn. by apply (HP st).
Qed.

Lemma preserves_apply_style P : theme_only P -> preserves P apply_style.
Proof.
  intros HP. unfold apply_style.
  repeat (first [ apply preserves_bind; [| intros ?]
                | apply preserves_get_current_style
                | apply preserves_deref
                | apply preserves_getitem ]);
    intros st Hst; cbn; by apply (HP st).
Qed.

Lemma preserves_save_config P :
  theme_only P -> preserves P (save_config float_repr).
Proof.
  intros HP. unfold save_config.
  repeat (first [ apply preserves_bind; [| intros ?]
                | apply preserves_get_current_style
                | apply preserves_deref
                | by apply preserves_write_text ]).
Qed.

Lemma theme_only_inv d : theme_only (theme_inv d).
Proof.
  intros st st' Hh Hd Hc (H1 & H2 & c & H3 & H4).
  unfold theme_inv. rewrite Hh, Hd, Hc. eauto.
Qed.

Lemma theme_only_inv_current d c :
  theme_only (fun st => theme_inv d st /\ current_style st = Some c).
Proof.
  intros st st' Hh Hd Hc [Hinv Hcur]. split.
  - by eapply theme_only_inv.
  - by rewrite Hc.
Qed.

Lemma preserves_setitem d c k x :
  preserves (fun st => theme_inv d st /\ current_style st = Some c)
            (setitem c k x).
Proof.
  intros st [Hinv Hc]. pose proof Hinv as (Hd & Hheap & c' & Hc' & Hne).
  assert (c' = c) as -> by congruence.
  unfold setitem, deref. run.
  destruct (heap st !! c) as [[] |]; try done.
  unfold set_heap, theme_inv. cbn.
  rewrite list_lookup_insert_ne by done. eauto 10.
Qed.

Lemma change_theme_inv d w b f :
  preserves (theme_inv d)
    (change_theme float_repr QColor_converts QFont_converts w b f).
Proof.
  intros st Hinv. unfold change_theme at 1.
  unfold mbind at 1, M_bind at 1, get_current_style at 1.
  pose proof Hinv as (_ & _ & c & Hc & _). rewrite Hc.
  match goal with |- theme_inv d (?m st).2 =>
    cut (preserves (fun st => theme_inv d st /\ current_style st = Some c) m)
  end.
  { intros H. by apply H. }
  pose proof (theme_only_inv_current d c) as Honly.
  repeat (first [ apply preserves_setitem
                | by apply preserves_apply_style
                | by apply preserves_save_config
                | apply preserves_deref
                | apply preserves_getitem
                | apply preserves_construct
                | apply preserves_mret
                | match goal with
                  | |- preserves _ (match ?o with _ => _ end) =>
                      destruct o
                  end
                | apply preserves_bind; [| intros ?] ]).
Qed.

Lemma reset_theme_unfold d st :
  theme_inv d st ->
  reset_theme float_repr st = save_config float_repr (reset_before_save st).
Proof.
  intros (Hd & Hheap & _).
  assert (Hnew : forall v : value,
            (heap st ++ [v]) !! length (heap st) = Some v)
    by (intros v; by rewrite lookup_app_r, Nat.sub_diag).
  unfold reset_theme, get_default_style, copy, deref, alloc,
    set_current_style, apply_style, get_current_style. run.
  rewrite Hd, Hheap. cbn. unfold deref. cbn [heap].
  rewrite Hnew. reflexivity.
Qed.

Lemma reset_before_save_inv d st :
  theme_inv d st -> theme_inv d (reset_before_save st).
Proof.
  intros (Hd & Hheap & _). split; [done |]. split.
  - cbn. by apply lookup_app_l_Some.
  - exists (length (heap st)). split; [done |].
    apply lookup_lt_Some in Hheap. lia.
Qed.

Lemma reset_theme_inv d : preserves (theme_inv d) (reset_theme float_repr).
Proof.
  intros st Hinv. rewrite (reset_theme_unfold d) by done.
  apply preserves_save_config; [apply theme_only_inv |].
  by apply reset_before_save_inv.
Qed.

Lemma init_inv files st :
  PixelArtApp_init (blank files) = (Ok (), st) -> theme_inv 0 st.
Proof.
  unfold PixelArtApp_init, alloc, set_default_style. run. cbn.
  rewrite load_config_unfold. cbn.
  set (loaded := match files CONFIG_FILE with
                 | Missing _ => _
                 | File _ => _
                 end).
  assert (Hloaded :
    match loaded with
    | (Ok c, st1) => c = 1%nat /\ theme_inv 0
                       (set_current_style c st1).2
    | (Raise _, _) => True
    end).
  { subst loaded. destruct (files CONFIG_FILE) as [b | f]; cbn.
    - split; [done |]. split; [done |]. split; [done |]. by exists 1%nat.
    - destruct (readable f); [| done].
      destruct (data f) as [t |]; [| done].
      destruct (Json.loads t); [| done]. cbn.
      split; [done |]. split; [done |]. split; [done |]. by exists 1%nat. }
  destruct loaded as [[c | e] st1]; [| done].
  destruct Hloaded as [-> Hinv]. cbn.
  intros Hst.
  pose proof (preserves_apply_style _ (theme_only_inv 0) _ Hinv) as H.
  apply (f_equal snd) in Hst. cbn [snd] in Hst. rewrite <- Hst. exact H.
Qed.

Lemma reachable_inv st :
  reachable float_repr QColor_converts QFont_converts st ->
  exists d, theme_inv d st.
Proof.
  induction 1 as [files st Hinit | st e r st' _ [d Hinv] Hstep].
  - exists 0%nat. by eapply init_inv.
  - exists d.
    replace st' with (handle float_repr QColor_converts QFont_converts e st).2
      by (by rewrite Hstep).
    destruct e as [w b f | | files]; cbn.
    + by apply change_theme_inv.
    + by apply reset_theme_inv.
    + by eapply theme_only_inv.
Qed.

End theme_invariant.

Lemma app_custom_reachable float_repr QColor_converts QFont_converts :
  reachable float_repr QColor_converts QFont_converts app_custom.
Proof. apply (reach_init _ _ _ files_custom). by vm_compute. Qed.

(** C4, as amended: whatever happened to the application before,
    [reset_theme] makes [current_style] a new object equal to the
    hard-coded defaults, leaving the [default_style] object as it was; and
    it then saves: where the configuration file can be written it holds the
    serialized defaults afterwards, and where it cannot, [OSError] is
    raised and no file has changed. *)
Theorem reset_theme_defaults float_repr QColor_converts QFont_converts st :
  reachable float_repr QColor_converts QFont_converts st ->
  exists r st' c d,
    reset_theme float_repr st = (r, st') /\
    current_style st' = Some c /\ heap st' !! c = Some default_theme /\
    (length (heap st) <= c)%nat /\
    default_style st' = Some d /\ d <> c /\
    heap st' !! d = Some default_theme /\
    if can_write CONFIG_FILE (fs st)
    then r = Ok () /\
         exists f, fs st' CONFIG_FILE = File f /\
                   data f = Text (Json.dumps float_repr default_theme)
    else r = Raise OSError /\ fs st' = fs st.
Proof.
  intros Hreach. destruct (reachable_inv _ _ _ _ Hreach) as [d Hinv].
  pose proof (reset_before_save_inv d st Hinv) as (Hd & Hheap & _).
  rewrite (reset_theme_unfold _ d) by done.
  rewrite save_config_unfold.
  assert (Hnew : (heap st ++ [default_theme]) !! length (heap st)
                 = Some default_theme)
    by (by rewrite lookup_app_r, Nat.sub_diag).
  assert (d <> length (heap st)).
  { destruct Hinv as (_ & Hlook & _). apply lookup_lt_Some in Hlook. lia. }
  change (fs (reset_before_save st)) with (fs st).
  change (current_style (reset_before_save st))
    with (Some (length (heap st))).
  change (heap (reset_before_save st)) with (heap st ++ [default_theme]).
  destruct (can_write CONFIG_FILE (fs st)).
  - cbv beta iota zeta. rewrite Hnew.
    eexists _, _, (length (heap st)), d. split; [reflexivity |].
    unfold set_fs. cbn [current_style heap default_style fs].
    split; [done |]. split; [done |]. split; [done |].
    split; [exact Hd |]. split; [done |]. split; [exact Hheap |].
    split; [done |]. eexists. by rewrite fn_lookup_insert.
  - eexists _, _, (length (heap st)), d. split; [reflexivity |].
    cbn [current_style heap default_style fs reset_before_save].
    split; [done |]. split; [done |]. split; [done |].
    split; [exact Hd |]. split; [done |]. split; [exact Hheap |]. done.
Qed.

Lemma reset_theme_defaults_witness :
  exists r st' c d,
    reset_theme (fun l => l) app_custom = (r, st') /\
    current_style st' = Some c /\ heap st' !! c = Some default_theme /\
    (length (heap app_custom) <= c)%nat /\
    default_style st' = Some d /\ d <> c /\
    heap st' !! d = Some default_theme /\
    if can_write CONFIG_FILE (fs app_custom)
    then r = Ok () /\
         exists f, fs st' CONFIG_FILE = File f /\
                   data f = Text (Json.dumps (fun l => l) default_theme)
    else r = Raise OSError /\ fs st' = fs app_custom.
Proof.
  apply (reset_theme_defaults _ (fun _ => false) (fun _ => false)).
  apply (reach_init _ _ _ files_custom).
  by vm_compute.
Defined.

(** C4 as stated fails: resetting a running application rewrites the
    configuration file. *)
Lemma reset_theme_counterexample :
  reachable (fun l => l) (fun _ => false) (fun _ => false) app_custom /\
  fs (reset_theme (fun l => l) app_custom).2 CONFIG_FILE
  <> fs app_custom CONFIG_FILE.
Proof.
  split; [apply app_custom_reachable |].
  vm_compute. discriminate.
Qed.

(** * More of the code *)

(** ** Floats that are integers *)

Section float_integers.

(** A quotient that is an integer below [2 ^ 53] is a float: rounding
    leaves it as it is. *)
Lemma round_pos_exact q d :
  0 < q < 2 ^ 53 -> 0 < d ->
  exists s, 0 <= s /\ round_pos (q * d) d = Float (q * 2 ^ s) (- s).
Proof.
  intros [Hq Hq53] Hd. unfold round_pos.
  assert (Hn : 0 < q * d) by nia.
  pose proof (shift53_spec (q * d) d Hn Hd) as Hs.
  revert Hs. generalize (shift53 (q * d) d). intros s.
  unfold scaled. destruct (Z.leb_spec 0 s) as [Hs0 | Hs0]; cbn [fst snd].
  - intros _. exists s. split; [done |].
    replace (q * d * 2 ^ s) with (q * 2 ^ s * d) by ring.
    rewrite Z.div_mul, Z.mod_mul by lia.
    rewrite (proj2 (Z.ltb_ge d (2 * 0))), (proj2 (Z.eqb_neq d (2 * 0))) by lia.
    reflexivity.
  - intros Hs. exfalso.
    assert (HP : 2 <= 2 ^ (- s)).
    { change 2 with (2 ^ 1) at 1. apply Z.pow_le_mono_r; lia. }
    change (2 ^ 53) with (2 * 2 ^ 52) in Hq53.
    assert (HQ : 0 < 2 ^ 52) by lia.
    generalize dependent (2 ^ 52). intros Q. intros.
    assert (Q * 2 ^ (- s) <= q) by nia. nia.
Qed.

Lemma round_ratio_exact q d :
  0 <= q < 2 ^ 53 -> 0 < d ->
  exists s, 0 <= s /\ round_ratio (q * d) d = Float (q * 2 ^ s) (- s).
Proof.
  intros [Hq Hq53] Hd. unfold round_ratio.
  destruct (Z.eqb_spec (q * d) 0) as [E | Hne].
  - assert (q = 0) as -> by nia. by exists 0.
  - destruct (round_pos_exact q d) as (s & Hs & Hr); [lia | done |].
    exists s. split; [done |].
    rewrite (Z.abs_eq (q * d)), (Z.abs_eq d), Hr by nia.
    rewrite (Z.sgn_pos (q * d)), (Z.sgn_pos d) by nia.
    cbn [mant expo]. f_equal. ring.
Qed.

Lemma int_of_float_exact q s : 0 <= s -> int_of_float (Float (q * 2 ^ s) (- s)) = q.
Proof.
  intros Hs. unfold int_of_float. cbn [mant expo].
  assert (0 < 2 ^ s) by (apply Z.pow_pos_nonneg; lia).
  destruct (Z.leb_spec 0 (- s)).
  - assert (s = 0) as -> by lia. change (2 ^ 0) with 1.
    change (2 ^ (- 0)) with 1. ring.
  - rewrite Z.opp_involutive. apply Z.quot_mul. lia.
Qed.

(** [int(i * step)] for an [int] [i] and a float [step] that is the integer
    [k]: the product is exact as long as it stays below [2 ^ 53]. *)
Lemma int_of_float_mul i k d :
  0 <= i < 2 ^ 53 -> 0 <= k < 2 ^ 53 -> i * k < 2 ^ 53 -> 0 < d ->
  int_of_float (float_mul (float_of_int i) (round_ratio (k * d) d)) = i * k.
Proof.
  intros Hi Hk Hik Hd. unfold float_of_int.
  replace i with (i * 1) at 1 by ring.
  destruct (round_ratio_exact i 1) as (s1 & Hs1 & ->); [done | lia |].
  destruct (round_ratio_exact k d) as (s2 & Hs2 & ->); [done | done |].
  unfold float_mul. cbn [mant expo].
  assert (0 < 2 ^ (s1 + s2)) by (apply Z.pow_pos_nonneg; lia).
  assert (E : i * 2 ^ s1 * (k * 2 ^ s2) = i * k * 2 ^ (s1 + s2))
    by (rewrite Z.pow_add_r by lia; ring).
  rewrite E.
  destruct (Z.leb_spec 0 (- s1 + - s2)).
  - assert (s1 = 0) as -> by lia. assert (s2 = 0) as -> by lia.
    change (2 ^ (0 + 0)) with 1. change (2 ^ (-0 + -0)) with 1.
    rewrite !Z.mul_1_r.
    replace (i * k) with (i * k * 1) at 1 by ring.
    destruct (round_ratio_exact (i * k) 1) as (s & Hs & ->); [nia | lia |].
    by apply int_of_float_exact.
  - replace (- (- s1 + - s2)) with (s1 + s2) by ring.
    destruct (round_ratio_exact (i * k) (2 ^ (s1 + s2))) as (s & Hs & ->);
      [nia | done |].
    by apply int_of_float_exact.
Qed.

End float_integers.

(** ** The pointer on and off the display surface *)

Lemma cell_of_in_range self pos :
  0 < width_px self -> 0 < height_px self -> inside self pos ->
  0 <= fst (cell_of self pos) < width_px self /\
  0 <= snd (cell_of self pos) < height_px self.
Proof.
  intros Hw Hh (Hx & Hy & _). unfold cell_of. cbn [fst snd].
  split; (split; [apply Z.div_pos; nia | apply Z.div_lt_upper_bound; nia]).
Qed.

Lemma mapPointerToCell_inside self pos :
  0 < width_px self -> 0 < height_px self -> inside self pos ->
  mapPointerToCell self pos = Ok (cell_of self pos).
Proof.
  intros Hw Hh (Hx & Hy & Hbx & Hby).
  rewrite mapPointerToCell_quot by nia.
  unfold cell_of. by rewrite !Z.quot_div_nonneg by nia.
Qed.

(** What [update_display] shows. *)
Lemma update_display_shows self self' :
  update_display self = Ok self' ->
  exists p, self' = set_pixmap p self /\
            base p = rasterize self (display_size self).
Proof.
  unfold update_display. destruct (int_truediv _ _); [| done]. cbn.
  intros [= <-]. eauto.
Qed.

Lemma paint_cases self x y c :
  (exists p, paint x y c self
             = Ok (set_pixmap p (set_image (setPixelColor (image self) x y c)
                                           self))
             /\ base p
                = QImage_scaled (setPixelColor (image self) x y c)
                    (display_size self) (display_size self)
             /\ 0 <= x < width_px self /\ 0 <= y < height_px self)
  \/ (paint x y c self = Ok self /\
      ~ (0 <= x < width_px self /\ 0 <= y < height_px self)).
Proof.
  unfold paint. destruct (_ && _) eqn:Hin.
  - left. repeat (apply andb_true_iff in Hin as [Hin ?]).
    match goal with |- context [update_display ?s] =>
      destruct (update_display_ok s) as [p Hp]; [cbn; lia |];
      destruct (update_display_shows _ _ Hp) as (p' & E & Hbase) end.
    rewrite Hp, E. exists p'. split; [done |]. split; [done | lia].
  - right. split; [done |]. intros [? ?].
    rewrite !andb_false_iff in Hin. lia.
Qed.

(** X1: with the pointer on the display surface, and the products of the
    mapping below [2 ^ 53], [paint_pixel] returns normally, the cell under
    the pointer has the brush colour afterwards, every other cell keeps its
    colour, and the canvas keeps its shape, its brush and its drawing
    flag. *)
Theorem paint_pixel_on_display self pos :
  canvas_wf self -> inside self pos ->
  exists self',
    paint_pixel pos self = Ok self' /\
    pixelColor (image self') (cell_of self pos).1 (cell_of self pos).2
    = Some (brush_color self) /\
    (forall x y, 0 <= x -> 0 <= y -> (x, y) <> cell_of self pos ->
       pixelColor (image self') x y = pixelColor (image self) x y) /\
    canvas_wf self' /\ brush_color self' = brush_color self /\
    drawing self' = drawing self.
Proof.
  intros Hwf Hin. pose proof Hwf as (Hw & Hh & Himg).
  destruct (cell_of_in_range self pos Hw Hh Hin) as [Hx Hy].
  unfold paint_pixel. rewrite mapPointerToCell_inside by done.
  destruct (cell_of self pos) as [x y] eqn:E. cbn [fst snd] in *. cbn.
  destruct (paint_in_range self x y (brush_color self) Hx Hy) as [p Hp].
  rewrite Hp. eexists. split; [done |]. cbn. split; [| split; [| split]].
  - by apply (pixelColor_setPixelColor (width_px self) (height_px self)).
  - intros x' y' Hx' Hy' Hne. by apply pixelColor_setPixelColor_other.
  - by apply (paint_wf self x y (brush_color self)).
  - done.
Qed.

Lemma canvas_60_600_inside x y :
  0 <= x < 600 -> 0 <= y < 600 -> inside canvas_60_600 {| qx := x; qy := y |}.
Proof. intros Hx Hy. unfold inside. cbn. lia. Qed.

Lemma paint_pixel_on_display_witness :
  exists self',
    paint_pixel {| qx := 125; qy := 599 |} canvas_60_600 = Ok self' /\
    pixelColor (image self') 12 59 = Some 0xff69b4 /\
    (forall x y, 0 <= x -> 0 <= y -> (x, y) <> (12, 59) ->
       pixelColor (image self') x y = pixelColor (image canvas_60_600) x y) /\
    canvas_wf self' /\ brush_color self' = 0xff69b4 /\
    drawing self' = false.
Proof.
  apply (paint_pixel_on_display canvas_60_600 {| qx := 125; qy := 599 |});
    [exact canvas_60_600_wf | apply canvas_60_600_inside; lia].
Defined.

(** [paint_pixel] and [reset_pixel] raise in the pointer mapping only. *)
Lemma paint_never_raises x y c self e : paint x y c self <> Raise e.
Proof.
  destruct (paint_cases self x y c) as [(p & -> & _) | [-> _]]; done.
Qed.

Lemma mapPointerToCell_raises self pos :
  mapPointerToCell self pos
  = if (width self =? 0) || (height self =? 0) then Raise ZeroDivisionError
    else Ok (int_of_float (round_ratio (qx pos * width_px self) (width self)),
             int_of_float (round_ratio (qy pos * height_px self) (height self))).
Proof.
  unfold mapPointerToCell, int_truediv.
  by destruct (width self =? 0), (height self =? 0).
Qed.

(** X2: [paint_pixel] and [reset_pixel] raise when the widget has no width
    or no height, and then [ZeroDivisionError], from the pointer mapping; at
    any other geometry they return for every pointer position, and a canvas
    of the shape [__init__] builds keeps that shape. *)
Theorem paint_pixel_raises pos self :
  (width self = 0 \/ height self = 0 ->
   paint_pixel pos self = Raise ZeroDivisionError /\
   reset_pixel pos self = Raise ZeroDivisionError)
  /\ (width self <> 0 -> height self <> 0 ->
      exists painted erased,
        paint_pixel pos self = Ok painted /\ reset_pixel pos self = Ok erased /\
        (canvas_wf self -> canvas_wf painted /\ canvas_wf erased)).
Proof.
  unfold paint_pixel, reset_pixel. rewrite mapPointerToCell_raises. split.
  - intros Hz.
    assert ((width self =? 0) || (height self =? 0) = true) as ->; [| done].
    apply orb_true_iff. destruct Hz; [left | right]; by apply Z.eqb_eq.
  - intros HW HH.
    rewrite (proj2 (Z.eqb_neq (width self) 0)), (proj2 (Z.eqb_neq (height self) 0))
      by done.
    cbn. set (x := int_of_float _). set (y := int_of_float _).
    change (erase x y self) with (paint x y white self).
    destruct (paint x y (brush_color self) self) as [painted | e] eqn:E1;
      [| by apply paint_never_raises in E1].
    destruct (paint x y white self) as [erased | e] eqn:E2;
      [| by apply paint_never_raises in E2].
    exists painted, erased. split; [done |]. split; [done |].
    intros Hwf. split; by eapply paint_wf.
Qed.

(** ** Writes to the image, one after another *)

Lemma img_height_setPixelColor img x y c :
  img_height (setPixelColor img x y c) = img_height img.
Proof.
  unfold setPixelColor. destruct (_ && _); [| done].
  unfold img_height. by rewrite length_alter.
Qed.

Lemma img_width_setPixelColor img x y c :
  img_width (setPixelColor img x y c) = img_width img.
Proof.
  unfold setPixelColor. destruct (_ && _); [| done].
  destruct img as [| row rest]; [done |].
  destruct (Z.to_nat y); cbn; [| done]. by rewrite length_insert.
Qed.

Lemma setPixelColor_twice img x y c1 c2 :
  setPixelColor (setPixelColor img x y c1) x y c2 = setPixelColor img x y c2.
Proof.
  unfold setPixelColor at 1.
  rewrite img_width_setPixelColor, img_height_setPixelColor.
  unfold setPixelColor. destruct (_ && _); [| done].
  rewrite list_alter_alter_eq. apply list_alter_ext; [| done].
  intros row _. cbn. apply list_insert_insert_eq.
Qed.

Lemma setPixelColor_commute img x1 y1 c1 x2 y2 c2 :
  (x1, y1) <> (x2, y2) ->
  setPixelColor (setPixelColor img x1 y1 c1) x2 y2 c2
  = setPixelColor (setPixelColor img x2 y2 c2) x1 y1 c1.
Proof.
  intros Hne. unfold setPixelColor at 1 3.
  rewrite !img_width_setPixelColor, !img_height_setPixelColor.
  unfold setPixelColor.
  destruct ((0 <=? x1) && (x1 <? img_width img) && (0 <=? y1)
            && (y1 <? img_height img)) eqn:H1;
    destruct ((0 <=? x2) && (x2 <? img_width img) && (0 <=? y2)
              && (y2 <? img_height img)) eqn:H2; try done.
  destruct (Z.eq_dec y1 y2) as [-> | Hy].
  - rewrite !list_alter_alter_eq. apply list_alter_ext; [| done].
    intros row _. cbn. apply list_insert_insert_ne.
    intros E. apply Hne. f_equal.
    repeat (apply andb_true_iff in H1 as [H1 ?]).
    repeat (apply andb_true_iff in H2 as [H2 ?]). lia.
  - apply list_alter_alter_ne.
    repeat (apply andb_true_iff in H1 as [H1 ?]).
    repeat (apply andb_true_iff in H2 as [H2 ?]). lia.
Qed.

(** X5: painting a cell twice is painting it once with the later colour:
    the canvas, the pixmap shown included, is the same; so erasing a painted
    cell gives what erasing alone gives. *)
Theorem paint_overwrite x y c1 c2 self :
  paint x y c1 self ≫= paint x y c2 = paint x y c2 self.
Proof.
  unfold paint at 2 3. destruct (_ && _) eqn:Hin.
  2:{ change (paint x y c2 self = Ok self). unfold paint. by rewrite Hin. }
  unfold update_display, int_truediv, set_image.
  cbn [width_px height_px display_size image].
  destruct (width_px self =? 0) eqn:E; [done |].
  cbn [mbind outcome_bind mret outcome_ret].
  unfold paint, set_pixmap. cbn [width_px height_px display_size image].
  rewrite Hin.
  unfold update_display, int_truediv, set_image, set_pixmap, rasterize.
  cbn [width_px height_px display_size image brush_color drawing width height].
  rewrite E. cbn [mbind outcome_bind mret outcome_ret].
  by rewrite !setPixelColor_twice.
Qed.

(** X6: paints of two different cells commute: either order leaves the
    same canvas, the pixmap shown included. *)
Theorem paint_commute x1 y1 c1 x2 y2 c2 self :
  (x1, y1) <> (x2, y2) ->
  paint x1 y1 c1 self ≫= paint x2 y2 c2
  = paint x2 y2 c2 self ≫= paint x1 y1 c1.
Proof.
  intros Hne.
  unfold paint, update_display, int_truediv, set_image, set_pixmap, rasterize.
  destruct ((0 <=? x1) && (x1 <? width_px self) && (0 <=? y1)
            && (y1 <? height_px self)) eqn:H1;
    destruct ((0 <=? x2) && (x2 <? width_px self) && (0 <=? y2)
              && (y2 <? height_px self)) eqn:H2;
    cbn [width_px height_px display_size image brush_color drawing width
         height];
    destruct (width_px self =? 0) eqn:E;
    cbn [mbind outcome_bind mret outcome_ret width_px height_px display_size
         image brush_color drawing width height];
    rewrite ?H1, ?H2, ?E;
    cbn [mbind outcome_bind mret outcome_ret width_px height_px display_size
         image brush_color drawing width height];
    try done.
  by rewrite (setPixelColor_commute _ x1 y1 c1 x2 y2 c2).
Qed.

Lemma paint_commute_witness :
  paint 0 0 0xff0000 canvas_4 ≫= paint 3 1 0x0000ff
  = paint 3 1 0x0000ff canvas_4 ≫= paint 0 0 0xff0000.
Proof. apply paint_commute. discriminate. Defined.

(** X3: a pointer at or past the right or bottom edge of the display
    surface, or a whole cell or more before the left or top edge, changes
    nothing: [paint_pixel] and [reset_pixel] return the canvas as it was. *)
Theorem paint_pixel_off_display self pos :
  0 < width self -> 0 < height self ->
  Z.abs (qx pos * width_px self) < 2 ^ 53 ->
  Z.abs (qy pos * height_px self) < 2 ^ 53 ->
  width self <= qx pos \/ qx pos * width_px self <= - width self \/
  height self <= qy pos \/ qy pos * height_px self <= - height self ->
  paint_pixel pos self = Ok self /\ reset_pixel pos self = Ok self.
Proof.
  intros HW HH Hbx Hby Hout.
  unfold paint_pixel, reset_pixel. rewrite mapPointerToCell_quot by done.
  cbn. change (erase ?x ?y self) with (paint x y white self).
  set (x := _ ÷ width self). set (y := _ ÷ height self).
  assert (Hcell : ~ (0 <= x < width_px self /\ 0 <= y < height_px self)).
  { intros [Hx Hy]. subst x y.
    destruct Hout as [Hr | [Hl | [Hb | Ht]]].
    - assert (width self * width_px self <= qx pos * width_px self) by nia.
      rewrite Z.quot_div_nonneg in Hx by nia.
      assert (width_px self <= qx pos * width_px self / width self)
        by (apply Z.div_le_lower_bound; lia).
      lia.
    - assert (E : qx pos * width_px self = - - (qx pos * width_px self))
        by ring.
      rewrite E, Z.quot_opp_l, Z.quot_div_nonneg in Hx by lia.
      assert (1 <= - (qx pos * width_px self) / width self)
        by (apply Z.div_le_lower_bound; lia).
      lia.
    - assert (height self * height_px self <= qy pos * height_px self) by nia.
      rewrite Z.quot_div_nonneg in Hy by nia.
      assert (height_px self <= qy pos * height_px self / height self)
        by (apply Z.div_le_lower_bound; lia).
      lia.
    - assert (E : qy pos * height_px self = - - (qy pos * height_px self))
        by ring.
      rewrite E, Z.quot_opp_l, Z.quot_div_nonneg in Hy by lia.
      assert (1 <= - (qy pos * height_px self) / height self)
        by (apply Z.div_le_lower_bound; lia).
      lia. }
  split.
  - destruct (paint_cases self x y (brush_color self))
      as [(_ & _ & _ & Hin) | [-> _]]; [tauto | done].
  - destruct (paint_cases self x y white)
      as [(_ & _ & _ & Hin) | [-> _]]; [tauto | done].
Qed.

Lemma paint_pixel_off_display_witness :
  paint_pixel {| qx := 600; qy := 10 |} canvas_60_600 = Ok canvas_60_600 /\
  reset_pixel {| qx := 600; qy := 10 |} canvas_60_600 = Ok canvas_60_600.
Proof.
  apply (paint_pixel_off_display canvas_60_600 {| qx := 600; qy := 10 |});
    cbn; lia.
Defined.

(** X4: on a display surface with at least as many pixels as the canvas
    has cells in each direction, every cell lies under some pixel of the
    surface: the pointer mapping leaves out no cell. *)
Theorem every_cell_under_a_pixel self x y :
  0 < width_px self <= width self -> 0 < height_px self <= height self ->
  width_px self * width self < 2 ^ 53 ->
  height_px self * height self < 2 ^ 53 ->
  0 <= x < width_px self -> 0 <= y < height_px self ->
  exists pos,
    0 <= qx pos < width self /\ 0 <= qy pos < height self /\
    mapPointerToCell self pos = Ok (x, y).
Proof.
  intros Hw Hh Hbw Hbh Hx Hy.
  set (px := (x * width self + width_px self - 1) / width_px self).
  set (py := (y * height self + height_px self - 1) / height_px self).
  assert (Hpx : x * width self <= px * width_px self
                < x * width self + width_px self).
  { pose proof (Z.div_mod (x * width self + width_px self - 1) (width_px self)
                  ltac:(lia)) as E.
    pose proof (Z.mod_pos_bound (x * width self + width_px self - 1)
                  (width_px self) ltac:(lia)).
    fold px in E. lia. }
  assert (Hpy : y * height self <= py * height_px self
                < y * height self + height_px self).
  { pose proof (Z.div_mod (y * height self + height_px self - 1)
                  (height_px self) ltac:(lia)) as E.
    pose proof (Z.mod_pos_bound (y * height self + height_px self - 1)
                  (height_px self) ltac:(lia)).
    fold py in E. lia. }
  exists {| qx := px; qy := py |}. cbn [qx qy].
  assert (0 <= px < width self) by nia.
  assert (0 <= py < height self) by nia.
  split; [done |]. split; [done |].
  rewrite mapPointerToCell_quot; cbn [qx qy]; [| lia | lia | nia | nia].
  rewrite !Z.quot_div_nonneg by nia. f_equal. f_equal.
  - symmetry. apply Z.div_unique with (r := px * width_px self - x * width self).
    + lia.
    + ring.
  - symmetry.
    apply Z.div_unique with (r := py * height_px self - y * height self).
    + lia.
    + ring.
Qed.

Lemma every_cell_under_a_pixel_witness :
  exists pos,
    0 <= qx pos < width canvas_60_600 /\ 0 <= qy pos < height canvas_60_600 /\
    mapPointerToCell canvas_60_600 pos = Ok (59, 0).
Proof.
  apply (every_cell_under_a_pixel canvas_60_600 59 0); cbn; lia.
Defined.

(** ** A new canvas *)



(** ** The grid *)

Lemma range_elem n i x : range n !! i = Some x -> 0 <= x < n.
Proof.
  unfold range. rewrite list_lookup_fmap.
  destruct (seq 0 (Z.to_nat n) !! i) as [k |] eqn:E; [| done].
  apply lookup_seq in E as [-> Hlt]. cbn. intros [= <-]. lia.
Qed.

(** X8: for a display size that is [k] times [width_px], [update_display]
    returns, shows the scaled image, and draws [width_px + 1] vertical lines
    at [i * k] and [height_px + 1] horizontal lines at [j * k]: the
    horizontal lines too are spaced by [display_size / width_px], whatever
    [height_px] is.  The float steps [int(i * step)] are exact here. *)
Theorem update_display_grid self k :
  0 < width_px self -> 0 <= height_px self -> 0 < k ->
  display_size self = k * width_px self ->
  width_px self * k < 2 ^ 53 -> height_px self * k < 2 ^ 53 ->
  update_display self
  = Ok (set_pixmap
          {| base := rasterize self (display_size self);
             pen := 0xd8b0ff;
             lines :=
               ((fun i => (i * k, 0, i * k, display_size self))
                <$> range (width_px self + 1))
               ++ ((fun j => (0, j * k, display_size self, j * k))
                   <$> range (height_px self + 1)) |} self).
Proof.
  intros Hw Hh Hk HD Hbw Hbh. unfold update_display, int_truediv.
  rewrite (proj2 (Z.eqb_neq (width_px self) 0)) by lia.
  cbn [mbind outcome_bind]. rewrite HD.
  assert (Hat : forall i, 0 <= i -> i * k < 2 ^ 53 ->
            int_of_float (float_mul (float_of_int i)
                            (round_ratio (k * width_px self) (width_px self)))
            = i * k).
  { intros i Hi Hik. apply int_of_float_mul; [nia | nia | done | done]. }
  do 3 f_equal. f_equal.
  - apply list_fmap_ext. intros n i Hi%range_elem.
    rewrite Hat by nia. done.
  - apply list_fmap_ext. intros n i Hi%range_elem.
    rewrite Hat by nia. done.
Qed.

Lemma update_display_grid_witness :
  update_display canvas_60_600
  = Ok (set_pixmap
          {| base := rasterize canvas_60_600 600;
             pen := 0xd8b0ff;
             lines :=
               ((fun i => (i * 10, 0, i * 10, 600)) <$> range 61)
               ++ ((fun j => (0, j * 10, 600, j * 10)) <$> range 61) |}
          canvas_60_600).
Proof. apply (update_display_grid canvas_60_600 10); cbn; lia. Defined.

(** ** What is shown and what is saved *)

Lemma range_length n : length (range n) = Z.to_nat n.
Proof. unfold range. by rewrite length_fmap, length_seq. Qed.

Lemma QImage_scaled_size img w h :
  0 < w -> 0 < h -> 0 < img_width img ->
  img_width (QImage_scaled img w h) = w /\
  img_height (QImage_scaled img w h) = h.
Proof.
  intros Hw Hh Hi. unfold QImage_scaled.
  rewrite (proj2 (Z.ltb_lt 0 w)), (proj2 (Z.ltb_lt 0 h)) by lia.
  rewrite (proj2 (Z.ltb_lt 0 _) Hi). cbn [andb]. split.
  - unfold img_width. destruct (range h) as [| Y0 rest] eqn:E.
    { apply (f_equal length) in E. rewrite range_length in E. cbn in E. lia. }
    rewrite fmap_cons, length_fmap, range_length. lia.
  - unfold img_height. rewrite length_fmap, range_length. lia.
Qed.

Lemma update_display_exact self k :
  0 < width_px self -> 0 <= height_px self -> 0 < k ->
  display_size self = k * width_px self ->
  width_px self * k < 2 ^ 53 -> height_px self * k < 2 ^ 53 ->
  update_display self
  = Ok (set_pixmap
          {| base := rasterize self (display_size self);
             pen := 0xd8b0ff;
             lines :=
               ((fun i => (i * k, 0, i * k, display_size self))
                <$> range (width_px self + 1))
               ++ ((fun j => (0, j * k, display_size self, j * k))
                   <$> range (height_px self + 1)) |} self).
Proof.
  intros Hw Hh Hk HD Hbw Hbh. unfold update_display, int_truediv.
  rewrite (proj2 (Z.eqb_neq (width_px self) 0)) by lia.
  cbn [mbind outcome_bind]. rewrite HD.
  do 3 f_equal. f_equal;
    apply list_fmap_ext; intros n i Hi%range_elem;
    rewrite int_of_float_mul by nia; done.
Qed.

Lemma range_elem_of n i : 0 <= i < n -> i ∈ range n.
Proof. intros Hi. eapply list_elem_of_lookup_2. by apply range_lookup. Qed.

(** The pixels of the display that the grid covers. *)
Lemma on_grid k w h D X Y :
  0 < k -> 0 < w -> 0 <= h -> D = k * w -> 0 <= X < D -> 0 <= Y < D ->
  existsb (fun l => on_line l X Y)
    (((fun i => (i * k, 0, i * k, D)) <$> range (w + 1))
     ++ ((fun j => (0, j * k, D, j * k)) <$> range (h + 1)))
  = (X mod k =? 0) || ((Y mod k =? 0) && (Y / k <=? h)).
Proof.
  intros Hk Hw Hh -> HX HY.
  assert (HD : 0 < k * w) by nia.
  apply eq_true_iff_eq. rewrite existsb_exists. split.
  - intros (l & Hin & Hon). apply list_elem_of_In in Hin.
    apply elem_of_app in Hin as [Hin | Hin];
      apply list_elem_of_fmap in Hin as (i & -> & Hi);
      apply list_elem_of_lookup in Hi as [n Hi]; apply range_elem in Hi;
      unfold on_line in Hon; apply orb_true_iff in Hon as [Hon | Hon];
      repeat (apply andb_true_iff in Hon as [Hon ?]);
      repeat match goal with
             | H : (_ =? _) = true |- _ => apply Z.eqb_eq in H
             | H : (_ <=? _) = true |- _ => apply Z.leb_le in H
             end; try lia.
    + apply orb_true_iff. left. apply Z.eqb_eq. subst X. apply Z.mod_mul. lia.
    + apply orb_true_iff. right. apply andb_true_iff. subst Y. split.
      * apply Z.eqb_eq. apply Z.mod_mul. lia.
      * apply Z.leb_le. rewrite Z.div_mul by lia. lia.
  - intros Hon. apply orb_true_iff in Hon as [Hon | Hon].
    + apply Z.eqb_eq in Hon.
      pose proof (Z.div_mod X k ltac:(lia)) as E. rewrite Hon in E.
      assert (0 <= X / k < w + 1)
        by (split; [apply Z.div_pos; lia
                   | apply Z.div_lt_upper_bound; nia]).
      exists (X / k * k, 0, X / k * k, k * w). split.
      * apply list_elem_of_In, elem_of_app. left.
        apply list_elem_of_fmap. exists (X / k). split; [done |].
        by apply range_elem_of.
      * unfold on_line. apply orb_true_iff. left.
        rewrite Z.eqb_refl, (proj2 (Z.eqb_eq X (X / k * k))) by lia.
        rewrite (proj2 (Z.leb_le _ _)), (proj2 (Z.leb_le _ _)) by lia. done.
    + apply andb_true_iff in Hon as [Hmod Hle].
      apply Z.eqb_eq in Hmod. apply Z.leb_le in Hle.
      pose proof (Z.div_mod Y k ltac:(lia)) as E. rewrite Hmod in E.
      assert (0 <= Y / k) by (apply Z.div_pos; lia).
      exists (0, Y / k * k, k * w, Y / k * k). split.
      * apply list_elem_of_In, elem_of_app. right.
        apply list_elem_of_fmap. exists (Y / k). split; [done |].
        apply range_elem_of. lia.
      * unfold on_line. apply orb_true_iff. right.
        rewrite Z.eqb_refl, (proj2 (Z.eqb_eq Y (Y / k * k))) by lia.
        rewrite (proj2 (Z.leb_le _ _)), (proj2 (Z.leb_le _ _)) by lia. done.
Qed.

(** X9: after painting cell [(x, y)] with [c], for a display size that is
    a multiple of both [width_px] and [height_px], the scaled image has the
    colour [c] at every pixel of the block of that cell, and so has the
    pixmap shown wherever no grid line runs; on the grid lines, drawn at
    the multiples of [display_size / width_px], the block has the colour of
    the pen. *)
Theorem paint_shown self x y c k k' X Y :
  canvas_wf self -> 0 < k -> 0 < k' ->
  display_size self = k * width_px self ->
  display_size self = k' * height_px self ->
  display_size self < 2 ^ 53 -> height_px self * k < 2 ^ 53 ->
  0 <= x < width_px self -> 0 <= y < height_px self ->
  x * k <= X < (x + 1) * k -> y * k' <= Y < (y + 1) * k' ->
  exists self' p,
    paint x y c self = Ok self' /\ pixmap self' = Some p /\
    pixelColor (base p) X Y = Some c /\
    QPixmap_pixelColor p X Y
    = Some (if (X mod k =? 0)
               || ((Y mod k =? 0) && (Y / k <=? height_px self))
            then 0xd8b0ff else c).
Proof.
  intros (Hw & Hh & Himg) Hk Hk' HD HD' Hb Hbh Hx Hy HX HY.
  unfold paint.
  rewrite (proj2 (Z.leb_le 0 x)), (proj2 (Z.leb_le 0 y)) by lia.
  rewrite (proj2 (Z.ltb_lt x _)), (proj2 (Z.ltb_lt y _)) by lia.
  cbn [andb].
  rewrite (update_display_exact _ k) by (cbn; lia).
  eexists _, _. split; [reflexivity |]. split; [reflexivity |].
  cbn [base pen lines width_px height_px display_size image set_image
       set_pixmap].
  pose proof (image_wf_setPixelColor (width_px self) (height_px self)
                (image self) Himg x y c) as Himg'.
  destruct (image_wf_sizes (width_px self) (height_px self) _ Hw Hh Himg')
    as [Ewidth Eheight].
  assert (Hbase : pixelColor
                    (rasterize (set_image (setPixelColor (image self) x y c)
                                  self) (display_size self)) X Y = Some c).
  { unfold rasterize. cbn [image set_image].
    rewrite pixelColor_scaled by nia. rewrite Ewidth, Eheight.
    replace (X * width_px self / display_size self) with x
      by (rewrite HD; symmetry; apply block_index; lia).
    replace (Y * height_px self / display_size self) with y
      by (rewrite HD'; symmetry; apply block_index; lia).
    by rewrite (pixelColor_setPixelColor (width_px self) (height_px self)). }
  split; [exact Hbase |].
  unfold QPixmap_pixelColor. cbn [base pen lines]. rewrite Hbase.
  cbn [mbind option_bind].
  rewrite (on_grid k (width_px self) (height_px self)) by nia.
  done.
Qed.

Lemma paint_shown_witness :
  (exists self' p,
     paint 59 0 0x00ff00 canvas_60_600 = Ok self' /\ pixmap self' = Some p /\
     pixelColor (base p) 595 9 = Some 0x00ff00 /\
     QPixmap_pixelColor p 595 9 = Some 0x00ff00)
  /\ (exists self' p,
        paint 59 0 0x00ff00 canvas_60_600 = Ok self' /\
        pixmap self' = Some p /\
        pixelColor (base p) 590 9 = Some 0x00ff00 /\
        QPixmap_pixelColor p 590 9 = Some 0xd8b0ff).
Proof.
  split.
  - apply (paint_shown canvas_60_600 59 0 0x00ff00 10 10 595 9);
      [exact canvas_60_600_wf | cbn; lia ..].
  - apply (paint_shown canvas_60_600 59 0 0x00ff00 10 10 590 9);
      [exact canvas_60_600_wf | cbn; lia ..].
Defined.

Lemma png_is_written : py "png" ∈ image_formats.
Proof. refine (bool_decide_unpack _ _). by vm_compute. Qed.

(** X10: [save_image] on a name with the suffix [png], in either case of
    the letters, at a path that can be written, leaves the canvas unchanged
    and puts a picture at the path, other paths untouched: 1080 by 1080
    pixels whatever the size of the canvas, pixel [(X, Y)] having the colour
    of cell [(X * width_px / 1080, Y * height_px / 1080)], with no grid
    line. *)
Theorem save_image_writes filename self files :
  canvas_wf self -> toLower (QFileInfo_suffix filename) = py "png" ->
  can_write filename files = true ->
  exists f img,
    save_image filename self files
    = (Ok (), (self, <[filename := File f]> files)) /\
    data f = Picture img /\ img_width img = 1080 /\ img_height img = 1080 /\
    forall X Y, 0 <= X < 1080 -> 0 <= Y < 1080 ->
      pixelColor img X Y
      = pixelColor (image self) (X * width_px self / 1080)
                                (Y * height_px self / 1080).
Proof.
  intros (Hw & Hh & Himg) Hname Hcan.
  destruct (image_wf_sizes (width_px self) (height_px self) _ Hw Hh Himg)
    as [Ewidth Eheight].
  destruct (QImage_scaled_size (image self) 1080 1080) as [Ew Eh];
    [lia | lia | rewrite Ewidth; lia |].
  unfold save_image. destruct filename as [| ch name]; [done |].
  unfold QImage_save. rewrite write_file_result, Hcan, Hname.
  rewrite (bool_decide_eq_true_2 _ png_is_written).
  fold (rasterize self 1080) in Ew, Eh. revert Ew Eh.
  destruct (rasterize self 1080) as [| row rest] eqn:E; intros Ew Eh;
    [unfold img_height in Eh; cbn in Eh; lia |].
  eexists _, (row :: rest). split; [reflexivity |]. cbn [data].
  split; [done |]. split; [done |]. split; [done |].
  intros X Y HX HY. rewrite <- E. unfold rasterize.
  rewrite pixelColor_scaled by lia. rewrite Ewidth, Eheight.
  assert (is_Some (pixelColor (image self) (X * width_px self / 1080)
                              (Y * height_px self / 1080))) as [c ->];
    [| done].
  apply (pixelColor_in_range (width_px self) (height_px self)); auto.
  - split; [apply Z.div_pos; nia | apply Z.div_lt_upper_bound; nia].
  - split; [apply Z.div_pos; nia | apply Z.div_lt_upper_bound; nia].
Qed.

Lemma save_image_writes_witness :
  exists f img,
    save_image (py "art.png") canvas_4 files_none
    = (Ok (), (canvas_4, <[py "art.png" := File f]> files_none)) /\
    data f = Picture img /\ img_width img = 1080 /\ img_height img = 1080 /\
    forall X Y, 0 <= X < 1080 -> 0 <= Y < 1080 ->
      pixelColor img X Y
      = pixelColor (image canvas_4) (X * width_px canvas_4 / 1080)
                                    (Y * height_px canvas_4 / 1080).
Proof.
  apply (save_image_writes (py "art.png") canvas_4 files_none);
    [exact canvas_4_wf | reflexivity | reflexivity].
Defined.

(** ** Strokes of the mouse *)

Lemma call_paint_pixel self pos :
  canvas_wf self -> inside self pos ->
  exists p,
    call (paint_pixel pos) self
    = (Ok (),
       set_pixmap p
         (set_image (setPixelColor (image self) (cell_of self pos).1
                       (cell_of self pos).2 (brush_color self)) self)).
Proof.
  intros (Hw & Hh & Himg) Hin.
  destruct (cell_of_in_range self pos Hw Hh Hin) as [Hx Hy].
  unfold call, paint_pixel. rewrite mapPointerToCell_inside by done.
  destruct (cell_of self pos) as [x y]. cbn [fst snd] in *. cbn.
  destruct (paint_in_range self x y (brush_color self) Hx Hy) as [p ->].
  by exists p.
Qed.

Lemma call_reset_pixel self pos :
  canvas_wf self -> inside self pos ->
  exists p,
    call (reset_pixel pos) self
    = (Ok (),
       set_pixmap p
         (set_image (setPixelColor (image self) (cell_of self pos).1
                       (cell_of self pos).2 white) self)).
Proof.
  intros (Hw & Hh & Himg) Hin.
  destruct (cell_of_in_range self pos Hw Hh Hin) as [Hx Hy].
  unfold call, reset_pixel. rewrite mapPointerToCell_inside by done.
  destruct (cell_of self pos) as [x y]. cbn [fst snd] in *. cbn.
  change (erase x y self) with (paint x y white self).
  destruct (paint_in_range self x y white Hx Hy) as [p ->].
  by exists p.
Qed.

Lemma canvas_wf_painted self p x y c :
  canvas_wf self ->
  canvas_wf (set_pixmap p (set_image (setPixelColor (image self) x y c) self)).
Proof.
  intros (Hw & Hh & Himg). split; [done |]. split; [done |]. cbn.
  by apply image_wf_setPixelColor.
Qed.

(** X11: a stroke: a left press paints the cell under the pointer and a
    move with the left button held paints the next one; after the release of
    any button a move paints nothing, even with the left button still
    held. *)
Theorem mouse_stroke self press move release late :
  canvas_wf self ->
  button press = LeftButton -> inside self (pos press) ->
  Z.land (buttons move) LeftButton <> 0 -> inside self (pos move) ->
  exists s1 s2,
    mousePressEvent press self = (Ok (), s1) /\
    mouseMoveEvent move s1 = (Ok (), s2) /\
    image s2
    = setPixelColor
        (setPixelColor (image self) (cell_of self (pos press)).1
           (cell_of self (pos press)).2 (brush_color self))
        (cell_of self (pos move)).1 (cell_of self (pos move)).2
        (brush_color self) /\
    mouseMoveEvent late (mouseReleaseEvent release s2).2
    = (Ok (), (mouseReleaseEvent release s2).2) /\
    image (mouseReleaseEvent release s2).2 = image s2.
Proof.
  intros Hwf Hleft Hin1 Hheld Hin2.
  unfold mousePressEvent. rewrite Hleft. cbn [Z.eqb LeftButton Pos.eqb].
  destruct (call_paint_pixel (set_drawing true self) (pos press))
    as [p1 ->]; [done | done |].
  eexists. set (s1 := set_pixmap p1 _).
  assert (Hwf1 : canvas_wf s1)
    by (by apply (canvas_wf_painted (set_drawing true self))).
  unfold mouseMoveEvent.
  change (drawing s1) with true.
  rewrite (proj2 (Z.eqb_neq _ 0) Hheld). cbn [andb negb].
  destruct (call_paint_pixel s1 (pos move)) as [p2 ->]; [done | done |].
  eexists. split; [done |]. split; [done |]. split; [done |]. done.
Qed.

Lemma mouse_stroke_witness :
  let press := {| button := 1; buttons := 1; pos := {| qx := 5; qy := 5 |} |} in
  let move := {| button := 0; buttons := 1; pos := {| qx := 15; qy := 5 |} |} in
  let release := {| button := 2; buttons := 1; pos := {| qx := 15; qy := 5 |} |} in
  let late := {| button := 0; buttons := 1; pos := {| qx := 25; qy := 5 |} |} in
  exists s1 s2,
    mousePressEvent press canvas_60_600 = (Ok (), s1) /\
    mouseMoveEvent move s1 = (Ok (), s2) /\
    image s2
    = setPixelColor (setPixelColor (image canvas_60_600) 0 0 0xff69b4)
        1 0 0xff69b4 /\
    mouseMoveEvent late (mouseReleaseEvent release s2).2
    = (Ok (), (mouseReleaseEvent release s2).2) /\
    image (mouseReleaseEvent release s2).2 = image s2.
Proof.
  intros press move release late.
  apply (mouse_stroke canvas_60_600 press move release late);
    [exact canvas_60_600_wf | reflexivity | apply canvas_60_600_inside; lia
    | discriminate | apply canvas_60_600_inside; lia].
Defined.

(** X12: a double click with the left button erases: the press paints the
    cell, and the double-click event that follows the release resets it to
    white, so the image ends as [reset_pixel] alone would leave it, with no
    stroke under way. *)
Theorem double_click_erases self press release double :
  canvas_wf self -> button press = LeftButton ->
  pos double = pos press -> inside self (pos press) ->
  exists s1 s3,
    mousePressEvent press self = (Ok (), s1) /\
    mouseDoubleClickEvent double (mouseReleaseEvent release s1).2
    = (Ok (), s3) /\
    image s3
    = setPixelColor (image self) (cell_of self (pos press)).1
        (cell_of self (pos press)).2 white /\
    pixelColor (image s3) (cell_of self (pos press)).1
      (cell_of self (pos press)).2 = Some white /\
    drawing s3 = false.
Proof.
  intros Hwf Hleft Hpos Hin.
  destruct (cell_of_in_range self (pos press)) as [Hx Hy];
    [apply Hwf | apply Hwf | done |].
  unfold mousePressEvent. rewrite Hleft. cbn [Z.eqb LeftButton Pos.eqb].
  destruct (call_paint_pixel (set_drawing true self) (pos press))
    as [p1 ->]; [done | done |].
  eexists. set (s1 := set_pixmap p1 _).
  assert (Hwf1 : canvas_wf (set_drawing false s1))
    by (by apply (canvas_wf_painted (set_drawing true self))).
  unfold mouseDoubleClickEvent, mouseReleaseEvent. cbn [snd]. rewrite Hpos.
  destruct (call_reset_pixel (set_drawing false s1) (pos press))
    as [p3 ->]; [done | done |].
  eexists. split; [done |]. split; [done |]. cbn [image set_pixmap set_image].
  change (cell_of (set_drawing false s1) (pos press))
    with (cell_of self (pos press)).
  change (image (set_drawing false s1))
    with (setPixelColor (image self) (cell_of self (pos press)).1
            (cell_of self (pos press)).2 (brush_color self)).
  rewrite setPixelColor_twice. split; [done |]. split; [| done].
  destruct Hwf as (Hw & Hh & Himg).
  by apply (pixelColor_setPixelColor (width_px self) (height_px self)).
Qed.

Lemma double_click_erases_witness :
  let press := {| button := 1; buttons := 1; pos := {| qx := 5; qy := 5 |} |} in
  let release := {| button := 1; buttons := 0; pos := {| qx := 5; qy := 5 |} |} in
  exists s1 s3,
    mousePressEvent press canvas_60_600 = (Ok (), s1) /\
    mouseDoubleClickEvent press (mouseReleaseEvent release s1).2
    = (Ok (), s3) /\
    image s3 = setPixelColor (image canvas_60_600) 0 0 white /\
    pixelColor (image s3) 0 0 = Some white /\
    drawing s3 = false.
Proof.
  intros press release.
  apply (double_click_erases canvas_60_600 press release press);
    [exact canvas_60_600_wf | reflexivity | reflexivity
    | apply canvas_60_600_inside; lia].
Defined.

(** X14: [change_color] repaints nothing; the next [paint_pixel] uses the
    colour picked, or the old brush when the dialog was cancelled. *)
Theorem change_color_then_paint self pos picked :
  canvas_wf self -> inside self pos ->
  image (change_color picked self) = image self /\
  exists self',
    paint_pixel pos (change_color picked self) = Ok self' /\
    pixelColor (image self') (cell_of self pos).1 (cell_of self pos).2
    = Some (default (brush_color self) picked).
Proof.
  intros Hwf Hin. pose proof Hwf as (Hw & Hh & Himg).
  destruct (cell_of_in_range self pos Hw Hh Hin) as [Hx Hy].
  split; [by destruct picked |].
  assert (H : forall s,
            canvas_wf s -> inside s pos -> cell_of s pos = cell_of self pos ->
            image s = image self ->
            exists self',
              paint_pixel pos s = Ok self' /\
              pixelColor (image self') (cell_of self pos).1
                (cell_of self pos).2 = Some (brush_color s)).
  { intros s Hs Hi Hc Hi'.
    destruct (call_paint_pixel s pos Hs Hi) as [p Hp]. unfold call in Hp.
    destruct (paint_pixel pos s) as [self' | e]; [| done].
    injection Hp as ->. eexists. split; [done |].
    cbn [image set_pixmap set_image].
    assert (Hc1 : qx pos * width_px s / width s = (cell_of self pos).1)
      by (by rewrite <- Hc).
    assert (Hc2 : qy pos * height_px s / height s = (cell_of self pos).2)
      by (by rewrite <- Hc).
    rewrite Hc1, Hc2, Hi'.
    by apply (pixelColor_setPixelColor (width_px self) (height_px self)). }
  destruct picked as [c |]; cbn [change_color default]; by apply H.
Qed.

Lemma change_color_then_paint_witness :
  image (change_color (Some 0x00ff00) canvas_60_600) = image canvas_60_600 /\
  exists self',
    paint_pixel {| qx := 125; qy := 599 |}
      (change_color (Some 0x00ff00) canvas_60_600) = Ok self' /\
    pixelColor (image self') 12 59 = Some 0x00ff00.
Proof.
  apply (change_color_then_paint canvas_60_600 {| qx := 125; qy := 599 |}
           (Some 0x00ff00));
    [exact canvas_60_600_wf | apply canvas_60_600_inside; lia].
Defined.

(** X13: a right press erases the cell under the pointer and starts no
    stroke: the brush is kept, and a move that follows changes nothing. *)
Theorem right_press_erases self press move :
  canvas_wf self -> button press = RightButton -> inside self (pos press) ->
  drawing self = false ->
  exists s1,
    mousePressEvent press self = (Ok (), s1) /\
    image s1
    = setPixelColor (image self) (cell_of self (pos press)).1
        (cell_of self (pos press)).2 white /\
    brush_color s1 = brush_color self /\
    mouseMoveEvent move s1 = (Ok (), s1).
Proof.
  intros Hwf Hright Hin Hdraw.
  unfold mousePressEvent. rewrite Hright.
  cbn [Z.eqb RightButton LeftButton Pos.eqb].
  destruct (call_reset_pixel self (pos press)) as [p ->]; [done | done |].
  eexists. split; [done |]. split; [done |]. split; [done |].
  unfold mouseMoveEvent. cbn [drawing set_pixmap set_image].
  by rewrite Hdraw.
Qed.

Lemma right_press_erases_witness :
  let press := {| button := 2; buttons := 2; pos := {| qx := 5; qy := 5 |} |} in
  let move := {| button := 0; buttons := 3; pos := {| qx := 15; qy := 5 |} |} in
  exists s1,
    mousePressEvent press canvas_60_600 = (Ok (), s1) /\
    image s1 = setPixelColor (image canvas_60_600) 0 0 white /\
    brush_color s1 = 0xff69b4 /\
    mouseMoveEvent move s1 = (Ok (), s1).
Proof.
  intros press move.
  apply (right_press_erases canvas_60_600 press move);
    [exact canvas_60_600_wf | reflexivity | apply canvas_60_600_inside; lia
    | reflexivity].
Defined.

(** ** [apply_style] and the start of the application *)

Lemma apply_style_unfold st :
  apply_style st
  = match current_style st with
    | None => (Raise AttributeError, st)
    | Some c =>
        match heap st !! c with
        | None => (Raise AttributeError, st)
        | Some (JDict d) =>
            match dict_get (py "window_color") d, dict_get (py "font") d with
            | Some wc, Some font =>
                match dict_get (py "button_color") d with
                | Some bc =>
                    (Ok (), (setStyleSheet_buttons bc font
                               (setStyleSheet_window wc font st).2).2)
                | None => (Raise KeyError, (setStyleSheet_window wc font st).2)
                end
            | _, _ => (Raise KeyError, st)
            end
        | Some _ => (Raise TypeError, st)
        end
    end.
Proof.
  unfold apply_style, get_current_style, deref. run.
  destruct (current_style st) as [c |]; [| done]. cbn.
  destruct (heap st !! c) as [[| | | | | | d] |]; try done. cbn.
  destruct (dict_get (py "window_color") d) as [wc |]; [| done]. cbn.
  destruct (dict_get (py "font") d) as [font |]; [| done]. cbn.
  by destruct (dict_get (py "button_color") d) as [bc |].
Qed.

(** X15: [apply_style] returns when the theme has its three fields, and
    then shows them without touching files or objects; without
    [window_color] or [font] it raises [KeyError] with nothing changed; with
    only [button_color] missing it raises [KeyError] after the window has
    been restyled, the buttons keeping their style. *)
Theorem apply_style_keys st c d :
  current_style st = Some c -> heap st !! c = Some (JDict d) ->
  (fully_populated (JDict d) ->
   exists st',
     apply_style st = (Ok (), st') /\
     window_style st' = shown_window d /\ button_style st' = shown_buttons d /\
     fs st' = fs st /\ heap st' = heap st /\
     current_style st' = current_style st)
  /\ (dict_get (py "window_color") d = None \/ dict_get (py "font") d = None ->
      apply_style st = (Raise KeyError, st))
  /\ (forall wc font,
        dict_get (py "window_color") d = Some wc ->
        dict_get (py "font") d = Some font ->
        dict_get (py "button_color") d = None ->
        exists st',
          apply_style st = (Raise KeyError, st') /\
          window_style st' = Some (wc, font) /\
          button_style st' = button_style st).
Proof.
  intros Hc Hd. rewrite apply_style_unfold, Hc, Hd.
  unfold shown_window, shown_buttons. split; [| split].
  - intros ([wc Hwc] & [bc Hbc] & [font Hfont]).
    rewrite Hwc, Hbc, Hfont. eexists. split; [done |]. done.
  - intros [-> | ->]; [done |]. by destruct (dict_get _ d).
  - intros wc font -> -> ->. eexists. split; [done |]. done.
Qed.

Lemma apply_style_keys_witness :
  exists st',
    apply_style theme_without_button_color = (Raise KeyError, st') /\
    window_style st' = Some (JStr (py "#000000"), JStr (py "Arial")) /\
    button_style st' = None.
Proof.
  refine (proj2 (proj2
    (apply_style_keys theme_without_button_color 1
       [ (py "window_color", JStr (py "#000000"));
         (py "font", JStr (py "Arial")) ] eq_refl eq_refl))
    (JStr (py "#000000")) (JStr (py "Arial")) eq_refl eq_refl eq_refl).
Defined.

Lemma PixelArtApp_init_unfold files :
  PixelArtApp_init (blank files)
  = match load_config (with_defaults files) with
    | (Ok c, st1) => apply_style (set_current_style c st1).2
    | (Raise e, st1) => (Raise e, st1)
    end.
Proof.
  unfold PixelArtApp_init, alloc, set_default_style. run. cbn.
  change {| fs := files; heap := [default_theme]; default_style := Some 0%nat;
            current_style := None; window_style := None;
            button_style := None |} with (with_defaults files).
  by destruct (load_config (with_defaults files)) as [[c | e] st1].
Qed.

(** X16: starting on a configuration file of well-formed JSON, [__init__]
    returns if the file holds an object with the three fields, whose values
    it shows; an object without one of them raises [KeyError], and a value
    that is no object raises [TypeError]. *)
Theorem PixelArtApp_init_from_file files f t v :
  files CONFIG_FILE = File f -> readable f = true -> data f = Text t ->
  Json.loads t = Ok v ->
  (forall d, v = JDict d -> fully_populated v ->
     exists st,
       PixelArtApp_init (blank files) = (Ok (), st) /\
       window_style st = shown_window d /\ button_style st = shown_buttons d /\
       fs st = files)
  /\ (forall d, v = JDict d -> ~ fully_populated v ->
        (PixelArtApp_init (blank files)).1 = Raise KeyError)
  /\ ((forall d, v <> JDict d) ->
      (PixelArtApp_init (blank files)).1 = Raise TypeError).
Proof.
  intros Hf Hr Ht Hv.
  rewrite PixelArtApp_init_unfold, load_config_unfold.
  cbn [fs with_defaults]. rewrite Hf, Hr, Ht, Hv.
  rewrite apply_style_unfold. cbn.
  split; [| split].
  - intros d -> ([wc Hwc] & [bc Hbc] & [font Hfont]).
    unfold shown_window, shown_buttons. rewrite Hwc, Hbc, Hfont.
    eexists. split; [done |]. done.
  - intros d -> Hnot.
    destruct (dict_get (py "window_color") d) as [wc |] eqn:Hwc; [| done].
    destruct (dict_get (py "font") d) as [font |] eqn:Hfont; [| done].
    destruct (dict_get (py "button_color") d) as [bc |] eqn:Hbc; [| done].
    exfalso. apply Hnot. cbn. rewrite Hwc, Hfont, Hbc. eauto.
  - intros Hnot. destruct v; try done. by destruct (Hnot d).
Qed.

Lemma PixelArtApp_init_from_file_witness :
  (PixelArtApp_init (blank (files_with (quoted "{'font': 'Arial'}") true))).1
  = Raise KeyError.
Proof.
  refine (proj1 (proj2
    (PixelArtApp_init_from_file
       (files_with (quoted "{'font': 'Arial'}") true) _
       (quoted "{'font': 'Arial'}") (JDict [(py "font", JStr (py "Arial"))])
       eq_refl eq_refl eq_refl _)) _ eq_refl _).
  - by vm_compute.
  - intros [[x Hx] _]. vm_compute in Hx. discriminate.
Defined.

(** X17: starting without a configuration file, [__init__] returns, the
    current theme is a copy of the defaults at an address of its own, the
    default colours and font are shown, and no file is created. *)
Theorem PixelArtApp_init_fresh files b :
  files CONFIG_FILE = Missing b ->
  PixelArtApp_init (blank files)
  = (Ok (),
     {| fs := files; heap := [default_theme; default_theme];
        default_style := Some 0%nat; current_style := Some 1%nat;
        window_style := Some (JStr (py "#f3e6ff"), JStr (py "Comic Sans MS"));
        button_style := Some (JStr (py "#b57edc"), JStr (py "Comic Sans MS"))
     |}).
Proof.
  intros Hf. rewrite PixelArtApp_init_unfold, load_config_unfold.
  cbn [fs with_defaults]. by rewrite Hf.
Qed.

Lemma PixelArtApp_init_fresh_witness :
  PixelArtApp_init (blank files_none)
  = (Ok (),
     {| fs := files_none; heap := [default_theme; default_theme];
        default_style := Some 0%nat; current_style := Some 1%nat;
        window_style := Some (JStr (py "#f3e6ff"), JStr (py "Comic Sans MS"));
        button_style := Some (JStr (py "#b57edc"), JStr (py "Comic Sans MS"))
     |}).
Proof. apply (PixelArtApp_init_fresh files_none true). reflexivity. Defined.

(** ** The theme of a running application has its three fields *)

Lemma dict_get_set_same k v d : dict_get k (dict_set k v d) = Some v.
Proof.
  induction d as [| [k' v'] d IH]; cbn.
  - by rewrite bool_decide_eq_true_2.
  - destruct (bool_decide (k' = k)) eqn:E; cbn; rewrite E; done.
Qed.

Lemma dict_get_set_other k k' v d :
  k' <> k -> dict_get k' (dict_set k v d) = dict_get k' d.
Proof.
  intros Hne. induction d as [| [k0 v0] d IH]; cbn.
  - by rewrite bool_decide_eq_false_2.
  - destruct (bool_decide (k0 = k)) eqn:E; cbn.
    + apply bool_decide_eq_true_1 in E as ->.
      by rewrite !(bool_decide_eq_false_2 (k = k')).
    + by rewrite IH.
Qed.

Lemma dict_set_keeps k k' v d :
  is_Some (dict_get k' d) -> is_Some (dict_get k' (dict_set k v d)).
Proof.
  intros H. destruct (decide (k' = k)) as [-> | Hne].
  - rewrite dict_get_set_same. eauto.
  - by rewrite dict_get_set_other.
Qed.

Lemma fully_populated_set k v d :
  fully_populated (JDict d) -> fully_populated (JDict (dict_set k v d)).
Proof. intros (H1 & H2 & H3). repeat split; by apply dict_set_keeps. Qed.

Lemma fully_populated_chosen w b f d :
  fully_populated (JDict d) -> fully_populated (JDict (chosen_theme w b f d)).
Proof.
  intros H. unfold chosen_theme, pick.
  destruct w, b, f; repeat apply fully_populated_set; done.
Qed.

Lemma theme_of_strings_populated d :
  theme_of_strings d -> fully_populated (JDict d).
Proof.
  intros (wc & bc & font & H1 & H2 & H3). cbn. rewrite H1, H2, H3. eauto.
Qed.

Lemma theme_of_strings_set k s d :
  theme_of_strings d -> theme_of_strings (dict_set k (JStr s) d).
Proof.
  assert (H : forall k' x,
            dict_get k' d = Some (JStr x) ->
            exists x', dict_get k' (dict_set k (JStr s) d) = Some (JStr x')).
  { intros k' x Hx. destruct (decide (k' = k)) as [-> | Hne].
    - rewrite dict_get_set_same. eauto.
    - rewrite dict_get_set_other by done. eauto. }
  intros (wc & bc & font & H1 & H2 & H3).
  destruct (H _ _ H1) as [wc' ?], (H _ _ H2) as [bc' ?],
    (H _ _ H3) as [font' ?].
  by exists wc', bc', font'.
Qed.

Lemma theme_of_strings_default :
  theme_of_strings [ (py "window_color", JStr (py "#f3e6ff"));
                     (py "button_color", JStr (py "#b57edc"));
                     (py "font", JStr (py "Comic Sans MS")) ].
Proof. by eexists _, _, _. Qed.

Section theme_fields.

Variable float_repr : pystr -> pystr.
Variables QColor_converts QFont_converts : value -> bool.

Lemma theme_only_complete : theme_only theme_complete.
Proof.
  intros st st' Hh Hd Hc (c & d & H1 & H2 & H3).
  exists c, d. by rewrite Hh, Hc.
Qed.

Lemma setitem_complete c k x : preserves theme_complete (setitem c k x).
Proof.
  intros st (c0 & d & Hc & Hd & Hfull).
  unfold setitem, deref. run.
  destruct (heap st !! c) as [[| | | | | | d1] |] eqn:E;
    try (by exists c0, d).
  unfold set_heap. cbn.
  destruct (decide (c = c0)) as [-> | Hne].
  - assert (d1 = d) as -> by congruence.
    exists c0, (dict_set k x d). split; [done |]. split.
    + cbn. apply list_lookup_insert_eq. by eapply lookup_lt_Some.
    + by apply fully_populated_set.
  - exists c0, d. split; [done |]. split; [| done].
    cbn. by rewrite list_lookup_insert_ne.
Qed.

Lemma change_theme_complete w b f :
  preserves theme_complete
    (change_theme float_repr QColor_converts QFont_converts w b f).
Proof.
  pose proof theme_only_complete as Honly. unfold change_theme.
  repeat (first [ apply setitem_complete
                | by apply preserves_apply_style
                | by apply preserves_save_config
                | apply preserves_get_current_style
                | apply preserves_deref
                | apply preserves_getitem
                | apply preserves_construct
                | apply preserves_mret
                | match goal with
                  | |- preserves _ (match ?o with _ => _ end) =>
                      destruct o
                  end
                | apply preserves_bind; [| intros ?] ]).
Qed.

Lemma reset_theme_complete d st :
  theme_inv d st -> theme_complete (reset_theme float_repr st).2.
Proof.
  intros Hinv. rewrite (reset_theme_unfold _ d) by done.
  apply preserves_save_config; [apply theme_only_complete |].
  exists (length (heap st)), [ (py "window_color", JStr (py "#f3e6ff"));
                               (py "button_color", JStr (py "#b57edc"));
                               (py "font", JStr (py "Comic Sans MS")) ].
  split; [done |]. split; [| apply fully_populated_default].
  cbn. by rewrite lookup_app_r, Nat.sub_diag.
Qed.

Lemma init_complete files st :
  PixelArtApp_init (blank files) = (Ok (), st) -> theme_complete st.
Proof.
  rewrite PixelArtApp_init_unfold.
  destruct (load_config (with_defaults files)) as [[c | e] st1]; [| done].
  rewrite apply_style_unfold. cbn.
  destruct (heap st1 !! c) as [[| | | | | | d] |] eqn:Hd; try done.
  destruct (dict_get (py "window_color") d) as [wc |] eqn:Hwc; [| done].
  destruct (dict_get (py "font") d) as [font |] eqn:Hfont;
    [| by destruct (dict_get _ d)].
  destruct (dict_get (py "button_color") d) as [bc |] eqn:Hbc; [| done].
  intros [= <-]. exists c, d. split; [done |]. split; [done |].
  cbn. rewrite Hwc, Hfont, Hbc. eauto.
Qed.

Lemma theme_only_strings : theme_only theme_strings.
Proof.
  intros st st' Hh Hd Hc (c & d & H1 & H2 & H3).
  exists c, d. by rewrite Hh, Hc.
Qed.

Lemma setitem_strings c k s : preserves theme_strings (setitem c k (JStr s)).
Proof.
  intros st (c0 & d & Hc & Hd & Hstr).
  unfold setitem, deref. run.
  destruct (heap st !! c) as [[| | | | | | d1] |] eqn:E;
    try (by exists c0, d).
  unfold set_heap. cbn.
  destruct (decide (c = c0)) as [-> | Hne].
  - assert (d1 = d) as -> by congruence.
    exists c0, (dict_set k (JStr s) d). split; [done |]. split.
    + cbn. apply list_lookup_insert_eq. by eapply lookup_lt_Some.
    + by apply theme_of_strings_set.
  - exists c0, d. split; [done |]. split; [| done].
    cbn. by rewrite list_lookup_insert_ne.
Qed.

Lemma change_theme_strings w b f :
  preserves theme_strings
    (change_theme float_repr QColor_converts QFont_converts w b f).
Proof.
  pose proof theme_only_strings as Honly. unfold change_theme.
  repeat (first [ apply setitem_strings
                | by apply preserves_apply_style
                | by apply preserves_save_config
                | apply preserves_get_current_style
                | apply preserves_deref
                | apply preserves_getitem
                | apply preserves_construct
                | apply preserves_mret
                | match goal with
                  | |- preserves _ (match ?o with _ => _ end) =>
                      destruct o
                  end
                | apply preserves_bind; [| intros ?] ]).
Qed.

Lemma reset_theme_strings d st :
  theme_inv d st -> theme_strings (reset_theme float_repr st).2.
Proof.
  intros Hinv. rewrite (reset_theme_unfold _ d) by done.
  apply preserves_save_config; [apply theme_only_strings |].
  exists (length (heap st)), [ (py "window_color", JStr (py "#f3e6ff"));
                               (py "button_color", JStr (py "#b57edc"));
                               (py "font", JStr (py "Comic Sans MS")) ].
  split; [done |]. split; [| apply theme_of_strings_default].
  cbn. by rewrite lookup_app_r, Nat.sub_diag.
Qed.

(** The current theme of a running application has its three fields. *)
Lemma reachable_fields st :
  reachable float_repr QColor_converts QFont_converts st -> theme_complete st.
Proof.
  induction 1 as [files st Hinit | st e r st' Hreach IH Hstep].
  - by eapply init_complete.
  - replace st' with (handle float_repr QColor_converts QFont_converts e st).2
      by (by rewrite Hstep).
    destruct e as [w b f | | files]; cbn.
    + by apply change_theme_complete.
    + destruct (reachable_inv _ _ _ _ Hreach) as [d Hinv].
      by apply (reset_theme_complete d).
    + by eapply theme_only_complete.
Qed.

End theme_fields.

(** ** [change_theme] *)

Section theme_changes.

Variable float_repr : pystr -> pystr.
Variables QColor_converts QFont_converts : value -> bool.

Lemma set_heap_same st : set_heap (heap st) st = st.
Proof. by destruct st. Qed.

Lemma setitem_pick c k choice d st :
  heap st !! c = Some (JDict d) ->
  match choice with
  | Some name => setitem c k (JStr name)
  | None => mret ()
  end st
  = (Ok (), set_heap (<[c := JDict (pick k choice d)]> (heap st)) st).
Proof.
  intros Hd. destruct choice as [name |]; cbn.
  - unfold setitem, deref. run. by rewrite Hd.
  - unfold mret, M_ret. by rewrite list_insert_id, set_heap_same.
Qed.

(** The state [change_theme] has reached when it calls [save_config], on
    a theme of strings. *)
Lemma change_theme_unfold st c d w b f :
  current_style st = Some c -> heap st !! c = Some (JDict d) ->
  theme_of_strings d ->
  change_theme float_repr QColor_converts QFont_converts w b f st
  = save_config float_repr
      {| fs := fs st;
         heap := <[c := JDict (chosen_theme w b f d)]> (heap st);
         default_style := default_style st; current_style := Some c;
         window_style := shown_window (chosen_theme w b f d);
         button_style := shown_buttons (chosen_theme w b f d) |}.
Proof.
  intros Hc Hd Hstr.
  pose proof (fully_populated_chosen w b f d
                (theme_of_strings_populated d Hstr))
    as ([wc' Hwc'] & [bc' Hbc'] & [font' Hfont']).
  destruct Hstr as (wc & bc & font & Hwc & Hbc & Hfont).
  assert (Hlt : (c < length (heap st))%nat) by (by eapply lookup_lt_Some).
  unfold change_theme.
  unfold mbind at 1, M_bind at 1, get_current_style at 1. rewrite Hc.
  unfold mbind at 1, M_bind at 1, deref at 1. rewrite Hd.
  unfold getitem. rewrite Hwc, Hbc, Hfont.
  do 3 (unfold mbind at 1, M_bind at 1, mret at 1, M_ret at 1;
        unfold mbind at 1, M_bind at 1, construct at 1, mret at 1,
          M_ret at 1).
  unfold mbind at 1, M_bind at 1.
  rewrite (setitem_pick c _ w d) by done.
  set (st1 := set_heap _ st).
  assert (H1 : heap st1 !! c
               = Some (JDict (pick (py "window_color") w d)))
    by (by apply list_lookup_insert_eq).
  unfold mbind at 1, M_bind at 1.
  rewrite (setitem_pick c _ b _ st1 H1).
  set (st2 := set_heap _ st1).
  assert (H2 : heap st2 !! c
               = Some (JDict (pick (py "button_color") b
                                (pick (py "window_color") w d)))).
  { apply list_lookup_insert_eq. subst st1.
    cbn. by rewrite length_insert. }
  unfold mbind at 1, M_bind at 1.
  rewrite (setitem_pick c _ f _ st2 H2).
  fold (chosen_theme w b f d).
  set (st3 := set_heap _ st2).
  assert (H3 : heap st3 = <[c := JDict (chosen_theme w b f d)]> (heap st)).
  { subst st3 st2 st1. cbn. by rewrite !list_insert_insert_eq. }
  unfold mbind at 1, M_bind at 1.
  rewrite apply_style_unfold.
  change (current_style st3) with (current_style st). rewrite Hc, H3.
  rewrite list_lookup_insert_eq by done.
  rewrite Hwc', Hfont', Hbc'.
  f_equal. unfold shown_window, shown_buttons.
  rewrite Hwc', Hfont', Hbc'. cbn.
  unfold setStyleSheet_buttons, setStyleSheet_window. cbn.
  by f_equal.
Qed.

(** X19: on a theme whose three fields hold strings, [change_theme] assigns
    the choices made to the current [dict] in place, leaving the fields of
    cancelled dialogs, shows the new theme, and then saves: a writable
    configuration file holds the serialized theme afterwards and no other
    path changes; when it cannot be written, [OSError] is raised with the
    theme already changed in memory and on screen, and no file changed. *)
Theorem change_theme_effect st c d w b f :
  current_style st = Some c -> heap st !! c = Some (JDict d) ->
  theme_of_strings d ->
  exists r st',
    change_theme float_repr QColor_converts QFont_converts w b f st
    = (r, st') /\
    current_style st' = Some c /\
    heap st' = <[c := JDict (chosen_theme w b f d)]> (heap st) /\
    window_style st' = shown_window (chosen_theme w b f d) /\
    button_style st' = shown_buttons (chosen_theme w b f d) /\
    if can_write CONFIG_FILE (fs st)
    then r = Ok () /\
         fs st' CONFIG_FILE
         = File {| readable := readable_after CONFIG_FILE (fs st);
                   writable := true;
                   data := Text (Json.dumps float_repr
                                   (JDict (chosen_theme w b f d))) |} /\
         forall path, path <> CONFIG_FILE -> fs st' path = fs st path
    else r = Raise OSError /\ fs st' = fs st.
Proof.
  intros Hc Hd Hstr.
  assert (Hlt : (c < length (heap st))%nat) by (by eapply lookup_lt_Some).
  rewrite (change_theme_unfold st c d) by done.
  rewrite save_config_unfold. cbn [fs current_style heap].
  rewrite list_lookup_insert_eq by done.
  destruct (can_write CONFIG_FILE (fs st)).
  - cbv zeta. eexists _, _. split; [reflexivity |].
    unfold set_fs. cbn [fs current_style heap window_style button_style].
    split; [done |]. split; [done |]. split; [done |]. split; [done |].
    split; [done |]. split; [by rewrite fn_lookup_insert |].
    intros path Hne. by rewrite !fn_lookup_insert_ne.
  - eexists _, _. split; [reflexivity |]. done.
Qed.

(** X18: the current theme of a running application always is a [dict]
    with its three fields, whatever themes were chosen, reset or failed to
    be saved before, and [reset_theme] returns when the configuration file
    can be written and raises [OSError] when it cannot, and nothing else.
    While the three fields hold strings, as in every theme the program
    builds, the same is true of [change_theme], and they still hold strings
    after any event. *)
Theorem theme_buttons_outcome st w b f :
  reachable float_repr QColor_converts QFont_converts st ->
  theme_complete st
  /\ (reset_theme float_repr st).1
     = (if can_write CONFIG_FILE (fs st) then Ok () else Raise OSError)
  /\ (theme_strings st ->
      (change_theme float_repr QColor_converts QFont_converts w b f st).1
      = (if can_write CONFIG_FILE (fs st) then Ok () else Raise OSError)
      /\ forall e,
           theme_strings
             (handle float_repr QColor_converts QFont_converts e st).2).
Proof.
  intros Hreach.
  destruct (reachable_inv _ _ _ _ Hreach) as [d0 Hinv].
  split; [by apply (reachable_fields float_repr QColor_converts
                      QFont_converts) |].
  split.
  - rewrite (reset_theme_unfold _ d0) by done.
    rewrite save_config_unfold. cbn [fs current_style heap reset_before_save].
    rewrite lookup_app_r, Nat.sub_diag by done.
    by destruct (can_write CONFIG_FILE (fs st)).
  - intros Hstrings. split.
    + destruct Hstrings as (c & d & Hc & Hd & Hstr).
      assert (Hlt : (c < length (heap st))%nat) by (by eapply lookup_lt_Some).
      rewrite (change_theme_unfold st c d) by done.
      rewrite save_config_unfold. cbn [fs current_style heap].
      rewrite list_lookup_insert_eq by done.
      by destruct (can_write CONFIG_FILE (fs st)).
    + intros [w' b' f' | | files]; cbn [handle].
      * by apply change_theme_strings.
      * by apply (reset_theme_strings _ d0).
      * by eapply theme_only_strings.
Qed.

(** X23: when the current value of [window_color] is no string and converts
    to no colour, [change_theme] raises [TypeError] at line 179, before the
    first dialog: nothing is assigned, shown or saved. *)
Theorem change_theme_rejects st c d x w b f :
  current_style st = Some c -> heap st !! c = Some (JDict d) ->
  dict_get (py "window_color") d = Some x ->
  (forall s, x <> JStr s) -> QColor_converts x = false ->
  change_theme float_repr QColor_converts QFont_converts w b f st
  = (Raise TypeError, st).
Proof.
  intros Hc Hd Hx Hnot Hconv.
  unfold change_theme, get_current_style, deref, getitem, construct. run.
  rewrite Hc, Hd, Hx. cbn.
  destruct x; try (by rewrite Hconv). by destruct (Hnot s).
Qed.

End theme_changes.

Lemma change_theme_effect_witness :
  exists r st',
    change_theme (fun l => l) (fun _ => false) (fun _ => false)
      None (Some (py "#222222")) None app_custom
    = (r, st') /\
    current_style st' = Some 1%nat /\
    heap st'
    = <[1%nat := JDict [ (py "window_color", JStr (py "#000000"));
                         (py "button_color", JStr (py "#222222"));
                         (py "font", JStr (py "Arial")) ]]> (heap app_custom) /\
    window_style st' = Some (JStr (py "#000000"), JStr (py "Arial")) /\
    button_style st' = Some (JStr (py "#222222"), JStr (py "Arial")) /\
    r = Ok () /\
    fs st' CONFIG_FILE
    = File {| readable := true; writable := true;
              data := Text (quoted "{'window_color': '#000000', 'button_color': '#222222', 'font': 'Arial'}") |} /\
    forall path, path <> CONFIG_FILE -> fs st' path = fs app_custom path.
Proof.
  exact (change_theme_effect (fun l => l) (fun _ => false) (fun _ => false)
           app_custom 1
           [ (py "window_color", JStr (py "#000000"));
             (py "button_color", JStr (py "#111111"));
             (py "font", JStr (py "Arial")) ]
           None (Some (py "#222222")) None eq_refl eq_refl
           (ex_intro _ _ (ex_intro _ _ (ex_intro _ _
              (conj eq_refl (conj eq_refl eq_refl)))))).
Defined.

Lemma theme_buttons_outcome_witness :
  theme_complete app_custom
  /\ (reset_theme (fun l => l) app_custom).1 = Ok ()
  /\ (change_theme (fun l => l) (fun _ => false) (fun _ => false)
        (Some (py "#000000")) None None app_custom).1 = Ok ()
  /\ forall e,
       theme_strings
         (handle (fun l => l) (fun _ => false) (fun _ => false) e
            app_custom).2.
Proof.
  destruct (theme_buttons_outcome (fun l => l) (fun _ => false)
              (fun _ => false) app_custom (Some (py "#000000")) None None)
    as (H1 & H2 & H3).
  { apply (reach_init _ _ _ files_custom). by vm_compute. }
  destruct H3 as [H3 H4].
  { exists 1%nat, [ (py "window_color", JStr (py "#000000"));
                    (py "button_color", JStr (py "#111111"));
                    (py "font", JStr (py "Arial")) ].
    split; [reflexivity |]. split; [reflexivity |]. by eexists _, _, _. }
  split; [exact H1 |]. split; [exact H2 |]. split; [exact H3 | exact H4].
Defined.

Lemma change_theme_rejects_witness :
  change_theme (fun l => l) (fun _ => false) (fun _ => false)
    (Some (py "#000000")) None None theme_with_a_list
  = (Raise TypeError, theme_with_a_list).
Proof.
  apply (change_theme_rejects (fun l => l) (fun _ => false) (fun _ => false)
           theme_with_a_list 1
           [ (py "window_color", JList []);
             (py "button_color", JStr (py "#111111"));
             (py "font", JStr (py "Arial")) ]
           (JList []));
    [reflexivity | reflexivity | reflexivity | discriminate | reflexivity].
Defined.

(** ** The theme across a restart *)

Lemma dict_set_keys k v d x :
  x ∈ (dict_set k v d).*1 -> x = k \/ x ∈ d.*1.
Proof.
  induction d as [| [k' v'] d IH]; cbn.
  - intros ->%list_elem_of_singleton. by left.
  - destruct (bool_decide (k' = k)); cbn; [by right |].
    intros [-> | H]%elem_of_cons; [right; left |].
    destruct (IH H) as [-> | ?]; [by left | right; by right].
Qed.

Lemma theme_ok_set k s d :
  theme_ok d -> text_ok k = true -> text_ok s = true ->
  theme_ok (dict_set k (JStr s) d).
Proof.
  intros [Hnd Hall] Hk Hs. induction d as [| [k' v'] d IH]; cbn.
  - split; [apply NoDup_singleton |]. repeat constructor; cbn; eauto.
  - cbn in Hnd. apply list.NoDup_cons in Hnd as [Hnotin Hnd].
    apply Forall_cons_1 in Hall as [[Hk' Hv'] Hall].
    destruct (bool_decide (k' = k)) eqn:E; cbn.
    + split; [by apply NoDup_cons_2 |].
      apply Forall_cons; [| done]. cbn. eauto.
    + destruct (IH Hnd Hall) as [Hnd' Hall'].
      apply bool_decide_eq_false_1 in E.
      split; [| by apply Forall_cons].
      apply NoDup_cons_2; [| done].
      intros [E' | H]%dict_set_keys; [cbn in E'; congruence | done].
Qed.

Lemma dict_get_elem k v d : dict_get k d = Some v -> (k, v) ∈ d.
Proof.
  induction d as [| [k' v'] d IH]; cbn; [done |].
  destruct (bool_decide (k' = k)) eqn:E.
  - apply bool_decide_eq_true_1 in E as ->. intros [= ->]. by left.
  - intros H. right. by apply IH.
Qed.

Lemma theme_ok_strings d :
  theme_ok d -> fully_populated (JDict d) -> theme_of_strings d.
Proof.
  intros [_ Hall] ([wc Hwc] & [bc Hbc] & [font Hfont]).
  assert (H : forall k v, dict_get k d = Some v -> exists s, v = JStr s).
  { intros k v Hv. apply dict_get_elem, list_elem_of_lookup in Hv as [i Hi].
    destruct (Forall_lookup_1 _ _ _ _ Hall Hi) as [_ (s & ? & _)]. eauto. }
  destruct (H _ _ Hwc) as [s1 ->], (H _ _ Hbc) as [s2 ->],
    (H _ _ Hfont) as [s3 ->].
  by exists s1, s2, s3.
Qed.

Lemma theme_ok_chosen w b f d :
  theme_ok d -> choice_ok w -> choice_ok b -> choice_ok f ->
  theme_ok (chosen_theme w b f d).
Proof.
  intros Hd Hw Hb Hf. unfold chosen_theme, pick.
  destruct w, b, f; cbn in *; repeat apply theme_ok_set; done.
Qed.

Section restart.

Variable float_repr : pystr -> pystr.
Variables QColor_converts QFont_converts : value -> bool.

(** X20: a theme of strings chosen with [change_theme] and saved is the
    theme of the next start: [__init__] on the files left behind returns
    with a current theme equal to the chosen one, and shows what was
    shown. *)
Theorem theme_survives_restart st c d w b f st' :
  current_style st = Some c -> heap st !! c = Some (JDict d) ->
  fully_populated (JDict d) -> theme_ok d ->
  choice_ok w -> choice_ok b -> choice_ok f ->
  readable_after CONFIG_FILE (fs st) = true ->
  change_theme float_repr QColor_converts QFont_converts w b f st
  = (Ok (), st') ->
  exists st2 c2,
    PixelArtApp_init (blank (fs st')) = (Ok (), st2) /\
    current_style st2 = Some c2 /\
    heap st2 !! c2 = Some (JDict (chosen_theme w b f d)) /\
    window_style st2 = window_style st' /\
    button_style st2 = button_style st'.
Proof.
  intros Hc Hd Hfull Hok Hw Hb Hf Hread.
  assert (Hlt : (c < length (heap st))%nat) by (by eapply lookup_lt_Some).
  rewrite (change_theme_unfold float_repr QColor_converts QFont_converts
             st c d) by (by try apply theme_ok_strings).
  rewrite save_config_unfold. cbn [fs current_style heap].
  rewrite list_lookup_insert_eq by done.
  destruct (can_write CONFIG_FILE (fs st)); [| done].
  cbv zeta. intros Hsave. apply (f_equal snd) in Hsave. cbn [snd] in Hsave.
  subst st'. unfold set_fs. cbn [fs window_style button_style].
  pose proof (fully_populated_chosen w b f d Hfull)
    as ([wc Hwc] & [bc Hbc] & [font Hfont]).
  rewrite PixelArtApp_init_unfold, load_config_unfold.
  cbn [fs with_defaults]. rewrite fn_lookup_insert, Hread.
  cbn [readable data].
  rewrite loads_dumps_theme by (by apply theme_ok_chosen).
  rewrite apply_style_unfold.
  cbn [mbind current_style heap set_current_style set_heap snd with_defaults
       app lookup list_lookup length].
  rewrite Hwc, Hfont, Hbc.
  eexists _, 1%nat. split; [done |]. split; [done |]. split; [done |].
  unfold shown_window, shown_buttons, setStyleSheet_buttons,
    setStyleSheet_window.
  cbn [snd window_style button_style]. by rewrite Hwc, Hfont, Hbc.
Qed.

End restart.

Lemma theme_survives_restart_witness :
  exists st2 c2,
    PixelArtApp_init
      (blank (fs (change_theme (fun l => l) (fun _ => false) (fun _ => false)
                      (Some (py "#000000")) None
                    (Some (py "Arial")) app_fresh).2))
    = (Ok (), st2) /\
    current_style st2 = Some c2 /\
    heap st2 !! c2
    = Some (JDict [ (py "window_color", JStr (py "#000000"));
                    (py "button_color", JStr (py "#b57edc"));
                    (py "font", JStr (py "Arial")) ]) /\
    window_style st2
    = window_style (change_theme (fun l => l) (fun _ => false) (fun _ => false)
                      (Some (py "#000000")) None
                      (Some (py "Arial")) app_fresh).2 /\
    button_style st2
    = button_style (change_theme (fun l => l) (fun _ => false) (fun _ => false)
                      (Some (py "#000000")) None
                      (Some (py "Arial")) app_fresh).2.
Proof.
  apply (theme_survives_restart (fun l => l) (fun _ => false) (fun _ => false)
           app_fresh 1
           [ (py "window_color", JStr (py "#f3e6ff"));
             (py "button_color", JStr (py "#b57edc"));
             (py "font", JStr (py "Comic Sans MS")) ]
           (Some (py "#000000")) None (Some (py "Arial")));
    [reflexivity | reflexivity | apply fully_populated_default
    | exact default_theme_ok | reflexivity | exact I | reflexivity
    | reflexivity | by vm_compute].
Defined.

(** ** What [save_config] writes *)

Section ascii_output.

Import Json.
Local Open Scope N_scope.

Variable float_repr : pystr -> pystr.

Lemma hex_digit_printable n : n < 16 -> printable (hex_digit n).
Proof.
  intros Hn. unfold printable, hex_digit.
  destruct (N.ltb_spec n 10); lia.
Qed.

Lemma hex4_printable n : Forall printable (hex4 n).
Proof.
  unfold hex4.
  repeat (apply Forall_cons;
          [apply hex_digit_printable; apply N.mod_lt; lia |]).
  apply Forall_nil_2.
Qed.

Lemma encode_char_printable c : Forall printable (encode_char c).
Proof.
  unfold encode_char.
  repeat match goal with
         | |- Forall _ (if ?b then _ else _) => destruct b eqn:?
         end;
    repeat first [ apply Forall_nil_2
                 | apply hex4_printable
                 | apply Forall_app; split
                 | apply Forall_cons; [unfold printable; lia |] ].
  apply Forall_cons; [| apply Forall_nil_2].
  match goal with H : (_ <=? _) && (_ <=? _) = true |- _ =>
    apply andb_true_iff in H as [?%N.leb_le ?%N.leb_le] end.
  unfold printable. lia.
Qed.

Lemma encode_printable s : Forall printable (encode_basestring_ascii s).
Proof.
  unfold encode_basestring_ascii.
  apply Forall_cons; [unfold printable; lia |].
  apply Forall_app; split.
  - apply Forall_bind, Forall_forall. intros c _. apply encode_char_printable.
  - apply Forall_cons; [unfold printable; lia | apply Forall_nil_2].
Qed.

Lemma join_printable parts :
  Forall (Forall printable) parts -> Forall printable (join parts).
Proof.
  induction 1 as [| p parts Hp Hparts IH]; [apply Forall_nil_2 |].
  destruct parts as [| q rest]; [done |].
  change (join (p :: q :: rest)) with (p ++ 44 :: 32 :: join (q :: rest)).
  apply Forall_app; split; [done |].
  repeat (apply Forall_cons; [unfold printable; lia |]). done.
Qed.

Lemma dumps_printable d :
  Forall (fun kv : pystr * value => exists s, kv.2 = JStr s) d ->
  Forall printable (dumps float_repr (JDict d)).
Proof.
  intros Hd. rewrite dumps_dict.
  apply Forall_cons; [unfold printable; lia |].
  apply Forall_app; split;
    [| apply Forall_cons; [unfold printable; lia | apply Forall_nil_2]].
  apply join_printable, Forall_fmap.
  eapply Forall_impl; [| exact Hd]. intros [k v] [s E].
  cbn [snd] in E. subst v. unfold compose. cbn [fst snd].
  change (dumps float_repr (JStr s)) with (encode_basestring_ascii s).
  apply Forall_app; split; [apply encode_printable |].
  do 2 (apply Forall_cons; [unfold printable; lia |]).
  apply encode_printable.
Qed.

(** X22: for a theme of strings, what [save_config] writes is printable
    ASCII throughout, whatever characters the strings hold. *)
Theorem save_config_printable st st' c d :
  current_style st = Some c -> heap st !! c = Some (JDict d) ->
  Forall (fun kv : pystr * value => exists s, kv.2 = JStr s) d ->
  save_config float_repr st = (Ok (), st') ->
  exists f t,
    fs st' CONFIG_FILE = File f /\ data f = Text t /\ Forall printable t.
Proof.
  intros Hc Hd Hstr. rewrite save_config_unfold, Hc, Hd.
  destruct (can_write CONFIG_FILE (fs st)); [| done].
  cbv zeta. intros [= <-]. unfold set_fs. cbn [fs].
  eexists _, _. rewrite fn_lookup_insert. split; [done |].
  split; [done |]. by apply dumps_printable.
Qed.

End ascii_output.

Lemma save_config_printable_witness :
  exists f t,
    fs (save_config (fun l => l) app_custom).2 CONFIG_FILE = File f /\
    data f = Text t /\ Forall printable t.
Proof.
  apply (save_config_printable (fun l => l) app_custom
           (save_config (fun l => l) app_custom).2 1
           [ (py "window_color", JStr (py "#000000"));
             (py "button_color", JStr (py "#111111"));
             (py "font", JStr (py "Arial")) ]);
    [by vm_compute | by vm_compute | | by vm_compute].
  repeat constructor; cbn; eauto.
Defined.

Section reset_restart.

Variable float_repr : pystr -> pystr.
Variables QColor_converts QFont_converts : value -> bool.

(** X21: after [reset_theme] has returned in a running application, the
    next start shows the default theme. *)
Theorem reset_survives_restart st st' :
  reachable float_repr QColor_converts QFont_converts st ->
  readable_after CONFIG_FILE (fs st) = true ->
  reset_theme float_repr st = (Ok (), st') ->
  PixelArtApp_init (blank (fs st'))
  = (Ok (),
     {| fs := fs st'; heap := [default_theme; default_theme];
        default_style := Some 0%nat; current_style := Some 1%nat;
        window_style := window_style st'; button_style := button_style st' |})
  /\ window_style st' = Some (JStr (py "#f3e6ff"), JStr (py "Comic Sans MS"))
  /\ button_style st' = Some (JStr (py "#b57edc"), JStr (py "Comic Sans MS")).
Proof.
  intros Hreach Hread. destruct (reachable_inv _ _ _ _ Hreach) as [d Hinv].
  rewrite (reset_theme_unfold _ d) by done.
  rewrite save_config_unfold. cbn [fs current_style heap reset_before_save].
  rewrite lookup_app_r, Nat.sub_diag by done. cbn [lookup list_lookup].
  destruct (can_write CONFIG_FILE (fs st)); [| done].
  cbv zeta. intros Hsave. apply (f_equal snd) in Hsave. cbn [snd] in Hsave.
  subst st'. unfold set_fs.
  cbn [fs window_style button_style reset_before_save].
  split; [| done].
  rewrite PixelArtApp_init_unfold, load_config_unfold.
  cbn [fs with_defaults]. rewrite fn_lookup_insert, Hread. cbn [readable data].
  change (Json.loads (Json.dumps float_repr default_theme))
    with (Json.loads (Json.dumps float_repr
            (JDict [ (py "window_color", JStr (py "#f3e6ff"));
                     (py "button_color", JStr (py "#b57edc"));
                     (py "font", JStr (py "Comic Sans MS")) ]))).
  rewrite (loads_dumps_theme float_repr _ default_theme_ok).
  by rewrite apply_style_unfold.
Qed.

End reset_restart.

Lemma reset_survives_restart_witness :
  PixelArtApp_init (blank (fs (reset_theme (fun l => l) app_custom).2))
  = (Ok (),
     {| fs := fs (reset_theme (fun l => l) app_custom).2;
        heap := [default_theme; default_theme];
        default_style := Some 0%nat; current_style := Some 1%nat;
        window_style := window_style (reset_theme (fun l => l) app_custom).2;
        button_style := button_style (reset_theme (fun l => l) app_custom).2
     |})
  /\ window_style (reset_theme (fun l => l) app_custom).2
     = Some (JStr (py "#f3e6ff"), JStr (py "Comic Sans MS"))
  /\ button_style (reset_theme (fun l => l) app_custom).2
     = Some (JStr (py "#b57edc"), JStr (py "Comic Sans MS")).
Proof.
  apply (reset_survives_restart (fun l => l) (fun _ => false) (fun _ => false)
           app_custom).
  - apply (reach_init _ _ _ files_custom). by vm_compute.
  - reflexivity.
  - by vm_compute.
Defined.
